(** * Smart Accident And Alert System: the incident temporal-aggregation engine

    A shallow embedding of [ai-service-python/app/main.py] and
    [ai-service-python/app/services/accident_client.py]:

    - the geometry helpers [boxes_overlap] and [compute_max_overlap_ratio];
    - the per-frame scoring done (twice, textually) by [detect_accident] and
      [analyze_video];
    - the per-camera live state machine driven by [detect_accident];
    - the injury report of [build_expected_injury_report];
    - the two passes of [analyze_video] and the endpoint as a whole.

    Conventions.  Python [int] is [Z].  Python [float] (box coordinates,
    confidences, overlap ratios, [time.time()] readings) is modelled by exact
    rationals [Q]: rounding is not modelled, comparisons and the branch
    structure are the source's.  Where the value of the overlap ratio itself
    is at stake, [compute_max_overlap_ratio] is modelled a second time as the
    source computes it, on [numpy.float32] (module [Float32]).  A
    [deque(maxlen=n)] is a list, oldest element first.  The object detector,
    [cv2] and the HTTP backend are outside the engine: what they return on a
    given call is part of the input of the step function. *)

From Stdlib Require Import QArith Qround Qminmax Lqa ZArith Lia SpecFloat.
From stdpp Require Import base option list strings gmap pretty.

Local Open Scope Q_scope.

(* ===================================================================== *)
(** * Python comparisons on floats *)
(* ===================================================================== *)

Module Py.

(** [x < y] on floats. *)
Definition lt (x y : Q) : bool :=
  match x ?= y with Lt => true | _ => false end.

(** [x <= y] on floats. *)
Definition le (x y : Q) : bool := Qle_bool x y.

(** [x > y] on floats. *)
Definition gt (x y : Q) : bool := lt y x.

(** [max(a, b)]: the builtin keeps its first argument unless the second
    is strictly greater. *)
Definition max (a b : Q) : Q := if gt b a then b else a.

(** [min(a, b)]: the builtin keeps its first argument unless the second
    is strictly smaller. *)
Definition min (a b : Q) : Q := if lt b a then b else a.

(** [int(x)] on a float: truncation toward zero. *)
Definition int (x : Q) : Z := (Qnum x ÷ Zpos (Qden x))%Z.

End Py.

(* ===================================================================== *)
(** * Geometry: [boxes_overlap] and [compute_max_overlap_ratio] *)
(* ===================================================================== *)

(** A YOLO box [[x1, y1, x2, y2]]. *)
Record Box : Type := mkBox {
  x_min : Q;
  y_min : Q;
  x_max : Q;
  y_max : Q;
}.

(** [boxes_overlap(box1, box2)], main.py lines 98-110. *)
Definition boxes_overlap (box1 box2 : Box) : bool :=
  if Py.lt (x_max box1) (x_min box2) || Py.lt (x_max box2) (x_min box1) then false
  else if Py.lt (y_max box1) (y_min box2) || Py.lt (y_max box2) (y_min box1) then false
  else true.

(** [max(0.0, x_max - x_min) * max(0.0, y_max - y_min)], lines 129 and 134. *)
Definition box_area (b : Box) : Q :=
  Py.max 0 (x_max b - x_min b) * Py.max 0 (y_max b - y_min b).

(** The body of the inner loop (lines 133-154) for the box [b2 = boxes[j]],
    with [b1 = boxes[i]] and [area1] fixed by the outer loop; every [continue]
    leaves [max_ratio] as it is. *)
Definition overlap_inner (b1 : Box) (area1 : Q) (max_ratio : Q) (b2 : Box) : Q :=
  let area2 := box_area b2 in
  if Py.le area2 0 then max_ratio else
  let ix_min := Py.max (x_min b1) (x_min b2) in
  let iy_min := Py.max (y_min b1) (y_min b2) in
  let ix_max := Py.min (x_max b1) (x_max b2) in
  let iy_max := Py.min (y_max b1) (y_max b2) in
  let iw := Py.max 0 (ix_max - ix_min) in
  let ih := Py.max 0 (iy_max - iy_min) in
  let inter := iw * ih in
  if Py.le inter 0 then max_ratio else
  let union := area1 + area2 - inter in
  if Py.le union 0 then max_ratio else
  let ratio := inter / union in
  if Py.gt ratio max_ratio then ratio else max_ratio.

(** The outer loop (lines 127-154): [for i in range(n)] with
    [for j in range(i + 1, n)] visits each box together with the boxes that
    follow it. *)
Fixpoint overlap_outer (boxes : list Box) (max_ratio : Q) : Q :=
  match boxes with
  | [] => max_ratio
  | b1 :: rest =>
      let area1 := box_area b1 in
      if Py.le area1 0 then overlap_outer rest max_ratio
      else overlap_outer rest (fold_left (overlap_inner b1 area1) rest max_ratio)
  end.

(** [compute_max_overlap_ratio(boxes)], lines 116-155, in exact arithmetic. *)
Definition compute_max_overlap_ratio (boxes : list Box) : Q :=
  if (length boxes <? 2)%nat then 0 else overlap_outer boxes 0.

(** ** Reference notions for the overlap ratio *)

(** Intersection area of two boxes, by the textbook formula. *)
Definition inter_area (a b : Box) : Q :=
  Qmax 0 (Qmin (x_max a) (x_max b) - Qmax (x_min a) (x_min b)) *
  Qmax 0 (Qmin (y_max a) (y_max b) - Qmax (y_min a) (y_min b)).

(** Area of a box; zero for a box with no extent. *)
Definition area (b : Box) : Q :=
  Qmax 0 (x_max b - x_min b) * Qmax 0 (y_max b - y_min b).

(** Intersection over union. *)
Definition iou (a b : Box) : Q :=
  inter_area a b / (area a + area b - inter_area a b).

Definition positive_area (b : Box) : Prop := 0 < area b.

(** All pairs of a list: an element with each element after it. *)
Fixpoint pairs {A} (l : list A) : list (A * A) :=
  match l with
  | [] => []
  | x :: rest => map (pair x) rest ++ pairs rest
  end.

#[global] Instance positive_area_dec b : Decision (positive_area b).
Proof.
  unfold positive_area.
  destruct (Qlt_le_dec 0 (area b)); [left | right]; [assumption | lra].
Defined.

(** The IoU of every pair of boxes of positive area. *)
Definition pair_ratios (boxes : list Box) : list Q :=
  map (λ p, iou p.1 p.2)
      (filter (λ p, positive_area p.1 ∧ positive_area p.2) (pairs boxes)).

(** The greatest element of a list of ratios, [0] for the empty list. *)
Abbreviation qmax_list := (fold_right Qmax 0).

(** The greatest of them, [0] when there is none. *)
Definition max_pairwise_iou (boxes : list Box) : Q :=
  qmax_list (pair_ratios boxes).

(* ===================================================================== *)
(** * The overlap ratio as the source computes it: [numpy.float32] *)
(* ===================================================================== *)

(** The boxes [compute_max_overlap_ratio] receives are arrays of
    [numpy.float32] (line 335), so lines 128-152 compute in IEEE 754 binary32
    with rounding to nearest, ties to even: [SpecFloat] with a precision of
    24 bits and exponents below 128.  The definitions of the previous
    section are this computation in exact arithmetic; they serve where only
    the order and the sign of ratios matter.

    Python's [0.0] and [0] are not [float32].  They only meet a [float32]
    in comparisons, which are exact, and in a product one of whose factors
    is [0.0], which is a zero or NaN in any precision and is tested by
    [<= 0] right after; so computing every operation in binary32 gives the
    values the source gets.  [float(max_ratio)] converts the result to a
    double without changing its value. *)
Module Float32.

Definition prec : Z := 24.
Definition emax : Z := 128.

Abbreviation float32 := spec_float.

(** [0.0]. *)
Definition zero : float32 := S754_zero false.

Definition add (x y : float32) : float32 := SFadd prec emax x y.
Definition sub (x y : float32) : float32 := SFsub prec emax x y.
Definition mul (x y : float32) : float32 := SFmul prec emax x y.
Definition div (x y : float32) : float32 := SFdiv prec emax x y.

(** [x < y], [x <= y] and [x > y]: false when an operand is NaN. *)
Definition lt (x y : float32) : bool := SFltb x y.
Definition le (x y : float32) : bool := SFleb x y.
Definition gt (x y : float32) : bool := lt y x.

(** Python's [max(a, b)] and [min(a, b)]: the first argument unless the
    second is greater (smaller). *)
Definition max (a b : float32) : float32 := if gt b a then b else a.
Definition min (a b : float32) : float32 := if lt b a then b else a.

(** A YOLO box [[x1, y1, x2, y2]] of [float32]. *)
Record Box : Type := mkBox {
  x_min : float32;
  y_min : float32;
  x_max : float32;
  y_max : float32;
}.

(** [max(0.0, x_max - x_min) * max(0.0, y_max - y_min)], lines 129 and 134. *)
Definition box_area (b : Box) : float32 :=
  mul (max zero (sub (x_max b) (x_min b))) (max zero (sub (y_max b) (y_min b))).

(** [iw * ih], lines 138-145. *)
Definition intersection (b1 b2 : Box) : float32 :=
  let ix_min := max (x_min b1) (x_min b2) in
  let iy_min := max (y_min b1) (y_min b2) in
  let ix_max := min (x_max b1) (x_max b2) in
  let iy_max := min (y_max b1) (y_max b2) in
  let iw := max zero (sub ix_max ix_min) in
  let ih := max zero (sub iy_max iy_min) in
  mul iw ih.

(** The body of the inner loop (lines 133-154) for the box [b2 = boxes[j]],
    with [b1 = boxes[i]] and [area1] fixed by the outer loop; every [continue]
    leaves [max_ratio] as it is. *)
Definition overlap_inner (b1 : Box) (area1 : float32) (max_ratio : float32) (b2 : Box)
  : float32 :=
  let area2 := box_area b2 in
  if le area2 zero then max_ratio else
  let inter := intersection b1 b2 in
  if le inter zero then max_ratio else
  let union := sub (add area1 area2) inter in
  if le union zero then max_ratio else
  let ratio := div inter union in
  if gt ratio max_ratio then ratio else max_ratio.

(** The outer loop (lines 127-154). *)
Fixpoint overlap_outer (boxes : list Box) (max_ratio : float32) : float32 :=
  match boxes with
  | [] => max_ratio
  | b1 :: rest =>
      let area1 := box_area b1 in
      if le area1 zero then overlap_outer rest max_ratio
      else overlap_outer rest (fold_left (overlap_inner b1 area1) rest max_ratio)
  end.

(** [compute_max_overlap_ratio(boxes)], lines 116-155. *)
Definition compute_max_overlap_ratio (boxes : list Box) : float32 :=
  if (length boxes <? 2)%nat then zero else overlap_outer boxes zero.

(** ** Notions used to state what it returns *)

(** The loop passes over the box: its area as computed is [<= 0]. *)
Definition skipped (b : Box) : bool := le (box_area b) zero.








End Float32.


(* ===================================================================== *)
(** * Notions used to state how [float32] rounds *)
(* ===================================================================== *)

(** The finite [float32] are the multiples [m * 2 ** e] of [2 ** -149] with
    a mantissa [m] below [2 ** 24] and an exponent [e] from -149 to 104, in
    normal form: [m] has 24 digits unless [e] is -149.  The notions below
    count values in units of [2 ** -149] and place the non-negative
    [float32] in a row, by increasing value. *)
Section Binary32.

Local Open Scope Z_scope.

(** The number of binary digits of an integer, as [SpecFloat] counts them. *)
Definition digits (n : Z) : Z := Zdigits2 n.





(** The [float32] of sign [s] at a position; from the position
    [255 * 2 ** 23] on, infinity. *)
Definition of_ord (s : bool) (k : Z) : spec_float :=
  if k <=? 0 then S754_zero s
  else if 255 * 2 ^ 23 <=? k then S754_infinity s
  else if k <? 2 ^ 24 then S754_finite s (Z.to_pos k) (-149)
  else S754_finite s (Z.to_pos (k mod 2 ^ 23 + 2 ^ 23)) (k / 2 ^ 23 - 150).

(** A zero or a finite [float32] in normal form. *)
Definition finite32 (x : spec_float) : bool :=
  match x with
  | S754_zero _ => true
  | S754_finite _ m e => bounded 24 128 m e
  | S754_infinity _ | S754_nan => false
  end.

(** The value of a finite [float32], counted in units of [2 ** -149]. *)
Definition units (x : spec_float) : Z :=
  match x with
  | S754_finite s m e => cond_Zopp s (Zpos m * 2 ^ (e + 149))
  | _ => 0
  end.

(** The value, in the same units, of the [float32] at a position. *)
Definition units_at (k : Z) : Z :=
  if k <? 2 ^ 24 then k else (k mod 2 ^ 23 + 2 ^ 23) * 2 ^ (k / 2 ^ 23 - 1).





(** A finite [float32] above 0. *)
Definition positive32 (x : spec_float) : bool :=
  match x with
  | S754_finite false _ _ => true
  | _ => false
  end.

End Binary32.

(* ===================================================================== *)
(** * Configuration constants (main.py lines 44-59) *)
(* ===================================================================== *)

Definition CONF_THRESH : Q := 3 # 10.
Definition ACCIDENT_CONFIRM_FRAMES : Z := 3.
Definition FRAME_BUFFER_SIZE : nat := 30.
Definition ALERT_COOLDOWN_SECONDS : Q := 60.
Definition PRE_SNAPSHOT_COUNT : nat := 5.
Definition POST_CAPTURE_SECONDS : Z := 5.
Definition POST_CAPTURE_FPS : Z := 5.
Definition POST_CAPTURE_FRAMES : Z := POST_CAPTURE_SECONDS * POST_CAPTURE_FPS.
Definition VIDEO_CONFIRM_FRAMES : Z := 3.

(** The literal [maxlen=15] of ["candidate_frames"] (line 75). *)
Definition CANDIDATE_FRAMES_MAXLEN : nat := 15.

(** [FRAME_STEP = 3], local to [analyze_video] (line 602). *)
Definition FRAME_STEP : Z := 3.

(* ===================================================================== *)
(** * Per-frame scoring *)
(* ===================================================================== *)

(** One entry of [r.boxes]: the class name looked up in [r.names], the
    confidence and the box. *)
Record Detection : Type := mkDetection {
  cls_name : string;
  score : Q;
  box_xyxy : Box;
}.

Inductive Severity : Type := MINOR | MEDIUM | MAJOR | CRITICAL.

#[global] Instance Severity_eq_dec : EqDecision Severity.
Proof. solve_decision. Defined.

(** The string a severity stands for. *)
Definition severity_name (s : Severity) : string :=
  match s with
  | MINOR => "MINOR" | MEDIUM => "MEDIUM" | MAJOR => "MAJOR" | CRITICAL => "CRITICAL"
  end.

(** [severity_order = {"MINOR": 1, "MEDIUM": 2, "MAJOR": 3, "CRITICAL": 4}]
    read through [severity_order.get(severity, 1)] (lines 385-386, 605, 712). *)
Definition severity_order (s : Severity) : Z :=
  match s with
  | MINOR => 1 | MEDIUM => 2 | MAJOR => 3 | CRITICAL => 4
  end%Z.

Definition danger_class_names : gset string :=
  {[ "person"; "car"; "truck"; "motorcycle"; "bus" ]}.
Definition vehicle_classes : gset string :=
  {[ "car"; "truck"; "motorcycle"; "bus" ]}.
Definition person_classes : gset string := {[ "person" ]}.

(** The local variables the counting loop updates (lines 316-322). *)
Record Tally : Type := mkTally {
  vehicle_count : Z;
  person_count : Z;
  total_danger_detections : Z;
  primary_vehicle_type : option string;
  filtered_boxes_xyxy : list Box;
}.

Definition tally0 : Tally := mkTally 0 0 0 None [].

(** One iteration of the counting loop (lines 327-345). *)
Definition tally_step (t : Tally) (d : Detection) : Tally :=
  if Py.lt (score d) CONF_THRESH then t
  else
    let name := cls_name d in
    let is_vehicle := bool_decide (name ∈ vehicle_classes) in
    {| filtered_boxes_xyxy := filtered_boxes_xyxy t ++ [box_xyxy d];
       total_danger_detections :=
         if bool_decide (name ∈ danger_class_names)
         then (total_danger_detections t + 1)%Z else total_danger_detections t;
       vehicle_count :=
         if is_vehicle then (vehicle_count t + 1)%Z else vehicle_count t;
       primary_vehicle_type :=
         if is_vehicle
         then match primary_vehicle_type t with
              | None => Some name
              | Some v => Some v
              end
         else primary_vehicle_type t;
       person_count :=
         if bool_decide (name ∈ person_classes)
         then (person_count t + 1)%Z else person_count t |}.

(** The counting loop.  [r.boxes] being [None] or empty skips the block, which
    leaves the same values as the loop over no box. *)
Definition tally (boxes : list Detection) : Tally := fold_left tally_step boxes tally0.

(** The collision loops (lines 347-355): some box overlaps a later one. *)
Fixpoint any_pair_overlap (boxes : list Box) : bool :=
  match boxes with
  | [] => false
  | box1 :: rest =>
      if existsb (boxes_overlap box1) rest then true else any_pair_overlap rest
  end.

(** ** The live path, [detect_accident] lines 366-387 *)

Definition live_accident_detected_frame
    (collision_detected : bool) (vehicle_count person_count total_danger_detections : Z) : bool :=
  if collision_detected && (2 <=? vehicle_count)%Z then true
  else if collision_detected && (1 <=? person_count)%Z then true
  else if (1 <=? vehicle_count)%Z && (1 <=? person_count)%Z
          && (3 <=? total_danger_detections)%Z then true
  else false.

Definition live_severity
    (collision_detected : bool) (vehicle_count person_count : Z) : Severity :=
  if collision_detected && (2 <=? vehicle_count)%Z then CRITICAL
  else if collision_detected && (1 <=? person_count)%Z then MAJOR
  else if (1 <=? vehicle_count)%Z && (2 <=? person_count)%Z then MEDIUM
  else MINOR.

Definition live_victims_estimated (person_count : Z) : Z :=
  if (0 <? person_count)%Z then person_count else 1%Z.

(** ** The batch path, [analyze_video] lines 681-713 *)

Definition video_accident_detected_frame
    (collision_detected : bool) (vehicle_count person_count total_danger_detections : Z) : bool :=
  if collision_detected && (2 <=? vehicle_count)%Z then true
  else if collision_detected && (1 <=? person_count)%Z then true
  else if (1 <=? vehicle_count)%Z && (1 <=? person_count)%Z
          && (3 <=? total_danger_detections)%Z then true
  else false.

Definition video_severity
    (collision_detected : bool) (vehicle_count person_count : Z) : Severity :=
  if collision_detected && (2 <=? vehicle_count)%Z then CRITICAL
  else if collision_detected && (1 <=? person_count)%Z then MAJOR
  else if (1 <=? vehicle_count)%Z && (2 <=? person_count)%Z then MEDIUM
  else MINOR.

Definition video_victims_estimated (person_count : Z) : Z :=
  if (0 <? person_count)%Z then person_count else 1%Z.

(** ** What each path derives from the detections of one frame *)

(** The counting and collision loops of the two paths (lines 327-355 and
    649-677) are the same text: [tally] and [any_pair_overlap] stand for
    both. *)

Record FrameScore : Type := mkFrameScore {
  fs_tally : Tally;
  fs_collision_detected : bool;
  fs_max_overlap_ratio : Q;
  fs_accident_detected_frame : bool;
  fs_severity : Severity;
  fs_severity_score : Z;
  fs_victims_estimated : Z;
}.

(** Lines 311-387 of [detect_accident]. *)
Definition live_score (boxes : list Detection) : FrameScore :=
  let t := tally boxes in
  let collision_detected := any_pair_overlap (filtered_boxes_xyxy t) in
  let max_overlap_ratio := compute_max_overlap_ratio (filtered_boxes_xyxy t) in
  let severity := live_severity collision_detected (vehicle_count t) (person_count t) in
  {| fs_tally := t;
     fs_collision_detected := collision_detected;
     fs_max_overlap_ratio := max_overlap_ratio;
     fs_accident_detected_frame :=
       live_accident_detected_frame collision_detected (vehicle_count t)
         (person_count t) (total_danger_detections t);
     fs_severity := severity;
     fs_severity_score := severity_order severity;
     fs_victims_estimated := live_victims_estimated (person_count t) |}.

(** Lines 639-713 of [analyze_video]; the severity and the victim estimate are
    the values the loop computes when it gets past the confirmation test. *)
Definition video_score (boxes : list Detection) : FrameScore :=
  let t := tally boxes in
  let collision_detected := any_pair_overlap (filtered_boxes_xyxy t) in
  let max_overlap_ratio := compute_max_overlap_ratio (filtered_boxes_xyxy t) in
  let severity := video_severity collision_detected (vehicle_count t) (person_count t) in
  {| fs_tally := t;
     fs_collision_detected := collision_detected;
     fs_max_overlap_ratio := max_overlap_ratio;
     fs_accident_detected_frame :=
       video_accident_detected_frame collision_detected (vehicle_count t)
         (person_count t) (total_danger_detections t);
     fs_severity := severity;
     fs_severity_score := severity_order severity;
     fs_victims_estimated := video_victims_estimated (person_count t) |}.

(** The severity rule as the specification words it: the first matching rule
    wins. *)
Definition severity_rule (collision : bool) (vehicles persons : Z) : Severity :=
  if decide (collision = true ∧ (2 ≤ vehicles)%Z) then CRITICAL
  else if decide (collision = true ∧ (1 ≤ persons)%Z) then MAJOR
  else if decide ((1 ≤ vehicles)%Z ∧ (2 ≤ persons)%Z) then MEDIUM
  else MINOR.

(* ===================================================================== *)
(** * The HTTP backend as [detect_accident] sees it *)
(* ===================================================================== *)

(** The value found under an id key of the reply, by what
    [int(incident_id)] does with it (lines 539-544). *)
Inductive IdValue : Type :=
  | IdNull                      (* JSON null: [incident_id is None] *)
  | IdConvertible (n : Z)       (* [int(incident_id)] returns [n] *)
  | IdRejected                  (* [int(incident_id)] raises ValueError or TypeError *)
  | IdOverflow.                 (* [int(incident_id)] raises OverflowError: an infinite float *)

(** A JSON object: the three keys the caller looks for, and whether there is
    any other key. *)
Record ReplyDict : Type := mkReplyDict {
  reply_id : option IdValue;
  reply_incidentId : option IdValue;
  reply_incident_id : option IdValue;
  reply_other_keys : bool;
}.

(** A value [send_incident_to_backend] can return: [None], a dict, or
    another decoded JSON value. *)
Inductive BackendReturn : Type :=
  | ReturnedNone
  | ReturnedDict (d : ReplyDict)
  | ReturnedOther (truthy : bool).   (* a JSON list, string, number or boolean *)

(** What becomes of the request (accident_client.py lines 50-52). *)
Inductive HttpOutcome : Type :=
  | PostRaised                  (* [requests.post] raised: backend unreachable, timeout *)
  | StatusRaised                (* [resp.raise_for_status()] raised: a 4xx or 5xx response *)
  | JsonRaised                  (* [resp.json()] raised: the body is not JSON *)
  | Answered (data : BackendReturn).   (* [resp.json()] returned [data] ([None] for null) *)

(** [send_incident_to_backend(...)] (accident_client.py lines 49-57): the
    decoded body, or [None] from the [except] branch. *)
Definition send_incident_to_backend (o : HttpOutcome) : BackendReturn :=
  match o with
  | Answered data => data
  | PostRaised | StatusRaised | JsonRaised => ReturnedNone
  end.

(** The reporter call failed: the backend could not be reached, answered with
    an error status, or sent no JSON. *)
Definition reporter_failed (o : HttpOutcome) : Prop :=
  o = PostRaised \/ o = StatusRaised \/ o = JsonRaised.

(** [bool(backend_incident)] (line 527). *)
Definition reply_truthy (r : BackendReturn) : bool :=
  match r with
  | ReturnedNone => false
  | ReturnedDict d =>
      bool_decide (is_Some (reply_id d)) || bool_decide (is_Some (reply_incidentId d))
      || bool_decide (is_Some (reply_incident_id d)) || reply_other_keys d
  | ReturnedOther truthy => truthy
  end.

(** Lines 530-537: the first key present decides, also when its value is
    null. *)
Definition extract_incident_id (r : BackendReturn) : IdValue :=
  match r with
  | ReturnedDict d =>
      match reply_id d with
      | Some v => v
      | None =>
          match reply_incidentId d with
          | Some v => v
          | None =>
              match reply_incident_id d with
              | Some v => v
              | None => IdNull
              end
          end
      end
  | _ => IdNull
  end.

(** How the block of lines 527-544 ends: the values of [accidents_detected]
    and [incident_ids], and whether line 547 is reached ([completed = false]
    when an exception left the block for the handler of line 551). *)
Record ReplyOutcome : Type := mkReplyOutcome {
  completed : bool;
  out_accidents_detected : Z;
  out_incident_ids : list Z;
}.

Definition handle_reply (r : BackendReturn) : ReplyOutcome :=
  if reply_truthy r then
    match extract_incident_id r with
    | IdNull => mkReplyOutcome true 0 []
    | IdConvertible n => mkReplyOutcome true 1 [n]
    | IdRejected => mkReplyOutcome true 0 []
    | IdOverflow => mkReplyOutcome false 0 []
    end
  else mkReplyOutcome true 0 [].

(* ===================================================================== *)
(** * Live mode: the per-camera state and [detect_accident] *)
(* ===================================================================== *)

(** [VideoAnalysisResponse] (schemas.py). *)
Record Response : Type := mkResponse {
  message : string;
  accidents_detected : Z;
  incident_ids : list Z;
}.

(** [incident_tag = f"{camera_id}_{int(now_ts)}"] (line 473), kept as the
    pair it is printed from. *)
Record IncidentTag : Type := mkTag {
  tag_camera_id : string;
  tag_seconds : Z;
}.

#[global] Instance IncidentTag_eq_dec : EqDecision IncidentTag.
Proof. solve_decision. Defined.

(** [deque.append] on a [deque(maxlen=n)]: the element goes to the right end
    and, when the deque then holds more than [n], the leftmost one is
    dropped. *)
Definition deque_append {A} (maxlen : nat) (dq : list A) (x : A) : list A :=
  let dq' := dq ++ [x] in
  if (maxlen <? length dq')%nat then drop 1 dq' else dq'.

(** [l[-n:]] on a list, for [n > 0]: the last [n] elements, or all of them. *)
Definition last_n {A} (n : nat) (l : list A) : list A := drop (length l - n) l.

(** [time_since_last_alert < ALERT_COOLDOWN_SECONDS] with
    [time_since_last_alert = now_ts - last if last else 9999] (lines 417-419):
    the float [0.0] is falsy. *)
Definition in_cooldown (last_alert_time now_ts : Q) : bool :=
  let time_since_last_alert :=
    if Qeq_bool last_alert_time 0 then 9999 else now_ts - last_alert_time in
  Py.lt time_since_last_alert ALERT_COOLDOWN_SECONDS.

(** Lexicographic order on keys [(rank, overlap_ratio)]. *)
Definition lex_lt (k1 k2 : Z * Q) : Prop :=
  (k1.1 < k2.1)%Z \/ (k1.1 = k2.1 /\ k1.2 < k2.2).

Definition lex_le (k1 k2 : Z * Q) : Prop :=
  (k1.1 < k2.1)%Z \/ (k1.1 = k2.1 /\ k1.2 <= k2.2).

Section Live.

Context {Image : Type}.

(** An entry of ["candidate_frames"] (lines 397-408). *)
Record Candidate : Type := mkCandidate {
  c_severity : Severity;
  c_severity_score : Z;
  c_overlap_ratio : Q;
  c_victims_estimated : Z;
  c_person_count : Z;
  c_collision_detected : bool;
  c_primary_vehicle_type : option string;
  c_annotated_img : Image;
}.

(** The state dict of one camera (lines 71-81). *)
Record CameraState : Type := mkCameraState {
  accident_counter : Z;
  frame_buffer : list Image;
  candidate_frames : list Candidate;
  last_alert_time : Q;
  post_capture_remaining : Z;
  post_capture_counter : Z;
  current_incident_tag : option IncidentTag;
}.

(** The dict [get_camera_state] creates for a camera it has not seen. *)
Definition initial_state : CameraState :=
  {| accident_counter := 0;
     frame_buffer := [];
     candidate_frames := [];
     last_alert_time := 0;
     post_capture_remaining := 0;
     post_capture_counter := 0;
     current_incident_tag := None |}.

(** What the outside world contributes to one call of [detect_accident]. *)
Record FrameInput : Type := mkFrameInput {
  decoded : option Image;            (* [cv2.imdecode]; [None]: undecodable *)
  detections : list Detection;       (* [r.boxes] of [model.predict] *)
  plotted : option Image;            (* [r.plot()]; [None]: it raised *)
  now_ts : Q;                        (* [time.time()] *)
  post_write_ok : bool;              (* the [cv2.imwrite] of line 297 did not raise *)
  pre_write_raises : option nat;     (* the index at which line 485 raised *)
  main_write_ok : bool;              (* the [cv2.imwrite] of line 495 did not raise *)
  main_uuid : string;                (* [uuid.uuid4()] of line 493 *)
  http : HttpOutcome;                (* the request of [send_incident_to_backend] *)
}.

(** [backend_incident], the value line 514 gets. *)
Definition backend (inp : FrameInput) : BackendReturn :=
  send_incident_to_backend (http inp).

(** The frame the report is built from (lines 444-461). *)
Record BestFrame : Type := mkBestFrame {
  best_severity : Severity;
  best_victims : Z;
  best_collision : bool;
  best_person_count : Z;
  best_vehicle_type : option string;
  annotated_img_final : Image;
}.

(** What a call leaves outside the state dict: the files written (each
    event is a call of [cv2.imwrite] that returned) and the request sent.
    [BackendSend] stands for the call of line 514; the injury report it
    carries is a function of the [BestFrame]. *)
Inductive Event : Type :=
  | PostSnapshot (tag : IncidentTag) (post_idx : Z) (img : Image)
  | PreSnapshot (tag : IncidentTag) (idx : nat) (img : Image)
  | MainSnapshot (tag : IncidentTag) (uuid : string) (img : Image)
  | BackendSend (camera_id : string) (best : BestFrame)
                (snapshot_url : option (IncidentTag * string)).

Definition is_report (e : Event) : bool :=
  match e with BackendSend _ _ _ => true | _ => false end.

(** The number of incidents handed to the backend. *)
Definition count_reports (evs : list Event) : nat := length (filter is_report evs).

(** The files written as post-accident evidence, in the order written. *)
Definition post_snapshots (evs : list Event) : list (IncidentTag * Z * Image) :=
  omap (λ e, match e with PostSnapshot t i img => Some (t, i, img) | _ => None end) evs.

(** Lines 291-303. *)
Definition post_capture (st : CameraState) (img : Image) (write_ok : bool)
  : CameraState * list Event :=
  match current_incident_tag st with
  | Some tag =>
      if (0 <? post_capture_remaining st)%Z && write_ok then
        ({| accident_counter := accident_counter st;
            frame_buffer := frame_buffer st;
            candidate_frames := candidate_frames st;
            last_alert_time := last_alert_time st;
            post_capture_remaining := post_capture_remaining st - 1;
            post_capture_counter := post_capture_counter st + 1;
            current_incident_tag := current_incident_tag st |},
         [PostSnapshot tag (post_capture_counter st) img])
      else (st, [])
  | None => (st, [])
  end.

(** The entry appended at lines 397-408. *)
Definition candidate_of (sc : FrameScore) (annotated_img : Image) : Candidate :=
  {| c_severity := fs_severity sc;
     c_severity_score := fs_severity_score sc;
     c_overlap_ratio := fs_max_overlap_ratio sc;
     c_victims_estimated := fs_victims_estimated sc;
     c_person_count := person_count (fs_tally sc);
     c_collision_detected := fs_collision_detected sc;
     c_primary_vehicle_type := primary_vehicle_type (fs_tally sc);
     c_annotated_img := annotated_img |}.

(** [r.plot()] with its fallback [img.copy()] (lines 391-395, 446-449). *)
Definition annotate (img : Image) (plotted : option Image) : Image :=
  default img plotted.

(** Lines 389-411. *)
Definition accumulate (st : CameraState) (sc : FrameScore) (annotated_img : Image)
  : CameraState :=
  if fs_accident_detected_frame sc then
    {| accident_counter := accident_counter st + 1;
       frame_buffer := frame_buffer st;
       candidate_frames :=
         deque_append CANDIDATE_FRAMES_MAXLEN (candidate_frames st)
           (candidate_of sc annotated_img);
       last_alert_time := last_alert_time st;
       post_capture_remaining := post_capture_remaining st;
       post_capture_counter := post_capture_counter st;
       current_incident_tag := current_incident_tag st |}
  else
    {| accident_counter := 0;
       frame_buffer := frame_buffer st;
       candidate_frames := candidate_frames st;
       last_alert_time := last_alert_time st;
       post_capture_remaining := post_capture_remaining st;
       post_capture_counter := post_capture_counter st;
       current_incident_tag := current_incident_tag st |}.

(** The comparison of the keys [(f["severity_score"], f["overlap_ratio"])]
    by [>] on tuples: the first components decide unless they are equal. *)
Definition key_gt (a b : Candidate) : bool :=
  if (c_severity_score a =? c_severity_score b)%Z
  then Py.gt (c_overlap_ratio a) (c_overlap_ratio b)
  else (c_severity_score b <? c_severity_score a)%Z.

(** [max(candidate_frames, key=...)] (lines 439-442): the builtin keeps the
    first item and replaces it by a later one only when that one's key is
    strictly greater.  [None] stands for the empty deque, on which line 438
    skips the call. *)
Definition max_by_key (pool : list Candidate) : option Candidate :=
  match pool with
  | [] => None
  | c :: rest => Some (fold_left (λ best x, if key_gt x best then x else best) rest c)
  end.

(** The key of the specification's Candidate Selector: the rank of the
    severity, then the overlap ratio. *)
Definition candidate_key (c : Candidate) : Z * Q :=
  (severity_order (c_severity c), c_overlap_ratio c).

(** The stored ["severity_score"] is the rank of the stored ["severity"], as
    in every entry line 397 builds. *)
Definition rank_stored (c : Candidate) : Prop :=
  c_severity_score c = severity_order (c_severity c).

(** What [max] has in hand after the items [seen]: an item of [seen], at
    least as great as all of them and strictly greater than those before
    it. *)
Definition first_maximum (seen : list Candidate) (best : Candidate) : Prop :=
  exists i, seen !! i = Some best
    /\ (forall j c, seen !! j = Some c -> lex_le (candidate_key c) (candidate_key best))
    /\ (forall j c, (j < i)%nat -> seen !! j = Some c ->
          lex_lt (candidate_key c) (candidate_key best)).

(** Lines 444-461. *)
Definition choose_best (pool : list Candidate) (sc : FrameScore) (img : Image)
    (plotted : option Image) : BestFrame :=
  match max_by_key pool with
  | None =>
      {| best_severity := fs_severity sc;
         best_victims := fs_victims_estimated sc;
         best_collision := fs_collision_detected sc;
         best_person_count := person_count (fs_tally sc);
         best_vehicle_type := primary_vehicle_type (fs_tally sc);
         annotated_img_final := annotate img plotted |}
  | Some best_frame_data =>
      {| best_severity := c_severity best_frame_data;
         best_victims := c_victims_estimated best_frame_data;
         best_collision := c_collision_detected best_frame_data;
         best_person_count := c_person_count best_frame_data;
         best_vehicle_type := c_primary_vehicle_type best_frame_data;
         annotated_img_final := c_annotated_img best_frame_data |}
  end.

(** Lines 480-489: the last [PRE_SNAPSHOT_COUNT] raw frames are written in
    order, up to the first write that raises. *)
Definition pre_snapshots (tag : IncidentTag) (frame_buffer : list Image)
    (raises_at : option nat) : list Event :=
  let pre_frames := last_n PRE_SNAPSHOT_COUNT frame_buffer in
  let written := match raises_at with
                 | Some k => take k pre_frames
                 | None => pre_frames
                 end in
  imap (λ idx pre_img, PreSnapshot tag idx pre_img) written.

(** Lines 436-558: the confirmed, not suppressed case. *)
Definition finalize (camera_id : string) (st : CameraState) (sc : FrameScore)
    (img : Image) (inp : FrameInput) : CameraState * Response * list Event :=
  let best := choose_best (candidate_frames st) sc img (plotted inp) in
  let incident_tag := mkTag camera_id (Py.int (now_ts inp)) in
  let pre_events := pre_snapshots incident_tag (frame_buffer st) (pre_write_raises inp) in
  let main_events :=
    if main_write_ok inp
    then [MainSnapshot incident_tag (main_uuid inp) (annotated_img_final best)]
    else [] in
  let snapshot_url :=
    if main_write_ok inp then Some (incident_tag, main_uuid inp) else None in
  let out := handle_reply (backend inp) in
  let st' :=
    if completed out then
      {| accident_counter := 0;
         frame_buffer := frame_buffer st;
         candidate_frames := [];
         last_alert_time := now_ts inp;
         post_capture_remaining := POST_CAPTURE_FRAMES;
         post_capture_counter := 0;
         current_incident_tag := Some incident_tag |}
    else
      {| accident_counter := accident_counter st;
         frame_buffer := frame_buffer st;
         candidate_frames := candidate_frames st;
         last_alert_time := last_alert_time st;
         post_capture_remaining := POST_CAPTURE_FRAMES;
         post_capture_counter := 0;
         current_incident_tag := Some incident_tag |} in
  (st',
   {| message := "Live accident confirmed. Severity=" +:+ severity_name (best_severity best) +:+ ".";
      accidents_detected := out_accidents_detected out;
      incident_ids := out_incident_ids out |},
   pre_events ++ main_events ++ [BackendSend camera_id best snapshot_url]).

(** Lines 288-558 of [detect_accident], once the frame is decoded. *)
Definition on_frame (camera_id : string) (st : CameraState) (img : Image)
    (inp : FrameInput) : CameraState * Response * list Event :=
  let st1 :=
    {| accident_counter := accident_counter st;
       frame_buffer := deque_append FRAME_BUFFER_SIZE (frame_buffer st) img;
       candidate_frames := candidate_frames st;
       last_alert_time := last_alert_time st;
       post_capture_remaining := post_capture_remaining st;
       post_capture_counter := post_capture_counter st;
       current_incident_tag := current_incident_tag st |} in
  let '(st2, post_events) := post_capture st1 img (post_write_ok inp) in
  let sc := live_score (detections inp) in
  let st3 := accumulate st2 sc (annotate img (plotted inp)) in
  let final_decision := (ACCIDENT_CONFIRM_FRAMES <=? accident_counter st3)%Z in
  if negb final_decision then
    (st3,
     {| message := "No accident detected (temporal-smoothed).";
        accidents_detected := 0; incident_ids := [] |},
     post_events)
  else if in_cooldown (last_alert_time st3) (now_ts inp) then
    (st3,
     {| message := "Accident already reported recently (cooldown active).";
        accidents_detected := 0; incident_ids := [] |},
     post_events)
  else
    let '(st4, response, events) := finalize camera_id st3 sc img inp in
    (st4, response, post_events ++ events).

(** One call of [detect_accident] as one camera's state sees it: an
    undecodable frame returns at line 281, before the state is looked up. *)
Definition live_step (camera_id : string) (st : CameraState) (inp : FrameInput)
  : CameraState * Response * list Event :=
  match decoded inp with
  | None =>
      (st, {| message := "Could not decode frame.";
              accidents_detected := 0; incident_ids := [] |}, [])
  | Some img => on_frame camera_id st img inp
  end.

(** A camera's frames processed in arrival order: the final state, the
    responses and the events, oldest first. *)
Fixpoint run (camera_id : string) (st : CameraState) (inps : list FrameInput)
  : CameraState * list Response * list Event :=
  match inps with
  | [] => (st, [], [])
  | inp :: rest =>
      let '(st1, response, events) := live_step camera_id st inp in
      let '(st2, responses, events') := run camera_id st1 rest in
      (st2, response :: responses, events ++ events')
  end.

(** [get_camera_state(camera_id)] on the module-level dict [camera_states]
    (lines 65-82): the state found or created, and the dict afterwards. *)
Definition get_camera_state (camera_id : string)
    (camera_states : gmap string CameraState)
  : CameraState * gmap string CameraState :=
  match camera_states !! camera_id with
  | Some st => (st, camera_states)
  | None => (initial_state, <[camera_id := initial_state]> camera_states)
  end.

(** [detect_accident(frame, camera_id)] (lines 258-558) on the dict of all
    cameras.  The state dict is mutated in place, so the dict maps the camera
    to the state the call ends in. *)
Definition detect_accident (camera_id : string) (inp : FrameInput)
    (camera_states : gmap string CameraState)
  : gmap string CameraState * Response * list Event :=
  match decoded inp with
  | None =>
      (camera_states,
       {| message := "Could not decode frame.";
          accidents_detected := 0; incident_ids := [] |}, [])
  | Some img =>
      let '(st, camera_states1) := get_camera_state camera_id camera_states in
      let '(st', response, events) := on_frame camera_id st img inp in
      (<[camera_id := st']> camera_states1, response, events)
  end.

(** The state a camera is in, whether or not the dict has it yet. *)
Definition state_of (camera_id : string) (camera_states : gmap string CameraState)
  : CameraState :=
  default initial_state (camera_states !! camera_id).

End Live.

Arguments Candidate : clear implicits.
Arguments CameraState : clear implicits.
Arguments FrameInput : clear implicits.
Arguments BestFrame : clear implicits.
Arguments Event : clear implicits.

(* ===================================================================== *)
(** * Notions used to state the properties of live mode *)
(* ===================================================================== *)

Section LiveNotions.

Context {Image : Type}.

(** The single-frame accident decision on the detections of a call. *)
Definition frame_flagged (inp : FrameInput Image) : bool :=
  fs_accident_detected_frame (live_score (detections inp)).

(** A frame that decodes and is flagged as an accident frame. *)
Definition flagged_frame (inp : FrameInput Image) : Prop :=
  is_Some (decoded inp) /\ frame_flagged inp = true.

(** A frame that does not decode, or is not flagged. *)
Definition clear_frame (inp : FrameInput Image) : Prop :=
  decoded inp = None \/ frame_flagged inp = false.

(** The entry a flagged frame adds to ["candidate_frames"]. *)
Definition frame_candidate (img : Image) (inp : FrameInput Image) : Candidate Image :=
  candidate_of (live_score (detections inp)) (annotate img (plotted inp)).

(** The frame takes the streak to the confirmation threshold. *)
Definition reaches_threshold (st : CameraState Image) (inp : FrameInput Image) : bool :=
  frame_flagged inp && (ACCIDENT_CONFIRM_FRAMES <=? accident_counter st + 1)%Z.

(** The frame confirms an incident that is not suppressed: the call goes on
    to line 436. *)
Definition confirms (st : CameraState Image) (inp : FrameInput Image) : bool :=
  reaches_threshold st inp && negb (in_cooldown (last_alert_time st) (now_ts inp)).

(** The call writes the frame as post-accident evidence. *)
Definition saves_post (st : CameraState Image) (inp : FrameInput Image) : bool :=
  bool_decide (is_Some (current_incident_tag st))
  && (0 <? post_capture_remaining st)%Z && post_write_ok inp.

(** The frame a confirming call reports: the selector's choice in the pool
    as it stands once the frame's own entry is in. *)
Definition reported_best (st : CameraState Image) (img : Image) (inp : FrameInput Image)
  : BestFrame Image :=
  choose_best
    (deque_append CANDIDATE_FRAMES_MAXLEN (candidate_frames st) (frame_candidate img inp))
    (live_score (detections inp)) img (plotted inp).

(** The response a call on a decoded frame returns. *)
Definition response_of (st : CameraState Image) (img : Image) (inp : FrameInput Image)
  : Response :=
  if confirms st inp then
    {| message := "Live accident confirmed. Severity="
                  +:+ severity_name (best_severity (reported_best st img inp)) +:+ ".";
       accidents_detected := out_accidents_detected (handle_reply (backend inp));
       incident_ids := out_incident_ids (handle_reply (backend inp)) |}
  else if reaches_threshold st inp then
    {| message := "Accident already reported recently (cooldown active).";
       accidents_detected := 0; incident_ids := [] |}
  else
    {| message := "No accident detected (temporal-smoothed).";
       accidents_detected := 0; incident_ids := [] |}.

Definition step_state (camera_id : string) (st : CameraState Image)
    (inp : FrameInput Image) : CameraState Image :=
  (live_step camera_id st inp).1.1.

Definition step_response (camera_id : string) (st : CameraState Image)
    (inp : FrameInput Image) : Response :=
  (live_step camera_id st inp).1.2.

Definition step_events (camera_id : string) (st : CameraState Image)
    (inp : FrameInput Image) : list (Event Image) :=
  (live_step camera_id st inp).2.

Definition run_state (camera_id : string) (st : CameraState Image)
    (inps : list (FrameInput Image)) : CameraState Image :=
  (run camera_id st inps).1.1.

Definition run_events (camera_id : string) (st : CameraState Image)
    (inps : list (FrameInput Image)) : list (Event Image) :=
  (run camera_id st inps).2.

(** The entries the flagged frames among [inps] add to the pool, in arrival
    order. *)
Definition flagged_candidates (inps : list (FrameInput Image)) : list (Candidate Image) :=
  omap (fun inp =>
          match decoded inp with
          | Some img => if frame_flagged inp then Some (frame_candidate img inp) else None
          | None => None
          end) inps.

(** The images of the frames among [inps] that can be written as evidence:
    those that decode and whose write does not raise, in arrival order. *)
Definition persistable (inps : list (FrameInput Image)) : list Image :=
  omap (fun inp => if post_write_ok inp then decoded inp else None) inps.

(** The post-accident files that carry a given tag. *)
Definition post_snapshots_of (tag : IncidentTag) (evs : list (Event Image))
  : list (Z * Image) :=
  omap (fun e => match e with
                 | PostSnapshot t i img =>
                     if bool_decide (t = tag) then Some (i, img) else None
                 | _ => None
                 end) evs.

End LiveNotions.

(* ===================================================================== *)
(** * Several cameras on one service *)
(* ===================================================================== *)

Section Service.

Context {Image : Type}.

(** The calls of [detect_accident] the service receives, each with its
    [camera_id], processed one after the other on the dict [camera_states];
    every event is logged with the camera of the call that caused it. *)
Fixpoint serve (camera_states : gmap string (CameraState Image))
    (calls : list (string * FrameInput Image))
  : gmap string (CameraState Image) * list (string * Event Image) :=
  match calls with
  | [] => (camera_states, [])
  | (camera_id, inp) :: rest =>
      let '(camera_states1, _, events) := detect_accident camera_id inp camera_states in
      let '(camera_states2, log) := serve camera_states1 rest in
      (camera_states2, map (pair camera_id) events ++ log)
  end.

(** The frames of one camera among the calls, in arrival order. *)
Definition calls_of (camera_id : string) (calls : list (string * FrameInput Image))
  : list (FrameInput Image) :=
  omap (fun call => if decide (call.1 = camera_id) then Some call.2 else None) calls.

(** The events of one camera in the log. *)
Definition events_of (camera_id : string) (log : list (string * Event Image))
  : list (Event Image) :=
  omap (fun entry => if decide (entry.1 = camera_id) then Some entry.2 else None) log.

End Service.

(* ===================================================================== *)
(** * Batch mode: the first pass of [analyze_video] *)
(* ===================================================================== *)

Section Batch.

Context {Image : Type}.

(** The local variables of the first pass (lines 603-623). *)
Record Pass1 : Type := mkPass1 {
  frame_index : Z;
  video_accident_counter : Z;
  accident_frames_total : Z;
  v_best_severity : Severity;
  v_best_severity_score : Z;
  v_best_overlap_ratio : Q;
  v_best_victims : Z;
  v_best_person_count : Z;
  v_best_collision : bool;
  v_best_vehicle_type : option string;
  v_best_annotated_frame : option Image;
  v_best_frame_index : option Z;
}.

Definition pass1_start : Pass1 :=
  {| frame_index := 0;
     video_accident_counter := 0;
     accident_frames_total := 0;
     v_best_severity := MINOR;
     v_best_severity_score := 0;
     v_best_overlap_ratio := 0;
     v_best_victims := 0;
     v_best_person_count := 0;
     v_best_collision := false;
     v_best_vehicle_type := None;
     v_best_annotated_frame := None;
     v_best_frame_index := None |}.

(** One frame read by [cap.read()]: what the detector finds in it and what
    [r.plot()] gives ([None]: it raised). *)
Record VideoFrame : Type := mkVideoFrame {
  vf_detections : list Detection;
  vf_plotted : option Image;
}.

(** One iteration of the loop of lines 625-736. *)
Definition pass1_step (p : Pass1) (fr : VideoFrame) : Pass1 :=
  let frame_index' := (frame_index p + 1)%Z in
  let skipped counter total :=
    {| frame_index := frame_index';
       video_accident_counter := counter;
       accident_frames_total := total;
       v_best_severity := v_best_severity p;
       v_best_severity_score := v_best_severity_score p;
       v_best_overlap_ratio := v_best_overlap_ratio p;
       v_best_victims := v_best_victims p;
       v_best_person_count := v_best_person_count p;
       v_best_collision := v_best_collision p;
       v_best_vehicle_type := v_best_vehicle_type p;
       v_best_annotated_frame := v_best_annotated_frame p;
       v_best_frame_index := v_best_frame_index p |} in
  if negb (frame_index' `mod` FRAME_STEP =? 0)%Z
  then skipped (video_accident_counter p) (accident_frames_total p)
  else
    let sc := video_score (vf_detections fr) in
    let counter :=
      if fs_accident_detected_frame sc then (video_accident_counter p + 1)%Z else 0%Z in
    if (counter <? VIDEO_CONFIRM_FRAMES)%Z
    then skipped counter (accident_frames_total p)
    else
      let total := (accident_frames_total p + 1)%Z in
      let is_better :=
        if (v_best_severity_score p <? fs_severity_score sc)%Z then true
        else (fs_severity_score sc =? v_best_severity_score p)%Z
             && Py.gt (fs_max_overlap_ratio sc) (v_best_overlap_ratio p) in
      if is_better then
        {| frame_index := frame_index';
           video_accident_counter := counter;
           accident_frames_total := total;
           v_best_severity := fs_severity sc;
           v_best_severity_score := fs_severity_score sc;
           v_best_overlap_ratio := fs_max_overlap_ratio sc;
           v_best_victims := fs_victims_estimated sc;
           v_best_person_count := person_count (fs_tally sc);
           v_best_collision := fs_collision_detected sc;
           v_best_vehicle_type := primary_vehicle_type (fs_tally sc);
           v_best_annotated_frame := vf_plotted fr;
           v_best_frame_index := Some frame_index' |}
      else skipped counter total.

(** The whole first pass. *)
Definition pass1 (frames : list VideoFrame) : Pass1 :=
  fold_left pass1_step frames pass1_start.

End Batch.

Arguments Pass1 : clear implicits.
Arguments VideoFrame : clear implicits.

(* ===================================================================== *)
(** * Sample inputs *)
(* ===================================================================== *)

Module Sample.

(** A car and a person whose boxes overlap: an accident-flagged frame of
    severity MAJOR. *)
Definition car : Detection := mkDetection "car" (9 # 10) (mkBox 0 0 4 4).
Definition person : Detection := mkDetection "person" (8 # 10) (mkBox 2 2 6 6).

(** A call whose frame decodes to the image [id], with images as numbers:
    every write succeeds and [r.plot()] returns the image [1000 + id]. *)
Definition call (id : nat) (boxes : list Detection) (t : Q) (reply : HttpOutcome)
  : FrameInput nat :=
  {| decoded := Some id;
     detections := boxes;
     plotted := Some (1000 + id)%nat;
     now_ts := t;
     post_write_ok := true;
     pre_write_raises := None;
     main_write_ok := true;
     main_uuid := "0f8fad5b";
     http := reply |}.

(** The backend's usual answer: the stored incident with its ["id"]. *)
Definition stored (n : Z) : HttpOutcome :=
  Answered (ReturnedDict (mkReplyDict (Some (IdConvertible n)) None None true)).

(** A flagged frame at time [t], and a frame with no detection at time [t]. *)
Definition hit (id : nat) (t : Q) : FrameInput nat := call id [car; person] t (stored 7).
Definition miss (id : nat) (t : Q) : FrameInput nat := call id [] t (stored 7).

(** [n] flagged frames, [gap] seconds apart, the first at time [t] with
    image [id]. *)
Fixpoint hits (n : nat) (id : nat) (t gap : Q) : list (FrameInput nat) :=
  match n with
  | O => []
  | S n' => hit id t :: hits n' (S id) (t + gap) gap
  end.

Definition cam : string := "LIVE_CAM_1".

End Sample.

(* ===================================================================== *)
(** * Notions used to state the properties of the counting loop *)
(* ===================================================================== *)

(** The detections the counting loop keeps: those whose confidence is not
    below [CONF_THRESH], in order. *)
Definition kept (boxes : list Detection) : list Detection :=
  List.filter (fun d => negb (Py.lt (score d) CONF_THRESH)) boxes.

Definition is_vehicle (d : Detection) : bool :=
  bool_decide (cls_name d ∈ vehicle_classes).

Definition is_person (d : Detection) : bool :=
  bool_decide (cls_name d ∈ person_classes).

Definition is_danger (d : Detection) : bool :=
  bool_decide (cls_name d ∈ danger_class_names).

(** The number of elements of a list that pass a test, as a Python [int]. *)
Definition count_of {A} (test : A -> bool) (l : list A) : Z :=
  Z.of_nat (length (List.filter test l)).

(* ===================================================================== *)
(** * The injury report: [build_expected_injury_report] *)
(* ===================================================================== *)

(** [sep.join(parts)]. *)
Fixpoint join (sep : string) (parts : list string) : string :=
  match parts with
  | [] => ""
  | [part] => part
  | part :: rest => part +:+ sep +:+ join sep rest
  end.

(** [str(n)] on an [int]: decimal digits, with a minus sign when negative. *)
Definition py_str (n : Z) : string := pretty n.

(** [x or fallback] on strings: the empty string is falsy. *)
Definition str_or (x fallback : string) : string :=
  match x with
  | EmptyString => fallback
  | _ => x
  end.

(** An entry of ["estimatedInjuries"]. *)
Record Injury : Type := mkInjury {
  region : string;
  risk : string;
}.

(** ["victimInfo"]. *)
Record VictimInfo : Type := mkVictimInfo {
  estimatedVictims : Z;
  posture : string;
}.

(** The dict [build_expected_injury_report] returns (main.py lines 173-183),
    one field per key. *)
Record InjuryReport : Type := mkInjuryReport {
  priorityLevel : string;
  mechanismOfInjury : string;
  estimatedInjuries : list Injury;
  victimInfo : VictimInfo;
  recommendedPreparation : list string;
  summaryForDoctors : string;
}.

(** Lines 186-193. *)
Definition priority_of (severity : string) : string :=
  if String.eqb severity "CRITICAL" then "CRITICAL"
  else if String.eqb severity "MAJOR" then "HIGH"
  else if String.eqb severity "MEDIUM" then "MODERATE"
  else "LOW".

(** Lines 196-202: [if vehicle_type:] is false for [None] and for the empty
    string. *)
Definition mech_parts (vehicle_type : option string) (collision_detected : bool)
    (person_count : Z) : list string :=
  (if collision_detected then ["collision detected"] else [])
  ++ match vehicle_type with
     | Some EmptyString | None => []
     | Some v => ["involving a " +:+ v]
     end
  ++ (if (0 <? person_count)%Z then [py_str person_count +:+ " person(s) in scene"] else []).

(** Lines 207-221. *)
Definition injuries_of (severity : string) (victim_count : Z) : list Injury :=
  (if String.eqb severity "MAJOR" || String.eqb severity "CRITICAL" then
     [mkInjury "Head/Neck" "HIGH"; mkInjury "Chest" "MEDIUM"; mkInjury "Limbs" "MEDIUM"]
   else if String.eqb severity "MEDIUM" then
     [mkInjury "Head/Neck" "MEDIUM"; mkInjury "Limbs" "MEDIUM"]
   else
     [mkInjury "Head/Neck" "LOW"; mkInjury "Limbs" "LOW"])
  ++ (if (2 <=? victim_count)%Z then [mkInjury "Pelvis/Spine" "MEDIUM"] else []).

(** Lines 226-238. *)
Definition preparation_of (priority : string) : list string :=
  if String.eqb priority "HIGH" || String.eqb priority "CRITICAL" then
    ["Activate trauma team"; "Prepare CT scan and X-ray";
     "Prepare IV fluids and blood units"]
  else if String.eqb priority "MODERATE" then ["Prepare emergency doctor and X-ray"]
  else ["Basic emergency assessment"].

(** Line 243: the regions whose risk is HIGH or MEDIUM. *)
Definition at_risk_regions (injuries : list Injury) : list string :=
  map region
      (List.filter (fun i => String.eqb (risk i) "HIGH" || String.eqb (risk i) "MEDIUM")
         injuries).

(** [build_expected_injury_report(severity, vehicle_type, victim_count,
    collision_detected, person_count)], lines 161-252. *)
Definition build_expected_injury_report (severity : string)
    (vehicle_type : option string) (victim_count : Z) (collision_detected : bool)
    (person_count : Z) : InjuryReport :=
  let priority := priority_of severity in
  let mechanism :=
    str_or (join ", " (mech_parts vehicle_type collision_detected person_count))
      "Road traffic accident" in
  let injuries := injuries_of severity victim_count in
  let prep := preparation_of priority in
  let regions := at_risk_regions injuries in
  let regions_text :=
    match regions with
    | [] => "no major regions identified"
    | _ => join ", " regions
    end in
  {| priorityLevel := priority;
     mechanismOfInjury := mechanism;
     estimatedInjuries := injuries;
     victimInfo := {| estimatedVictims := victim_count; posture := "unknown" |};
     recommendedPreparation := prep;
     summaryForDoctors :=
       mechanism +:+ " with " +:+ py_str victim_count +:+ " victim(s). "
       +:+ "Estimated increased risk of injuries to: " +:+ regions_text +:+ ". "
       +:+ "Recommended: " +:+ join ", " prep +:+ "." |}.

(** The report [detect_accident] builds for the frame it reports (lines
    464-470). *)
Definition injury_report_of {Image} (best : BestFrame Image) : InjuryReport :=
  build_expected_injury_report (severity_name (best_severity best))
    (best_vehicle_type best) (best_victims best) (best_collision best)
    (best_person_count best).

(* ===================================================================== *)
(** * Notions used to state what holds in every state of live mode *)
(* ===================================================================== *)

Section LiveInvariants.

Context {Image : Type}.

(** What holds of the state dict of camera [camera_id] whenever a call
    starts: the streak counter is not negative and a running streak has left
    an entry in the pool; the raw-frame buffer is within its capacity; the
    post-capture countdown and numbering are both 0 until a first incident is
    tagged, and afterwards are not negative and add up to
    [POST_CAPTURE_FRAMES]. *)
Definition state_ok (camera_id : string) (st : CameraState Image) : Prop :=
  (0 <= accident_counter st)%Z
  /\ (length (frame_buffer st) <= FRAME_BUFFER_SIZE)%nat
  /\ ((0 < accident_counter st)%Z -> candidate_frames st <> [])
  /\ match current_incident_tag st with
     | None => post_capture_remaining st = 0%Z /\ post_capture_counter st = 0%Z
     | Some tag =>
         tag_camera_id tag = camera_id
         /\ (0 <= post_capture_remaining st)%Z
         /\ (0 <= post_capture_counter st)%Z
         /\ (post_capture_remaining st + post_capture_counter st
             = POST_CAPTURE_FRAMES)%Z
     end.

(** The [BestFrame] read off an entry of the pool (lines 456-461). *)
Definition best_of (c : Candidate Image) : BestFrame Image :=
  {| best_severity := c_severity c;
     best_victims := c_victims_estimated c;
     best_collision := c_collision_detected c;
     best_person_count := c_person_count c;
     best_vehicle_type := c_primary_vehicle_type c;
     annotated_img_final := c_annotated_img c |}.

(** The entry comes from a flagged frame among [inps]. *)
Definition from_stream (inps : list (FrameInput Image)) (c : Candidate Image) : Prop :=
  exists inp img,
    In inp inps /\ decoded inp = Some img /\ frame_flagged inp = true
    /\ c = frame_candidate img inp.

(** The requests made to the backend, in order. *)
Definition reports (evs : list (Event Image))
  : list (string * BestFrame Image * option (IncidentTag * string)) :=
  omap (fun e => match e with
                 | BackendSend camera_id best url => Some (camera_id, best, url)
                 | _ => None
                 end) evs.

(** The pre-accident files written, in order. *)
Definition pre_snapshot_files (evs : list (Event Image)) : list (IncidentTag * nat * Image) :=
  omap (fun e => match e with
                 | PreSnapshot tag idx img => Some (tag, idx, img)
                 | _ => None
                 end) evs.

(** The cameras that sent at least one frame that decodes. *)
Definition decodable_cameras (calls : list (string * FrameInput Image)) : gset string :=
  list_to_set
    (omap (fun call => match decoded call.2 with
                       | Some _ => Some call.1
                       | None => None
                       end) calls).

End LiveInvariants.

(* ===================================================================== *)
(** * Batch mode: the second pass and [analyze_video] as a whole *)
(* ===================================================================== *)

Section Video.

Context {Image : Type}.

(** A frame of the saved file.  The file is read twice, by the first pass
    for detection and by the second for the snapshots; both reads are taken
    to return the same frames. *)
Record ClipFrame : Type := mkClipFrame {
  cf_image : Image;                (* [frame] of [cap.read()] *)
  cf_frame : VideoFrame Image;     (* what the first pass gets from the detector *)
  cf_write_ok : bool;              (* [cv2.imwrite] of the raw frame (lines 797, 819)
                                      does not raise *)
}.

(** The local variables of the second pass (lines 779-783). *)
Record Pass2 : Type := mkPass2 {
  p2_frame_index : Z;
  pre_saved : Z;
  post_saved : Z;
  main_saved : bool;
  snapshot_url : option (IncidentTag * string);
}.

Definition pass2_start : Pass2 :=
  {| p2_frame_index := 0;
     pre_saved := 0;
     post_saved := 0;
     main_saved := false;
     snapshot_url := None |}.

(** What [analyze_video] leaves outside: the files written, named
    [video_accident_pre_{tag}_{n}.jpg], [video_accident_main_{tag}_{uuid}.jpg]
    and [video_accident_post_{tag}_{n}.jpg], and the request of line 840. *)
Inductive VideoEvent : Type :=
  | VideoPre (tag : IncidentTag) (idx : Z) (img : Image)
  | VideoMain (tag : IncidentTag) (uuid : string) (img : Image)
  | VideoPost (tag : IncidentTag) (idx : Z) (img : Image)
  | VideoSend (severity : Severity) (victims : Z) (likely_injuries : InjuryReport)
              (url : option (IncidentTag * string)).

(** One iteration of the loop of lines 785-826, up to the test of line
    825. *)
Definition pass2_step (incident_tag : IncidentTag) (best_frame_index : Z)
    (best_annotated_frame : option Image) (main_write_ok : bool) (uuid : string)
    (p : Pass2) (fr : ClipFrame) : Pass2 * list VideoEvent :=
  let pre_start_index := Z.max 1 (best_frame_index - Z.of_nat PRE_SNAPSHOT_COUNT) in
  let pre_end_index := (best_frame_index - 1)%Z in
  let post_end_index := (best_frame_index + POST_CAPTURE_FRAMES)%Z in
  let frame_index := (p2_frame_index p + 1)%Z in
  let save_pre :=
    (pre_start_index <=? frame_index)%Z && (frame_index <=? pre_end_index)%Z
    && (pre_saved p <? Z.of_nat PRE_SNAPSHOT_COUNT)%Z && cf_write_ok fr in
  let save_main :=
    if (frame_index =? best_frame_index)%Z && negb (main_saved p) && main_write_ok
    then best_annotated_frame else None in
  let save_post :=
    (best_frame_index <? frame_index)%Z && (frame_index <=? post_end_index)%Z
    && (post_saved p <? POST_CAPTURE_FRAMES)%Z && cf_write_ok fr in
  ({| p2_frame_index := frame_index;
      pre_saved := if save_pre then pre_saved p + 1 else pre_saved p;
      post_saved := if save_post then post_saved p + 1 else post_saved p;
      main_saved := match save_main with Some _ => true | None => main_saved p end;
      snapshot_url := match save_main with
                      | Some _ => Some (incident_tag, uuid)
                      | None => snapshot_url p
                      end |},
   (if save_pre then [VideoPre incident_tag (pre_saved p) (cf_image fr)] else [])
   ++ match save_main with
      | Some annotated => [VideoMain incident_tag uuid annotated]
      | None => []
      end
   ++ (if save_post then [VideoPost incident_tag (post_saved p) (cf_image fr)] else [])).

(** The loop of lines 785-826: it ends with the frames, or at the first
    frame past [post_end_index]. *)
Fixpoint pass2_loop (incident_tag : IncidentTag) (best_frame_index : Z)
    (best_annotated_frame : option Image) (main_write_ok : bool) (uuid : string)
    (p : Pass2) (frames : list ClipFrame) : Pass2 * list VideoEvent :=
  match frames with
  | [] => (p, [])
  | fr :: rest =>
      let '(p1, events) :=
        pass2_step incident_tag best_frame_index best_annotated_frame main_write_ok
          uuid p fr in
      if (best_frame_index + POST_CAPTURE_FRAMES <? p2_frame_index p1)%Z
      then (p1, events)
      else
        let '(p2, events') :=
          pass2_loop incident_tag best_frame_index best_annotated_frame main_write_ok
            uuid p1 rest in
        (p2, events ++ events')
  end.

(** What the outside world contributes to one call of [analyze_video]. *)
Record Upload : Type := mkUpload {
  save_ok : bool;                  (* lines 583-585 do not raise *)
  opened : bool;                   (* [cap.isOpened()], line 596 *)
  clip : list ClipFrame;           (* the frames [cap.read()] returns *)
  reopened : bool;                 (* [cap.isOpened()], line 766 *)
  video_now_ts : Q;                (* [time.time()], line 771 *)
  video_main_write_ok : bool;      (* the [cv2.imwrite] of line 807 does not raise *)
  video_main_uuid : string;        (* [uuid.uuid4()], line 805 *)
  video_http : HttpOutcome;        (* the request of [send_incident_to_backend] *)
}.

(** How a call of [analyze_video] ends: with an [HTTPException], or with a
    response. *)
Inductive Outcome : Type :=
  | HTTPException (status_code : Z) (detail : string)
  | Returned (response : Response).

Definition no_accident_in_video : Response :=
  {| message := "No accident detected in video.";
     accidents_detected := 0; incident_ids := [] |}.

(** [analyze_video(file)], lines 565-879. *)
Definition analyze_video (u : Upload) : Outcome * list VideoEvent :=
  if negb (save_ok u) then (HTTPException 500 "Could not save video", [])
  else if negb (opened u) then (HTTPException 500 "Could not open video", [])
  else
    let p := pass1 (map cf_frame (clip u)) in
    match v_best_frame_index p with
    | None => (Returned no_accident_in_video, [])
    | Some best_frame_index =>
        if (v_best_severity_score p =? 0)%Z then (Returned no_accident_in_video, [])
        else
          let injury_report :=
            build_expected_injury_report (severity_name (v_best_severity p))
              (v_best_vehicle_type p) (v_best_victims p) (v_best_collision p)
              (v_best_person_count p) in
          if negb (reopened u)
          then (HTTPException 500 "Could not open video for snapshots", [])
          else
            let incident_tag := mkTag "VIDEO_CAM_1" (Py.int (video_now_ts u)) in
            let '(p2, events) :=
              pass2_loop incident_tag best_frame_index (v_best_annotated_frame p)
                (video_main_write_ok u) (video_main_uuid u) pass2_start (clip u) in
            let out := handle_reply (send_incident_to_backend (video_http u)) in
            (Returned
               {| message := "Video analyzed. Max severity detected = "
                             +:+ severity_name (v_best_severity p) +:+ ".";
                  accidents_detected := out_accidents_detected out;
                  incident_ids := out_incident_ids out |},
             events
             ++ [VideoSend (v_best_severity p) (v_best_victims p) injury_report
                   (snapshot_url p2)])
    end.

End Video.

Arguments ClipFrame : clear implicits.
Arguments VideoEvent : clear implicits.
Arguments Upload : clear implicits.

(* ===================================================================== *)
(** * Notions used to state the properties of batch mode *)
(* ===================================================================== *)

Section VideoNotions.

Context {Image : Type}.

(** The single-frame accident decision of the first pass on a frame. *)
Definition video_flagged (fr : VideoFrame Image) : bool :=
  fs_accident_detected_frame (video_score (vf_detections fr)).

(** Frame number [k], counted from 1 as [frame_index] does, exists and is
    flagged. *)
Definition flagged_at (frames : list (VideoFrame Image)) (k : Z) : bool :=
  (1 <=? k)%Z
  && match frames !! Z.to_nat (k - 1) with
     | Some fr => video_flagged fr
     | None => false
     end.

(** Frame number [k] is analysed (every [FRAME_STEP]-th frame is) and is the
    third in a row of analysed frames that are flagged. *)
Definition confirmed_at (frames : list (VideoFrame Image)) (k : Z) : bool :=
  (k `mod` FRAME_STEP =? 0)%Z
  && flagged_at frames k && flagged_at frames (k - FRAME_STEP)
  && flagged_at frames (k - 2 * FRAME_STEP).

(** The key by which the first pass compares confirmed frames. *)
Definition video_key (fr : VideoFrame Image) : Z * Q :=
  (fs_severity_score (video_score (vf_detections fr)),
   fs_max_overlap_ratio (video_score (vf_detections fr))).

(** The best-frame variables of the first pass, and the values they take
    from a frame (lines 724-736). *)
Definition pass1_best (p : Pass1 Image)
  : Severity * Z * Q * Z * Z * bool * option string * option Image :=
  (v_best_severity p, v_best_severity_score p, v_best_overlap_ratio p,
   v_best_victims p, v_best_person_count p, v_best_collision p,
   v_best_vehicle_type p, v_best_annotated_frame p).

Definition frame_best (fr : VideoFrame Image)
  : Severity * Z * Q * Z * Z * bool * option string * option Image :=
  let sc := video_score (vf_detections fr) in
  (fs_severity sc, fs_severity_score sc, fs_max_overlap_ratio sc,
   fs_victims_estimated sc, person_count (fs_tally sc), fs_collision_detected sc,
   primary_vehicle_type (fs_tally sc), vf_plotted fr).

(** The frames whose raw image the second pass can write, as images. *)
Definition writable (frames : list (ClipFrame Image)) : list Image :=
  map cf_image (List.filter cf_write_ok frames).

(** The frames numbered [max(1, b - PRE_SNAPSHOT_COUNT)] to [b - 1], and
    those numbered [b + 1] to [b + POST_CAPTURE_FRAMES], as far as the clip
    goes. *)
Definition pre_window (b : Z) (frames : list (ClipFrame Image)) : list (ClipFrame Image) :=
  let pre_start_index := Z.max 1 (b - Z.of_nat PRE_SNAPSHOT_COUNT) in
  take (Z.to_nat (b - pre_start_index)) (drop (Z.to_nat (pre_start_index - 1)) frames).

Definition post_window (b : Z) (frames : list (ClipFrame Image)) : list (ClipFrame Image) :=
  take (Z.to_nat POST_CAPTURE_FRAMES) (drop (Z.to_nat b) frames).

End VideoNotions.

(* ===================================================================== *)
(** * Sample uploads *)
(* ===================================================================== *)

Module SampleVideo.

(** A frame of a clip, with images as numbers: the raw frame is [id], the
    detector finds [boxes], [r.plot()] returns the image [1000 + id] and the
    frame can be written. *)
Definition frame (id : nat) (boxes : list Detection) : ClipFrame nat :=
  {| cf_image := id;
     cf_frame := {| vf_detections := boxes; vf_plotted := Some (1000 + id)%nat |};
     cf_write_ok := true |}.

(** [n] frames numbered from [id], each showing [boxes]. *)
Fixpoint shots (n id : nat) (boxes : list Detection) : list (ClipFrame nat) :=
  match n with
  | O => []
  | S n' => frame id boxes :: shots n' (S id) boxes
  end.

(** Eight frames of an empty road, then twelve of a car on a person. *)
Definition crash : list (ClipFrame nat) :=
  shots 8 1 [] ++ shots 12 9 [Sample.car; Sample.person].

(** An upload that is saved and opened, whose writes succeed and to which
    the backend answers with the stored incident 7. *)
Definition upload (frames : list (ClipFrame nat)) : Upload nat :=
  {| save_ok := true;
     opened := true;
     clip := frames;
     reopened := true;
     video_now_ts := 2000;
     video_main_write_ok := true;
     video_main_uuid := "0f8fad5b";
     video_http := Sample.stored 7 |}.

End SampleVideo.

(* ===================================================================== *)
(** * Notions used to state which branch chooses the reported frame *)
(* ===================================================================== *)

Section LiveSelection.

Context {Image : Type}.

(** The state dict once line 289 has appended the raw frame to
    ["frame_buffer"]. *)
Definition frame_buffered (st : CameraState Image) (img : Image) : CameraState Image :=
  {| accident_counter := accident_counter st;
     frame_buffer := deque_append FRAME_BUFFER_SIZE (frame_buffer st) img;
     candidate_frames := candidate_frames st;
     last_alert_time := last_alert_time st;
     post_capture_remaining := post_capture_remaining st;
     post_capture_counter := post_capture_counter st;
     current_incident_tag := current_incident_tag st |}.

(** The files lines 291-303 write during the call. *)
Definition post_events_of (st : CameraState Image) (img : Image) (inp : FrameInput Image)
  : list (Event Image) :=
  (post_capture (frame_buffered st img) img (post_write_ok inp)).2.

(** The state dict as the call has it at line 414, where [final_decision] is
    computed: the raw frame is buffered (line 289), the post-accident capture
    has run (lines 291-303) and the frame is accumulated (lines 389-411).
    It is this state whose ["candidate_frames"] line 438 tests. *)
Definition state_at_decision (st : CameraState Image) (img : Image)
    (inp : FrameInput Image) : CameraState Image :=
  accumulate (post_capture (frame_buffered st img) img (post_write_ok inp)).1
    (live_score (detections inp)) (annotate img (plotted inp)).

(** [final_decision] (line 414). *)
Definition final_decision (st : CameraState Image) (img : Image)
    (inp : FrameInput Image) : bool :=
  (ACCIDENT_CONFIRM_FRAMES <=? accident_counter (state_at_decision st img inp))%Z.

(** The call gets to line 444 with [best_frame_data is None]: it is
    confirmed, not suppressed, and finds ["candidate_frames"] empty. *)
Definition takes_fallback (st : CameraState Image) (img : Image)
    (inp : FrameInput Image) : bool :=
  final_decision st img inp
  && negb (in_cooldown (last_alert_time (state_at_decision st img inp)) (now_ts inp))
  && match max_by_key (candidate_frames (state_at_decision st img inp)) with
     | None => true
     | Some _ => false
     end.

End LiveSelection.

(* ===================================================================== *)
(** * Part II: properties *)
(* ===================================================================== *)

(* ===================================================================== *)
(** * Properties of the Python comparisons *)
(* ===================================================================== *)

Lemma Py_lt_spec x y : reflect (x < y) (Py.lt x y).
Proof.
  unfold Py.lt. destruct (x ?= y) eqn:E; constructor.
  - apply Qeq_alt in E. lra.
  - now apply Qlt_alt.
  - apply Qgt_alt in E. lra.
Qed.

Lemma Py_le_spec x y : reflect (x <= y) (Py.le x y).
Proof.
  unfold Py.le. destruct (Qle_bool x y) eqn:E; constructor.
  - now apply Qle_bool_iff.
  - intros H. apply Qle_bool_iff in H. congruence.
Qed.

Lemma Py_gt_spec x y : reflect (y < x) (Py.gt x y).
Proof. unfold Py.gt. apply Py_lt_spec. Qed.

Lemma Py_max_Qmax a b : Py.max a b == Qmax a b.
Proof.
  unfold Py.max. destruct (Py_gt_spec b a) as [H | H];
    destruct (Q.max_spec a b) as [[H1 H2] | [H1 H2]]; lra.
Qed.

Lemma Py_min_Qmin a b : Py.min a b == Qmin a b.
Proof.
  unfold Py.min. destruct (Py_lt_spec b a) as [H | H];
    destruct (Q.min_spec a b) as [[H1 H2] | [H1 H2]]; lra.
Qed.

(** Case analysis on every [Qmax] and [Qmin] of the goal, then linear
    arithmetic. *)
Ltac qminmax :=
  repeat match goal with
         | |- context [Qmax ?a ?b] =>
             generalize (Q.max_spec a b); generalize (Qmax a b); intro
         | |- context [Qmin ?a ?b] =>
             generalize (Q.min_spec a b); generalize (Qmin a b); intro
         end;
  intros;
  repeat match goal with
         | H : _ \/ _ |- _ => destruct H as [[? ?] | [? ?]]
         end;
  lra.

(* ===================================================================== *)
(** * The overlap ratio is the greatest pairwise IoU *)
(* ===================================================================== *)

Lemma box_area_area b : box_area b == area b.
Proof. unfold box_area, area. now rewrite !Py_max_Qmax. Qed.

Lemma area_nonneg b : 0 <= area b.
Proof.
  unfold area.
  assert (0 <= Qmax 0 (x_max b - x_min b)) by qminmax.
  assert (0 <= Qmax 0 (y_max b - y_min b)) by qminmax.
  nra.
Qed.

Lemma inter_area_nonneg a b : 0 <= inter_area a b.
Proof.
  unfold inter_area.
  set (w := Qmax 0 _). set (h := Qmax 0 _).
  assert (0 <= w) by (subst w; qminmax).
  assert (0 <= h) by (subst h; qminmax).
  nra.
Qed.

Lemma inter_area_le_l a b : inter_area a b <= area a.
Proof.
  unfold inter_area, area.
  set (w := Qmax 0 (Qmin _ _ - _)). set (h := Qmax 0 (Qmin _ _ - _)).
  set (wa := Qmax 0 _). set (ha := Qmax 0 _).
  assert (0 <= w /\ w <= wa) as [??] by (subst w wa; split; qminmax).
  assert (0 <= h /\ h <= ha) as [??] by (subst h ha; split; qminmax).
  nra.
Qed.

Lemma inter_area_le_r a b : inter_area a b <= area b.
Proof.
  unfold inter_area, area.
  set (w := Qmax 0 (Qmin _ _ - _)). set (h := Qmax 0 (Qmin _ _ - _)).
  set (wb := Qmax 0 _). set (hb := Qmax 0 _).
  assert (0 <= w /\ w <= wb) as [??] by (subst w wb; split; qminmax).
  assert (0 <= h /\ h <= hb) as [??] by (subst h hb; split; qminmax).
  nra.
Qed.

Lemma iou_bounds a b : 0 <= iou a b <= 1.
Proof.
  unfold iou.
  pose proof (inter_area_nonneg a b). pose proof (inter_area_le_l a b).
  pose proof (inter_area_le_r a b). pose proof (area_nonneg a).
  pose proof (area_nonneg b).
  set (i := inter_area a b) in *. set (u := area a + area b - i).
  assert (i <= u) by (subst u; lra).
  destruct (Qlt_le_dec 0 u) as [Hu | Hu].
  - split.
    + apply Qle_shift_div_l; [assumption | lra].
    + apply Qle_shift_div_r; [assumption | lra].
  - assert (u == 0) as -> by lra.
    assert (i / 0 == 0) as -> by (unfold Qdiv; apply Qmult_0_r).
    lra.
Qed.

Lemma iou_zero a b : inter_area a b == 0 -> iou a b == 0.
Proof. intros H. unfold iou. rewrite H. unfold Qdiv. apply Qmult_0_l. Qed.

Lemma iou_same b : positive_area b -> iou b b == 1.
Proof.
  unfold positive_area, iou. intros Hb.
  assert (inter_area b b == area b) as ->.
  { unfold inter_area, area. now rewrite !Q.max_id, !Q.min_id. }
  field. lra.
Qed.

Lemma qmax_list_nonneg l : 0 <= qmax_list l.
Proof. induction l as [| x l IH]; simpl; [lra | revert IH; qminmax]. Qed.

Lemma qmax_list_from z l : 0 <= z -> fold_right Qmax z l == Qmax z (qmax_list l).
Proof.
  intros Hz. induction l as [| x l IH]; simpl.
  - qminmax.
  - rewrite IH. pose proof (qmax_list_nonneg l) as Hl. revert Hl. qminmax.
Qed.

Lemma qmax_list_app l1 l2 :
  qmax_list (l1 ++ l2) == Qmax (qmax_list l1) (qmax_list l2).
Proof.
  rewrite fold_right_app, qmax_list_from by apply qmax_list_nonneg.
  apply Q.max_comm.
Qed.

Lemma qmax_list_upper l x : In x l -> x <= qmax_list l.
Proof.
  induction l as [| y l IH]; simpl; [tauto |].
  intros [-> | H]; [qminmax | specialize (IH H); revert IH; qminmax].
Qed.

Lemma qmax_list_attained l :
  qmax_list l == 0 \/ exists x, In x l /\ qmax_list l == x.
Proof.
  induction l as [| y l IH]; simpl; [left; lra |].
  destruct (Q.max_spec y (qmax_list l)) as [[H1 H2] | [H1 H2]].
  - destruct IH as [IH | (x & Hx & IH)].
    + left. lra.
    + right. exists x. split; [now right | lra].
  - right. exists y. split; [now left | lra].
Qed.

Lemma overlap_inner_spec b1 m b2 :
  positive_area b1 -> 0 <= m ->
  overlap_inner b1 (box_area b1) m b2
  == Qmax m (if decide (positive_area b2) then iou b1 b2 else 0).
Proof.
  unfold positive_area. intros H1 Hm. unfold overlap_inner. cbv zeta.
  pose proof (box_area_area b1) as E1. pose proof (box_area_area b2) as E2.
  pose proof (inter_area_nonneg b1 b2) as Hi0.
  pose proof (inter_area_le_r b1 b2) as Hi2.
  pose proof (area_nonneg b2) as H20.
  assert (Py.max 0 (Py.min (x_max b1) (x_max b2) - Py.max (x_min b1) (x_min b2))
          * Py.max 0 (Py.min (y_max b1) (y_max b2) - Py.max (y_min b1) (y_min b2))
          == inter_area b1 b2) as Ei.
  { unfold inter_area.
    apply Qmult_comp; (rewrite Py_max_Qmax; apply Q.max_compat; [reflexivity |]);
      (apply Qplus_comp; [apply Py_min_Qmin | apply Qopp_comp, Py_max_Qmax]). }
  set (inter := Py.max 0 _ * Py.max 0 _) in *.
  destruct (Py_le_spec (box_area b2) 0) as [Ha | Ha].
  { destruct (decide _) as [Hp | _]; [unfold positive_area in Hp; lra | qminmax]. }
  destruct (decide _) as [_ | Hp]; [| unfold positive_area in Hp; lra].
  assert (iou b1 b2 == inter / (box_area b1 + box_area b2 - inter)) as Eiou.
  { unfold iou. now rewrite Ei, E1, E2. }
  destruct (Py_le_spec inter 0) as [Hi | Hi].
  { assert (iou b1 b2 == 0) as -> by (apply iou_zero; lra). qminmax. }
  destruct (Py_le_spec (box_area b1 + box_area b2 - inter) 0) as [Hu | Hu]; [lra |].
  rewrite Eiou.
  destruct (Py_gt_spec (inter / (box_area b1 + box_area b2 - inter)) m); qminmax.
Qed.

Lemma overlap_inner_fold b1 rest : forall m,
  positive_area b1 -> 0 <= m ->
  fold_left (overlap_inner b1 (box_area b1)) rest m
  == Qmax m (qmax_list (map (iou b1) (filter positive_area rest))).
Proof.
  induction rest as [| b2 rest IH]; intros m H1 Hm; simpl.
  - qminmax.
  - pose proof (overlap_inner_spec b1 m b2 H1 Hm) as E.
    rewrite IH; [| assumption |].
    + rewrite E. rewrite filter_cons.
      destruct (decide (positive_area b2)); simpl;
        pose proof (qmax_list_nonneg (map (iou b1) (filter positive_area rest)));
        qminmax.
    + rewrite E. revert Hm. qminmax.
Qed.

Lemma pair_ratios_cons b1 rest :
  pair_ratios (b1 :: rest)
  = (if decide (positive_area b1)
     then map (iou b1) (filter positive_area rest) else [])
    ++ pair_ratios rest.
Proof.
  unfold pair_ratios. simpl. rewrite filter_app, map_app. f_equal.
  induction rest as [| b2 rest IH]; simpl.
  - now destruct (decide _).
  - rewrite !filter_cons. simpl.
    destruct (decide (positive_area b1)) as [H1 | H1];
      destruct (decide (positive_area b2)) as [H2 | H2];
      destruct (decide (_ /\ _)) as [H12 | H12]; try tauto; simpl;
      rewrite IH; destruct (decide (positive_area b1)); tauto || reflexivity.
Qed.

Lemma overlap_outer_spec boxes : forall m,
  0 <= m -> overlap_outer boxes m == Qmax m (max_pairwise_iou boxes).
Proof.
  unfold max_pairwise_iou.
  induction boxes as [| b1 rest IH]; intros m Hm; simpl overlap_outer.
  - simpl. qminmax.
  - rewrite pair_ratios_cons, qmax_list_app.
    pose proof (qmax_list_nonneg (pair_ratios rest)) as Hr.
    destruct (Py_le_spec (box_area b1) 0) as [Ha | Ha].
    + rewrite IH by assumption.
      destruct (decide (positive_area b1)) as [Hp | _].
      * unfold positive_area in Hp. pose proof (box_area_area b1). lra.
      * simpl. revert Hr. qminmax.
    + assert (positive_area b1) as Hp.
      { unfold positive_area. pose proof (box_area_area b1). lra. }
      destruct (decide (positive_area b1)) as [_ | ?]; [| tauto].
      pose proof (overlap_inner_fold b1 rest m Hp Hm) as E.
      pose proof (qmax_list_nonneg (map (iou b1) (filter positive_area rest))) as Hq.
      rewrite IH; [rewrite E; revert Hr Hq; qminmax |].
      rewrite E. revert Hm Hq. qminmax.
Qed.

Lemma compute_max_overlap_ratio_spec boxes :
  compute_max_overlap_ratio boxes == max_pairwise_iou boxes.
Proof.
  unfold compute_max_overlap_ratio.
  destruct (length boxes <? 2)%nat eqn:E.
  - apply Nat.ltb_lt in E.
    destruct boxes as [| b1 [| b2 rest]]; simpl in E; try lia.
    + reflexivity.
    + unfold max_pairwise_iou. rewrite pair_ratios_cons.
      destruct (decide _); reflexivity.
  - rewrite overlap_outer_spec by lra.
    pose proof (qmax_list_nonneg (pair_ratios boxes)) as H. revert H.
    unfold max_pairwise_iou. qminmax.
Qed.

Lemma pairs_lookup {A} (l : list A) a b :
  In (a, b) (pairs l)
  <-> exists i j, (i < j)%nat /\ l !! i = Some a /\ l !! j = Some b.
Proof.
  induction l as [| x l IH]; simpl.
  - split; [tauto | intros (i & j & _ & H & _); discriminate].
  - rewrite in_app_iff, in_map_iff, IH. split.
    + intros [(y & [= <- <-] & Hy) | (i & j & Hij & Hi & Hj)].
      * apply list_elem_of_In, list_elem_of_lookup in Hy as [k Hk].
        exists 0%nat, (S k). repeat split; [lia | assumption].
      * exists (S i), (S j). repeat split; [lia | assumption ..].
    + intros (i & j & Hij & Hi & Hj).
      destruct j as [| j]; [lia |]. destruct i as [| i]; simpl in *.
      * injection Hi as <-. left. exists b. split; [reflexivity |].
        apply list_elem_of_In, list_elem_of_lookup. eauto.
      * right. exists i, j. repeat split; [lia | assumption ..].
Qed.

Lemma pair_ratios_In boxes x :
  In x (pair_ratios boxes)
  <-> exists i j a b, (i < j)%nat /\ boxes !! i = Some a /\ boxes !! j = Some b
        /\ positive_area a /\ positive_area b /\ x = iou a b.
Proof.
  unfold pair_ratios. rewrite in_map_iff. split.
  - intros ([a b] & <- & H). apply list_elem_of_In, list_elem_of_filter in H as [[Ha Hb] H].
    apply list_elem_of_In, pairs_lookup in H as (i & j & Hij & Hi & Hj).
    exists i, j, a, b. auto 10.
  - intros (i & j & a & b & Hij & Hi & Hj & Ha & Hb & ->).
    exists (a, b). split; [reflexivity |].
    apply list_elem_of_In, list_elem_of_filter. split; [now split |].
    apply list_elem_of_In, pairs_lookup. eauto.
Qed.

Lemma filter_positive_idemp (l : list Box) :
  filter positive_area (filter positive_area l) = filter positive_area l.
Proof.
  induction l as [| b l IH]; [reflexivity |].
  rewrite filter_cons. destruct (decide (positive_area b)) as [H | H]; [| assumption].
  rewrite filter_cons. destruct (decide (positive_area b)); [| tauto].
  now rewrite IH.
Qed.

Lemma pair_ratios_filter boxes :
  pair_ratios (filter positive_area boxes) = pair_ratios boxes.
Proof.
  induction boxes as [| b rest IH]; [reflexivity |].
  rewrite filter_cons, (pair_ratios_cons b rest).
  destruct (decide (positive_area b)) as [H | H].
  - rewrite pair_ratios_cons, filter_positive_idemp, IH.
    destruct (decide (positive_area b)); [reflexivity | tauto].
  - apply IH.
Qed.

(** In exact arithmetic the loop returns the greatest intersection over
    union among the pairs of boxes of positive area: it is an upper bound of
    the IoU of every such pair and, unless it is 0, the IoU of one of them;
    it is 0 for fewer than two boxes and when no such pair has a positive
    intersection; boxes without area change nothing; the result lies between
    0 and 1, and is 1 as soon as a box of positive area occurs twice.  The
    source computes in [float32]; what it returns is the subject of the
    next section. *)
Lemma exact_overlap_ratio_max_iou (boxes : list Box) :
  let r := compute_max_overlap_ratio boxes in
  r == max_pairwise_iou boxes
  /\ (forall i j a b, (i < j)%nat -> boxes !! i = Some a -> boxes !! j = Some b ->
        positive_area a -> positive_area b -> iou a b <= r)
  /\ (r == 0 \/
      exists i j a b, (i < j)%nat /\ boxes !! i = Some a /\ boxes !! j = Some b
        /\ positive_area a /\ positive_area b /\ r == iou a b)
  /\ ((length boxes < 2)%nat -> r = 0)
  /\ ((forall i j a b, (i < j)%nat -> boxes !! i = Some a -> boxes !! j = Some b ->
         positive_area a -> positive_area b -> inter_area a b <= 0) -> r == 0)
  /\ r == compute_max_overlap_ratio (filter positive_area boxes)
  /\ 0 <= r <= 1
  /\ (forall i j b, (i < j)%nat -> boxes !! i = Some b -> boxes !! j = Some b ->
        positive_area b -> r == 1).
Proof.
  intros r. pose proof (compute_max_overlap_ratio_spec boxes) as Hr.
  fold r in Hr. unfold max_pairwise_iou in *.
  assert (forall i j a b, (i < j)%nat -> boxes !! i = Some a -> boxes !! j = Some b ->
            positive_area a -> positive_area b -> iou a b <= r) as Hub.
  { intros i j a b Hij Hi Hj Ha Hb. rewrite Hr. apply qmax_list_upper.
    apply pair_ratios_In. exists i, j, a, b. auto 10. }
  assert (r == 0 \/
      exists i j a b, (i < j)%nat /\ boxes !! i = Some a /\ boxes !! j = Some b
        /\ positive_area a /\ positive_area b /\ r == iou a b) as Hat.
  { destruct (qmax_list_attained (pair_ratios boxes)) as [H | (x & Hx & H)].
    - left. lra.
    - right. apply pair_ratios_In in Hx as (i & j & a & b & ? & ? & ? & ? & ? & ->).
      exists i, j, a, b. repeat split; try assumption. lra. }
  assert (0 <= r <= 1) as Hb.
  { destruct Hat as [H | (i & j & a & b & _ & _ & _ & _ & _ & H)].
    - lra.
    - pose proof (iou_bounds a b). lra. }
  repeat split; try assumption; try tauto.
  - intros Hlen. subst r. unfold compute_max_overlap_ratio.
    apply Nat.ltb_lt in Hlen. now rewrite Hlen.
  - intros Hno. destruct Hat as [H | (i & j & a & b & Hij & Hi & Hj & Ha & Hb' & H)];
      [assumption |].
    rewrite H. apply iou_zero.
    pose proof (Hno i j a b Hij Hi Hj Ha Hb'). pose proof (inter_area_nonneg a b). lra.
  - rewrite Hr, compute_max_overlap_ratio_spec. unfold max_pairwise_iou.
    now rewrite pair_ratios_filter.
  - intros i j b Hij Hi Hj Hp.
    pose proof (Hub i j b b Hij Hi Hj Hp Hp) as H. rewrite (iou_same b Hp) in H. lra.
Qed.

(** Four boxes, one without area and one repeated; one box; three boxes that
    do not intersect. *)
Lemma exact_overlap_ratio_max_iou_example :
  let boxes := [mkBox 0 0 2 2; mkBox 5 5 5 9; mkBox 1 1 3 3; mkBox 0 0 2 2] in
  iou (mkBox 0 0 2 2) (mkBox 1 1 3 3) <= compute_max_overlap_ratio boxes
  /\ compute_max_overlap_ratio boxes == 1
  /\ compute_max_overlap_ratio [mkBox 0 0 2 2] = 0
  /\ compute_max_overlap_ratio [mkBox 0 0 1 1; mkBox 2 2 3 3; mkBox 1 0 1 4] == 0.
Proof.
  intros boxes.
  destruct (exact_overlap_ratio_max_iou boxes) as (_ & Hub & _ & _ & _ & _ & _ & Hsame).
  destruct (exact_overlap_ratio_max_iou [mkBox 0 0 2 2]) as (_ & _ & _ & Hlen & _).
  destruct (exact_overlap_ratio_max_iou [mkBox 0 0 1 1; mkBox 2 2 3 3; mkBox 1 0 1 4])
    as (_ & _ & _ & _ & Hno & _).
  split; [| split; [| split]].
  - apply (Hub 0%nat 2%nat); [lia | reflexivity | reflexivity | reflexivity | reflexivity].
  - apply (Hsame 0%nat 3%nat (mkBox 0 0 2 2)); [lia | reflexivity | reflexivity | reflexivity].
  - apply Hlen. simpl. lia.
  - apply Hno. intros i j a b Hij Hi Hj Ha Hb.
    destruct i as [| [| [| i]]], j as [| [| [| j]]]; simpl in Hi, Hj;
      try lia; try discriminate; injection Hi as <-; injection Hj as <-;
      first [ vm_compute; discriminate | vm_compute in Hb; discriminate ].
Defined.

(* ===================================================================== *)
(** * Rounding in [float32] *)
(* ===================================================================== *)

(** [SpecFloat] rounds by shifting the mantissa right and looking at the
    bits shifted out.  The lemmas of this section show that its sum,
    difference, product and quotient of finite [float32] are each the
    [float32] nearest to the exact result, ties to even, and that this
    rounding is monotone; from there, that the quotient line 152 computes
    is at most 1. *)
Section Binary32Facts.

Local Open Scope Z_scope.

Lemma digits2_pos_bounds (m : positive) :
  2 ^ (Zpos (digits2_pos m) - 1) <= Zpos m < 2 ^ Zpos (digits2_pos m).
Proof.
  induction m as [m IH | m IH |]; cbn [digits2_pos].
  - rewrite Pos2Z.inj_succ.
    replace (Z.succ (Zpos (digits2_pos m)) - 1) with (Z.succ (Zpos (digits2_pos m) - 1)) by lia.
    rewrite !Z.pow_succ_r by lia. lia.
  - rewrite Pos2Z.inj_succ.
    replace (Z.succ (Zpos (digits2_pos m)) - 1) with (Z.succ (Zpos (digits2_pos m) - 1)) by lia.
    rewrite !Z.pow_succ_r by lia. lia.
  - simpl. lia.
Qed.

Lemma digits_bounds (n : Z) :
  0 < n -> 2 ^ (digits n - 1) <= n < 2 ^ digits n.
Proof.
  destruct n as [| p | p]; try lia. intros _. apply digits2_pos_bounds.
Qed.

























Lemma fexp32 (k : Z) : fexp 24 128 k = Z.max (k - 24) (-149).
Proof. reflexivity. Qed.


Lemma of_ord_decode (s : bool) (sh M : Z) :
  0 <= sh -> 0 <= M <= 2 ^ 24 -> (0 < sh -> 2 ^ 23 <= M) ->
  of_ord s (sh * 2 ^ 23 + M)
  = (if M =? 0 then S754_zero s
     else if M <? 2 ^ 24
          then if sh - 149 <=? 104 then S754_finite s (Z.to_pos M) (sh - 149)
               else S754_infinity s
          else if sh - 148 <=? 104 then S754_finite s (Z.to_pos (2 ^ 23)) (sh - 148)
               else S754_infinity s).
Proof.
  intros Hsh HM Hlow. unfold of_ord.
  change (2 ^ 24) with 16777216 in *. change (2 ^ 23) with 8388608 in *.
  destruct (Z.eqb_spec M 0) as [-> | HM0].
  - assert (sh = 0) as -> by lia. reflexivity.
  - destruct (Z.leb_spec (sh * 8388608 + M) 0); [lia |].
    destruct (Z.ltb_spec M 16777216) as [Hlt | Hge].
    + destruct (Z.eq_dec sh 0) as [-> | Hne].
      * replace (0 * 8388608 + M) with M by lia.
        destruct (Z.leb_spec (255 * 8388608) M); [lia |].
        destruct (Z.ltb_spec M 16777216); [reflexivity | lia].
      * specialize (Hlow ltac:(lia)).
        assert ((sh * 8388608 + M) / 8388608 = sh + 1) as Ediv.
        { symmetry. apply (Z.div_unique _ 8388608 (sh + 1) (M - 8388608)); lia. }
        assert ((sh * 8388608 + M) mod 8388608 = M - 8388608) as Emod.
        { symmetry. apply (Z.mod_unique _ 8388608 (sh + 1) (M - 8388608)); lia. }
        rewrite Ediv, Emod.
        destruct (Z.leb_spec (255 * 8388608) (sh * 8388608 + M)),
          (Z.leb_spec (sh - 149) 104); try lia; [reflexivity |].
        destruct (Z.ltb_spec (sh * 8388608 + M) 16777216); [lia |].
        f_equal; [f_equal |]; lia.
    + assert (M = 16777216) as -> by lia.
      assert ((sh * 8388608 + 16777216) / 8388608 = sh + 2) as Ediv.
      { symmetry. apply (Z.div_unique _ 8388608 (sh + 2) 0); lia. }
      assert ((sh * 8388608 + 16777216) mod 8388608 = 0) as Emod.
      { symmetry. apply (Z.mod_unique _ 8388608 (sh + 2) 0); lia. }
      rewrite Ediv, Emod.
      destruct (Z.leb_spec (255 * 8388608) (sh * 8388608 + 16777216)),
        (Z.leb_spec (sh - 148) 104); try lia; [reflexivity |].
      destruct (Z.ltb_spec (sh * 8388608 + 16777216) 16777216); [lia |].
      f_equal. lia.
Qed.


Lemma bounded32 (m : positive) (e : Z) :
  bounded 24 128 m e = true
  <-> -149 <= e <= 104 /\ digits (Zpos m) <= 24 /\ (-149 < e -> digits (Zpos m) = 24).
Proof.
  unfold bounded, canonical_mantissa. rewrite fexp32. change (128 - 24) with 104.
  change (Zpos (digits2_pos m)) with (digits (Zpos m)).
  rewrite andb_true_iff, Z.eqb_eq, Z.leb_le. lia.
Qed.

Lemma bounded32_mantissa (m : positive) (e : Z) :
  bounded 24 128 m e = true ->
  Zpos m < 2 ^ 24 /\ (-149 < e -> 2 ^ 23 <= Zpos m).
Proof.
  intros (He & Hd & Hn)%bounded32.
  pose proof (digits_bounds (Zpos m) ltac:(lia)) as [Hlo Hhi]. split.
  - assert (2 ^ digits (Zpos m) <= 2 ^ 24) by (apply Z.pow_le_mono_r; lia). lia.
  - intros H. rewrite (Hn H) in Hlo. exact Hlo.
Qed.












Lemma units_at_split (sh M : Z) :
  0 <= sh -> 0 <= M -> (0 < sh -> 2 ^ 23 <= M) -> M < 2 ^ 24 ->
  units_at (sh * 2 ^ 23 + M) = M * 2 ^ sh.
Proof.
  intros Hsh HM Hlow Hup. unfold units_at.
  change (2 ^ 24) with 16777216 in *. change (2 ^ 23) with 8388608 in *.
  destruct (Z.eq_dec sh 0) as [-> | Hne].
  - replace (0 * 8388608 + M) with M by lia.
    destruct (Z.ltb_spec M 16777216); [| lia]. change (2 ^ 0) with 1. lia.
  - specialize (Hlow ltac:(lia)).
    destruct (Z.ltb_spec (sh * 8388608 + M) 16777216); [lia |].
    assert ((sh * 8388608 + M) / 8388608 = sh + 1) as ->.
    { symmetry. apply (Z.div_unique _ 8388608 (sh + 1) (M - 8388608)); lia. }
    assert ((sh * 8388608 + M) mod 8388608 = M - 8388608) as ->.
    { symmetry. apply (Z.mod_unique _ 8388608 (sh + 1) (M - 8388608)); lia. }
    replace (sh + 1 - 1) with sh by lia. f_equal. lia.
Qed.





Lemma units_at_0 : units_at 0 = 0.
Proof. reflexivity. Qed.


(** A finite positive [float32] is the one at its own position. *)
Lemma of_ord_bounded (s : bool) (m : positive) (e : Z) :
  bounded 24 128 m e = true ->
  let k := (e + 149) * 2 ^ 23 + Zpos m in
  of_ord s k = S754_finite s m e
  /\ 0 < k < 255 * 2 ^ 23
  /\ units_at k = Zpos m * 2 ^ (e + 149).
Proof.
  intros Hb. pose proof (bounded32_mantissa m e Hb) as [Hup Hlow].
  apply bounded32 in Hb as (He & _). cbv zeta.
  split; [| split].
  - rewrite of_ord_decode by lia.
    destruct (Z.eqb_spec (Zpos m) 0); [lia |].
    destruct (Z.ltb_spec (Zpos m) (2 ^ 24)); [| lia].
    replace (e + 149 - 149) with e by lia.
    destruct (Z.leb_spec e 104); [| lia]. reflexivity.
  - change (2 ^ 23) with 8388608 in *. change (2 ^ 24) with 16777216 in *. lia.
  - apply units_at_split; lia.
Qed.














(** A finite [float32] above 0 is the one at some position. *)
Lemma positive32_position (x : spec_float) :
  positive32 x = true -> finite32 x = true ->
  exists k, x = of_ord false k /\ 0 < k < 255 * 2 ^ 23 /\ units x = units_at k
            /\ 0 < units x.
Proof.
  destruct x as [| | | [] m e]; try discriminate. intros _ Hb. cbn [finite32] in Hb.
  destruct (of_ord_bounded false m e Hb) as (Hof & Hk & Hu). cbv zeta in *.
  exists ((e + 149) * 2 ^ 23 + Zpos m). split; [now symmetry |]. split; [exact Hk |].
  cbn [units cond_Zopp]. split; [now symmetry |].
  apply bounded32 in Hb as (He & _).
  assert (0 < 2 ^ (e + 149)) by (apply Z.pow_pos_nonneg; lia). lia.
Qed.



























End Binary32Facts.

(* ===================================================================== *)
(** * The overlap ratio in [float32]: the greatest computed quotient *)
(* ===================================================================== *)
















(* ===================================================================== *)
(** * The scoring rules *)
(* ===================================================================== *)

Lemma live_severity_rule c v p : live_severity c v p = severity_rule c v p.
Proof.
  unfold live_severity, severity_rule.
  repeat case_decide; destruct c; simpl;
    repeat match goal with
           | |- context [(?a <=? ?b)%Z] => destruct (Z.leb_spec a b)
           end; simpl; try reflexivity; try lia; naive_solver lia.
Qed.

Lemma video_severity_rule c v p : video_severity c v p = severity_rule c v p.
Proof.
  unfold video_severity, severity_rule.
  repeat case_decide; destruct c; simpl;
    repeat match goal with
           | |- context [(?a <=? ?b)%Z] => destruct (Z.leb_spec a b)
           end; simpl; try reflexivity; try lia; naive_solver lia.
Qed.

(** C6.  In both paths the severity of a frame is the first matching rule of
    CRITICAL (collision and at least two vehicles), MAJOR (collision and at
    least one person), MEDIUM (at least one vehicle and two persons), MINOR,
    applied to the frame's collision flag, vehicle count and person count. *)
Theorem severity_first_matching_rule :
  (forall boxes,
     let sc := live_score boxes in
     fs_severity sc
     = severity_rule (fs_collision_detected sc) (vehicle_count (fs_tally sc))
         (person_count (fs_tally sc)))
  /\ (forall boxes,
     let sc := video_score boxes in
     fs_severity sc
     = severity_rule (fs_collision_detected sc) (vehicle_count (fs_tally sc))
         (person_count (fs_tally sc)))
  /\ (forall c v p,
     live_severity c v p = severity_rule c v p
     /\ video_severity c v p = severity_rule c v p)
  /\ (live_severity true 2 0 = CRITICAL /\ live_severity true 0 1 = MAJOR
      /\ live_severity false 1 2 = MEDIUM /\ live_severity false 0 0 = MINOR)
  /\ (video_severity true 2 0 = CRITICAL /\ video_severity true 0 1 = MAJOR
      /\ video_severity false 1 2 = MEDIUM /\ video_severity false 0 0 = MINOR).
Proof.
  split; [| split; [| split; [| split]]].
  - intros boxes. apply live_severity_rule.
  - intros boxes. apply video_severity_rule.
  - intros c v p. split; [apply live_severity_rule | apply video_severity_rule].
  - repeat split.
  - repeat split.
Qed.

(** C5.  On the same detections the live path and the batch path compute
    the same accident flag, the same severity and the same victim estimate
    (and the same counts, collision flag and overlap ratio before them); the
    severity and victim estimate the first pass of the batch analyzer keeps
    for a frame are those the live path computes for it. *)
Theorem live_and_batch_scores_agree :
  (forall boxes,
     fs_accident_detected_frame (live_score boxes)
     = fs_accident_detected_frame (video_score boxes)
     /\ fs_severity (live_score boxes) = fs_severity (video_score boxes)
     /\ fs_victims_estimated (live_score boxes)
        = fs_victims_estimated (video_score boxes)
     /\ live_score boxes = video_score boxes)
  /\ (forall collision vehicles persons dangers,
     live_accident_detected_frame collision vehicles persons dangers
     = video_accident_detected_frame collision vehicles persons dangers
     /\ live_severity collision vehicles persons
        = video_severity collision vehicles persons
     /\ live_victims_estimated persons = video_victims_estimated persons)
  /\ (forall (Image : Type) (p : Pass1 Image) (fr : VideoFrame Image),
     let p' := pass1_step p fr in
     let live := live_score (vf_detections fr) in
     (v_best_severity p', v_best_victims p')
     = (v_best_severity p, v_best_victims p)
     \/ (v_best_severity p', v_best_victims p')
        = (fs_severity live, fs_victims_estimated live)).
Proof.
  split; [| split].
  - intros boxes. repeat split.
  - intros c v p d. repeat split.
  - intros Image p fr. unfold pass1_step. cbv zeta.
    destruct (negb _); [now left |].
    destruct (_ <? VIDEO_CONFIRM_FRAMES)%Z; [now left |].
    match goal with |- context [if ?b then _ else _] => destruct b end;
      [right | left]; reflexivity.
Qed.

(* ===================================================================== *)
(** * The live state machine, one call at a time *)
(* ===================================================================== *)

Section LiveStep.

Context {Image : Type}.
Implicit Types (st : CameraState Image) (inp : FrameInput Image) (img : Image).
Implicit Types (evs : list (Event Image)) (camera_id : string).

Lemma count_reports_app evs1 evs2 :
  count_reports (evs1 ++ evs2) = (count_reports evs1 + count_reports evs2)%nat.
Proof. unfold count_reports. now rewrite filter_app, length_app. Qed.

Lemma post_snapshots_app evs1 evs2 :
  post_snapshots (evs1 ++ evs2) = post_snapshots evs1 ++ post_snapshots evs2.
Proof. unfold post_snapshots. apply omap_app. Qed.

Lemma pre_snapshots_quiet tag (buf : list Image) raises :
  count_reports (pre_snapshots tag buf raises) = 0%nat
  /\ post_snapshots (pre_snapshots tag buf raises) = [].
Proof.
  unfold pre_snapshots.
  generalize (match raises with
              | Some k => take k (last_n PRE_SNAPSHOT_COUNT buf)
              | None => last_n PRE_SNAPSHOT_COUNT buf
              end).
  intros l. unfold count_reports, post_snapshots.
  assert (forall (f : nat -> nat) ,
            length (filter is_report (imap (fun idx pre_img => PreSnapshot tag (f idx) pre_img) l)) = 0%nat
            /\ omap (fun e : Event Image => match e with
                                  | PostSnapshot t i img => Some (t, i, img)
                                  | _ => None
                                  end)
                 (imap (fun idx pre_img => PreSnapshot tag (f idx) pre_img) l) = []) as H.
  { induction l as [| x l IH]; intros f; [split; reflexivity |].
    simpl. rewrite filter_cons. simpl. apply (IH (f ∘ S)). }
  apply (H id).
Qed.

Lemma post_capture_spec st img ok :
  let sp := bool_decide (is_Some (current_incident_tag st))
            && (0 <? post_capture_remaining st)%Z && ok in
  let st' := (post_capture st img ok).1 in
  accident_counter st' = accident_counter st
  /\ frame_buffer st' = frame_buffer st
  /\ candidate_frames st' = candidate_frames st
  /\ last_alert_time st' = last_alert_time st
  /\ current_incident_tag st' = current_incident_tag st
  /\ post_capture_remaining st'
     = (if sp then post_capture_remaining st - 1 else post_capture_remaining st)%Z
  /\ post_capture_counter st'
     = (if sp then post_capture_counter st + 1 else post_capture_counter st)%Z
  /\ (post_capture st img ok).2
     = (if sp then match current_incident_tag st with
                   | Some t => [PostSnapshot t (post_capture_counter st) img]
                   | None => []
                   end
        else []).
Proof.
  unfold post_capture.
  destruct (current_incident_tag st) as [tag |] eqn:Etag;
    destruct (0 <? post_capture_remaining st)%Z; destruct ok; simpl;
    rewrite ?Etag; repeat split; reflexivity.
Qed.

(** [on_frame], field by field. *)
Lemma on_frame_spec camera_id st img inp :
  let c := confirms st inp in
  let done := c && completed (handle_reply (backend inp)) in
  let sp := saves_post st inp in
  let st' := (on_frame camera_id st img inp).1.1 in
  let evs := (on_frame camera_id st img inp).2 in
  accident_counter st'
  = (if done then 0 else if frame_flagged inp then accident_counter st + 1 else 0)%Z
  /\ candidate_frames st'
     = (if done then []
        else if frame_flagged inp
             then deque_append CANDIDATE_FRAMES_MAXLEN (candidate_frames st)
                    (frame_candidate img inp)
             else candidate_frames st)
  /\ last_alert_time st' = (if done then now_ts inp else last_alert_time st)
  /\ frame_buffer st' = deque_append FRAME_BUFFER_SIZE (frame_buffer st) img
  /\ post_capture_remaining st'
     = (if c then POST_CAPTURE_FRAMES
        else if sp then post_capture_remaining st - 1 else post_capture_remaining st)%Z
  /\ post_capture_counter st'
     = (if c then 0
        else if sp then post_capture_counter st + 1 else post_capture_counter st)%Z
  /\ current_incident_tag st'
     = (if c then Some (mkTag camera_id (Py.int (now_ts inp)))
        else current_incident_tag st)
  /\ count_reports evs = (if c then 1 else 0)%nat
  /\ post_snapshots evs
     = (if sp then match current_incident_tag st with
                   | Some t => [(t, post_capture_counter st, img)]
                   | None => []
                   end
        else [])
  /\ (on_frame camera_id st img inp).1.2 = response_of st img inp
  /\ (c = true ->
      exists url,
        last evs = Some (BackendSend camera_id (reported_best st img inp) url)
        /\ (main_write_ok inp = true ->
            In (MainSnapshot (mkTag camera_id (Py.int (now_ts inp))) (main_uuid inp)
                  (annotated_img_final (reported_best st img inp))) evs)).
Proof.
  unfold on_frame, response_of, reported_best, confirms, reaches_threshold,
    saves_post, frame_flagged, frame_candidate.
  generalize (live_score (detections inp)). intros sc.
  match goal with
  | |- context [post_capture ?s img (post_write_ok inp)] =>
      pose proof (post_capture_spec s img (post_write_ok inp)) as Hpc;
      destruct (post_capture s img (post_write_ok inp)) as [st2 pe]
  end.
  cbn [fst snd accident_counter candidate_frames last_alert_time frame_buffer
       post_capture_remaining post_capture_counter current_incident_tag] in Hpc.
  destruct Hpc as (E1 & E2 & E3 & E4 & E5 & E6 & E7 & E8).
  set (sp := bool_decide (is_Some (current_incident_tag st))
             && (0 <? post_capture_remaining st)%Z && post_write_ok inp) in *.
  assert (count_reports pe = 0%nat /\
          post_snapshots pe = (if sp then match current_incident_tag st with
                                          | Some t => [(t, post_capture_counter st, img)]
                                          | None => []
                                          end else [])) as [P1 P2].
  { rewrite E8. destruct sp; [destruct (current_incident_tag st) |]; split; reflexivity. }
  clearbody sp. clear E8.
  unfold accumulate.
  destruct (fs_accident_detected_frame sc) eqn:Eflag;
    cbn [accident_counter last_alert_time andb negb]; rewrite ?E1, ?E4.
  - destruct (ACCIDENT_CONFIRM_FRAMES <=? accident_counter st + 1)%Z eqn:Ethr;
      cbn [andb negb fst snd accident_counter candidate_frames last_alert_time
           frame_buffer post_capture_remaining post_capture_counter
           current_incident_tag];
      [| rewrite ?E2, ?E3, ?E5, ?E6, ?E7; repeat split; assumption || discriminate].
    destruct (in_cooldown (last_alert_time st) (now_ts inp)) eqn:Ecd;
      cbn [andb negb fst snd accident_counter candidate_frames last_alert_time
           frame_buffer post_capture_remaining post_capture_counter
           current_incident_tag];
      [rewrite ?E2, ?E3, ?E5, ?E6, ?E7; repeat split; assumption || discriminate |].
    unfold finalize.
    cbn [fst snd accident_counter candidate_frames last_alert_time
         frame_buffer post_capture_remaining post_capture_counter
         current_incident_tag].
    rewrite !count_reports_app, !post_snapshots_app, P1, P2.
    rewrite (proj1 (pre_snapshots_quiet _ _ _)), (proj2 (pre_snapshots_quiet _ _ _)).
    rewrite ?E1, ?E2, ?E3, ?E4.
    destruct (completed (handle_reply (backend inp))); destruct (main_write_ok inp);
      cbn [fst snd accident_counter candidate_frames last_alert_time
           frame_buffer post_capture_remaining post_capture_counter
           current_incident_tag];
      rewrite ?app_nil_r; repeat split; try reflexivity;
      intros _; eexists; (split; [rewrite !last_app; reflexivity |]);
      intros Hw; try discriminate;
      rewrite !in_app_iff; right; right; left; now left.
  - cbn [Z.leb]. change (ACCIDENT_CONFIRM_FRAMES <=? 0)%Z with false.
    cbn [andb negb fst snd accident_counter candidate_frames last_alert_time
         frame_buffer post_capture_remaining post_capture_counter
         current_incident_tag].
    rewrite ?E2, ?E3, ?E5, ?E6, ?E7; repeat split; assumption || discriminate.
Qed.

Lemma step_undecodable camera_id st inp :
  decoded inp = None ->
  step_state camera_id st inp = st /\ step_events camera_id st inp = []
  /\ step_response camera_id st inp
     = {| message := "Could not decode frame.";
          accidents_detected := 0; incident_ids := [] |}.
Proof.
  intros H. unfold step_state, step_events, step_response, live_step.
  now rewrite H.
Qed.

Lemma step_decoded camera_id st inp img :
  decoded inp = Some img ->
  step_state camera_id st inp = (on_frame camera_id st img inp).1.1
  /\ step_events camera_id st inp = (on_frame camera_id st img inp).2
  /\ step_response camera_id st inp = (on_frame camera_id st img inp).1.2.
Proof.
  intros H. unfold step_state, step_events, step_response, live_step.
  now rewrite H.
Qed.

Lemma run_cons camera_id st inp inps :
  run_state camera_id st (inp :: inps)
  = run_state camera_id (step_state camera_id st inp) inps
  /\ run_events camera_id st (inp :: inps)
     = step_events camera_id st inp
       ++ run_events camera_id (step_state camera_id st inp) inps.
Proof.
  unfold run_state, run_events, step_state, step_events. simpl.
  destruct (live_step camera_id st inp) as [[st1 r] ev]. simpl.
  destruct (run camera_id st1 inps) as [[st2 rs] ev']. split; reflexivity.
Qed.


Lemma run_app camera_id inps1 : forall st inps2,
  run_state camera_id st (inps1 ++ inps2)
  = run_state camera_id (run_state camera_id st inps1) inps2
  /\ run_events camera_id st (inps1 ++ inps2)
     = run_events camera_id st inps1
       ++ run_events camera_id (run_state camera_id st inps1) inps2.
Proof.
  induction inps1 as [| inp inps1 IH]; intros st inps2.
  - split; reflexivity.
  - rewrite <- app_comm_cons.
    destruct (run_cons camera_id st inp (inps1 ++ inps2)) as [-> ->].
    destruct (run_cons camera_id st inp inps1) as [-> ->].
    destruct (IH (step_state camera_id st inp) inps2) as [-> ->].
    split; [reflexivity | now rewrite app_assoc].
Qed.

(** What a call does to the fields the confirmation logic reads. *)
Lemma step_streak camera_id st inp :
  let st' := step_state camera_id st inp in
  match decoded inp with
  | None =>
      st' = st /\ count_reports (step_events camera_id st inp) = 0%nat
  | Some img =>
      let done := confirms st inp && completed (handle_reply (backend inp)) in
      accident_counter st'
      = (if done then 0 else if frame_flagged inp then accident_counter st + 1 else 0)%Z
      /\ last_alert_time st' = (if done then now_ts inp else last_alert_time st)
      /\ count_reports (step_events camera_id st inp)
         = (if confirms st inp then 1 else 0)%nat
  end.
Proof.
  destruct (decoded inp) as [img |] eqn:E.
  - destruct (step_decoded camera_id st inp img E) as (-> & -> & _).
    pose proof (on_frame_spec camera_id st img inp) as H. cbv zeta in H.
    intuition.
  - destruct (step_undecodable camera_id st inp E) as (-> & -> & _). now split.
Qed.

Lemma confirms_false_below st inp :
  (accident_counter st + 1 < ACCIDENT_CONFIRM_FRAMES)%Z -> confirms st inp = false.
Proof.
  intros H. unfold confirms, reaches_threshold.
  destruct (Z.leb_spec ACCIDENT_CONFIRM_FRAMES (accident_counter st + 1)); [lia |].
  now rewrite andb_false_r.
Qed.

Lemma confirms_false_clear st inp : frame_flagged inp = false -> confirms st inp = false.
Proof. intros H. unfold confirms, reaches_threshold. now rewrite H. Qed.

(** A streak that stays below the threshold reports nothing. *)
Lemma streak_below_threshold camera_id inps : forall st,
  Forall flagged_frame inps ->
  (accident_counter st + Z.of_nat (length inps) < ACCIDENT_CONFIRM_FRAMES)%Z ->
  count_reports (run_events camera_id st inps) = 0%nat
  /\ accident_counter (run_state camera_id st inps)
     = (accident_counter st + Z.of_nat (length inps))%Z
  /\ last_alert_time (run_state camera_id st inps) = last_alert_time st.
Proof.
  induction inps as [| inp inps IH]; intros st Hfl Hlen.
  - unfold run_state, run_events. simpl. repeat split. lia.
  - apply Forall_cons in Hfl as [[[img Himg] Hflag] Hfl].
    destruct (run_cons camera_id st inp inps) as [-> ->].
    pose proof (step_streak camera_id st inp) as Hs. rewrite Himg in Hs.
    cbv zeta in Hs. simpl length in Hlen.
    rewrite (confirms_false_below st inp) in Hs by lia.
    rewrite Hflag in Hs. simpl in Hs. destruct Hs as (Hc & Hl & Hr).
    destruct (IH (step_state camera_id st inp) Hfl) as (IH1 & IH2 & IH3); [lia |].
    rewrite count_reports_app, Hr, IH1, IH2, IH3, Hc, Hl. simpl length.
    repeat split. lia.
Qed.

(** A frame that is not flagged, or does not decode, reports nothing. *)
Lemma clear_frame_quiet camera_id st inp :
  clear_frame inp -> count_reports (step_events camera_id st inp) = 0%nat.
Proof.
  intros Hclear. pose proof (step_streak camera_id st inp) as Hs.
  destruct (decoded inp) as [img |] eqn:E.
  - destruct Hclear as [? | Hflag]; [congruence |].
    cbv zeta in Hs. rewrite (confirms_false_clear st inp Hflag) in Hs. tauto.
  - apply Hs.
Qed.

(** One camera's frames, from a state whose streak counter is 0: a streak
    one short of the threshold and then a frame that is not flagged report
    nothing; a streak of exactly the threshold, its last frame outside the
    cooldown, reports once. *)
Lemma streak_confirmation camera_id st :
  accident_counter st = 0%Z ->
  ACCIDENT_CONFIRM_FRAMES = 3%Z
  /\ (forall inps gap,
      Forall flagged_frame inps ->
      length inps = Z.to_nat (ACCIDENT_CONFIRM_FRAMES - 1) ->
      clear_frame gap ->
      count_reports (run_events camera_id st (inps ++ [gap])) = 0%nat)
  /\ (forall inps final,
      Forall flagged_frame (inps ++ [final]) ->
      length (inps ++ [final]) = Z.to_nat ACCIDENT_CONFIRM_FRAMES ->
      in_cooldown (last_alert_time st) (now_ts final) = false ->
      count_reports (run_events camera_id st (inps ++ [final])) = 1%nat).
Proof.
  intros Hzero. split; [reflexivity | split].
  - intros inps gap Hfl Hlen Hgap.
    destruct (run_app camera_id inps st [gap]) as [_ ->].
    destruct (streak_below_threshold camera_id inps st Hfl) as (H1 & _).
    { rewrite Hzero, Hlen. unfold ACCIDENT_CONFIRM_FRAMES. simpl. lia. }
    destruct (run_cons camera_id (run_state camera_id st inps) gap []) as [_ ->].
    rewrite !count_reports_app, H1, (clear_frame_quiet _ _ _ Hgap). reflexivity.
  - intros inps final Hfl Hlen Hcd.
    apply Forall_app in Hfl as [Hfl Hfinal].
    apply Forall_cons in Hfinal as [[[img Himg] Hflag] _].
    rewrite length_app in Hlen. simpl in Hlen.
    unfold ACCIDENT_CONFIRM_FRAMES in Hlen. simpl in Hlen.
    destruct (run_app camera_id inps st [final]) as [_ ->].
    destruct (streak_below_threshold camera_id inps st Hfl) as (H1 & H2 & H3).
    { rewrite Hzero. unfold ACCIDENT_CONFIRM_FRAMES. lia. }
    destruct (run_cons camera_id (run_state camera_id st inps) final []) as [_ ->].
    pose proof (step_streak camera_id (run_state camera_id st inps) final) as Hs.
    rewrite Himg in Hs. cbv zeta in Hs. destruct Hs as (_ & _ & Hr).
    assert (confirms (run_state camera_id st inps) final = true) as Hc.
    { unfold confirms, reaches_threshold. rewrite Hflag, H2, H3, Hcd, Hzero.
      replace (Z.of_nat (length inps)) with 2%Z by lia. reflexivity. }
    rewrite Hc in Hr. rewrite !count_reports_app, H1, Hr. reflexivity.
Qed.






(** Lines 410-411 reset the counter only.  After a decoded frame that is
    not flagged the streak counter is 0, ["candidate_frames"] is left as it
    was, and nothing is reported. *)
Lemma gap_resets_counter_only camera_id st inp img :
  decoded inp = Some img -> frame_flagged inp = false ->
  accident_counter (step_state camera_id st inp) = 0%Z
  /\ candidate_frames (step_state camera_id st inp) = candidate_frames st
  /\ count_reports (step_events camera_id st inp) = 0%nat.
Proof.
  intros Himg Hflag.
  destruct (step_decoded camera_id st inp img Himg) as (-> & -> & _).
  pose proof (on_frame_spec camera_id st img inp) as H. cbv zeta in H.
  rewrite (confirms_false_clear st inp Hflag), Hflag in H. simpl in H. tauto.
Qed.


(** C4.  When a confirmed incident is finalized and the reporter fails (the
    backend is unreachable or answers with an error status, so that
    [send_incident_to_backend] returns [None]), the request has been made,
    the alert time is the time of the call, the streak counter is 0, the
    pool is empty, and the caller is told of no accident and no incident
    identifier. *)
Theorem reporter_failure_still_resets camera_id st inp img :
  decoded inp = Some img -> confirms st inp = true ->
  reporter_failed (http inp) ->
  let st' := step_state camera_id st inp in
  last_alert_time st' = now_ts inp
  /\ accident_counter st' = 0%Z
  /\ candidate_frames st' = []
  /\ accidents_detected (step_response camera_id st inp) = 0%Z
  /\ incident_ids (step_response camera_id st inp) = []
  /\ count_reports (step_events camera_id st inp) = 1%nat.
Proof.
  intros Himg Hc Hfail st'. subst st'.
  assert (backend inp = ReturnedNone) as Hback.
  { unfold backend. destruct Hfail as [-> | [-> | ->]]; reflexivity. }
  destruct (step_decoded camera_id st inp img Himg) as (-> & -> & ->).
  pose proof (on_frame_spec camera_id st img inp) as H. cbv zeta in H.
  rewrite Hc, Hback in H. simpl in H.
  destruct H as (H1 & H2 & H3 & _ & _ & _ & _ & H8 & _ & H10 & _).
  rewrite H10. unfold response_of. rewrite Hc, Hback. simpl. auto 10.
Qed.

(* ===================================================================== *)
(** * Post-accident capture *)
(* ===================================================================== *)

(** While no further incident is confirmed, the frames that decode and can
    be written are saved under the active tag, numbered on from the running
    index, until the countdown is used up. *)
Lemma post_capture_drain camera_id tag inps : forall st,
  current_incident_tag st = Some tag ->
  (0 <= post_capture_remaining st)%Z ->
  count_reports (run_events camera_id st inps) = 0%nat ->
  let saved := take (Z.to_nat (post_capture_remaining st)) (persistable inps) in
  post_snapshots (run_events camera_id st inps)
  = imap (fun i img => (tag, (post_capture_counter st + Z.of_nat i)%Z, img)) saved
  /\ post_capture_remaining (run_state camera_id st inps)
     = (post_capture_remaining st - Z.of_nat (length saved))%Z
  /\ post_capture_counter (run_state camera_id st inps)
     = (post_capture_counter st + Z.of_nat (length saved))%Z
  /\ current_incident_tag (run_state camera_id st inps) = Some tag.
Proof.
  induction inps as [| inp inps IH]; intros st Htag Hrem Hquiet saved; subst saved.
  - unfold run_state, run_events, persistable. simpl. rewrite take_nil. simpl.
    repeat split; try assumption; lia.
  - destruct (run_cons camera_id st inp inps) as [Es Ee]. rewrite Es, Ee.
    rewrite Ee, count_reports_app in Hquiet.
    assert (count_reports (step_events camera_id st inp) = 0%nat) as Hq1 by lia.
    assert (count_reports (run_events camera_id (step_state camera_id st inp) inps) = 0%nat)
      as Hq2 by lia.
    rewrite post_snapshots_app.
    change (persistable (inp :: inps))
      with (match (if post_write_ok inp then decoded inp else None) with
            | Some y => y :: persistable inps
            | None => persistable inps
            end).
    destruct (decoded inp) as [img |] eqn:Himg.
    + destruct (step_decoded camera_id st inp img Himg) as (Hs & He & _).
      pose proof (on_frame_spec camera_id st img inp) as H. cbv zeta in H.
      rewrite <- Hs, <- He in H.
      destruct H as (_ & _ & _ & _ & H5 & H6 & H7 & H8 & H9 & _).
      assert (confirms st inp = false) as Hc.
      { destruct (confirms st inp); [rewrite Hq1 in H8; discriminate | reflexivity]. }
      rewrite Hc in H5, H6, H7. rewrite H9, Htag. clear H8 H9.
      unfold saves_post in *. rewrite Htag in *.
      assert (bool_decide (is_Some (Some tag)) = true) as Hb
          by (apply bool_decide_eq_true; eauto).
      rewrite Hb in *. cbn [andb] in *.
      destruct (Z.ltb_spec 0 (post_capture_remaining st)) as [Hpos | Hzero];
        cbn [andb] in *.
      * destruct (post_write_ok inp); cbn [andb] in *.
        -- destruct (IH (step_state camera_id st inp)) as (I1 & I2 & I3 & I4);
             [congruence | lia | assumption |].
           rewrite I1, I2, I3, I4, H5, H6.
           replace (Z.to_nat (post_capture_remaining st))
             with (S (Z.to_nat (post_capture_remaining st - 1))) by lia.
           rewrite firstn_cons. cbn [imap length app].
           repeat split; try lia.
           f_equal; [do 2 f_equal; lia |].
           apply imap_ext. intros i x _. simpl. f_equal. f_equal. lia.
        -- destruct (IH (step_state camera_id st inp)) as (I1 & I2 & I3 & I4);
             [congruence | lia | assumption |].
           rewrite I1, I2, I3, I4, H5, H6. repeat split.
      * destruct (IH (step_state camera_id st inp)) as (I1 & I2 & I3 & I4);
          [congruence | lia | assumption |].
        rewrite I1, I2, I3, I4, H5, H6.
        replace (Z.to_nat (post_capture_remaining st)) with 0%nat by lia.
        rewrite !take_0. simpl. repeat split.
    + destruct (step_undecodable camera_id st inp Himg) as (E1 & E2 & _).
      rewrite E1 in *. rewrite E2.
      assert ((if post_write_ok inp then None else None) = @None Image) as ->
          by now destruct (post_write_ok inp).
      simpl. apply IH; assumption.
Qed.

Lemma POST_CAPTURE_FRAMES_value : POST_CAPTURE_FRAMES = 25%Z.
Proof. reflexivity. Qed.

(** C9 (as the code has it).  After a call that confirms an incident, and as
    long as no further incident is confirmed, the next
    [POST_CAPTURE_FRAMES] frames that decode and can be written, and no
    others, are saved as post-accident evidence under that incident's tag,
    numbered 0, 1, 2, ... in arrival order; the countdown goes down by one
    for each of them. *)
Theorem post_capture_after_confirmation camera_id st inp img inps :
  decoded inp = Some img -> confirms st inp = true ->
  let st1 := step_state camera_id st inp in
  let tag := mkTag camera_id (Py.int (now_ts inp)) in
  let saved := take (Z.to_nat POST_CAPTURE_FRAMES) (persistable inps) in
  count_reports (run_events camera_id st1 inps) = 0%nat ->
  current_incident_tag st1 = Some tag
  /\ post_capture_remaining st1 = POST_CAPTURE_FRAMES
  /\ post_capture_counter st1 = 0%Z
  /\ post_snapshots (run_events camera_id st1 inps)
     = imap (fun i img => (tag, Z.of_nat i, img)) saved
  /\ post_capture_remaining (run_state camera_id st1 inps)
     = (POST_CAPTURE_FRAMES - Z.of_nat (length saved))%Z
  /\ current_incident_tag (run_state camera_id st1 inps) = Some tag
  /\ (Z.of_nat (length saved) <= POST_CAPTURE_FRAMES)%Z
  /\ ((POST_CAPTURE_FRAMES <= Z.of_nat (length (persistable inps)))%Z ->
      Z.of_nat (length saved) = POST_CAPTURE_FRAMES).
Proof.
  intros Himg Hc st1 tag saved Hquiet.
  destruct (step_decoded camera_id st inp img Himg) as (Hs & _ & _).
  pose proof (on_frame_spec camera_id st img inp) as H. cbv zeta in H.
  rewrite <- Hs in H. fold st1 in H. rewrite Hc in H.
  destruct H as (_ & _ & _ & _ & H5 & H6 & H7 & _).
  destruct (post_capture_drain camera_id tag inps st1 H7) as (D1 & D2 & D3 & D4);
    [rewrite H5, POST_CAPTURE_FRAMES_value; lia | assumption |].
  rewrite H5, H6 in *. fold saved in D1, D2, D3.
  split_and!; try assumption; try reflexivity.
  - subst saved. rewrite length_take, POST_CAPTURE_FRAMES_value. lia.
  - intros Hlen. subst saved. rewrite length_take.
    rewrite POST_CAPTURE_FRAMES_value in *. lia.
Qed.

(* ===================================================================== *)
(** * The candidate pool is a bounded FIFO *)
(* ===================================================================== *)

Lemma deque_append_length {A} (n : nat) (dq : list A) (x : A) :
  (length dq <= n)%nat -> (length (deque_append n dq x) <= n)%nat.
Proof.
  intros H. unfold deque_append.
  destruct (Nat.ltb_spec n (length (dq ++ [x]))) as [Hlt | Hge].
  - rewrite length_drop, length_app. simpl. lia.
  - assumption.
Qed.

Lemma deque_append_last_n {A} (n : nat) (dq : list A) (x : A) :
  (length dq <= n)%nat -> deque_append n dq x = last_n n (dq ++ [x]).
Proof.
  intros H. unfold deque_append, last_n.
  destruct (Nat.ltb_spec n (length (dq ++ [x]))) as [Hlt | Hge];
    rewrite length_app in *; simpl in *.
  - replace (length dq + 1 - n)%nat with 1%nat by lia. reflexivity.
  - replace (length dq + 1 - n)%nat with 0%nat by lia. reflexivity.
Qed.

Lemma last_n_length {A} (n : nat) (l : list A) : (length (last_n n l) <= n)%nat.
Proof. unfold last_n. rewrite length_drop. lia. Qed.

Lemma last_n_short {A} (n : nat) (l : list A) : (length l <= n)%nat -> last_n n l = l.
Proof.
  intros H. unfold last_n. replace (length l - n)%nat with 0%nat by lia. reflexivity.
Qed.

Lemma last_n_app_l {A} (n : nat) (l l' : list A) :
  last_n n (last_n n l ++ l') = last_n n (l ++ l').
Proof.
  destruct (Nat.le_gt_cases (length l) n) as [Hle | Hgt].
  - now rewrite (last_n_short n l).
  - unfold last_n. rewrite !length_app, length_drop.
    replace (length l - (length l - n) + length l' - n)%nat with (length l')%nat by lia.
    replace (length l + length l' - n)%nat with ((length l - n) + length l')%nat by lia.
    rewrite <- drop_drop. f_equal. rewrite drop_app_le by lia. reflexivity.
Qed.

(** While nothing is reported the pool is the last
    [CANDIDATE_FRAMES_MAXLEN] of the entries ever appended to it. *)
Lemma pool_is_recent camera_id inps : forall st,
  (length (candidate_frames st) <= CANDIDATE_FRAMES_MAXLEN)%nat ->
  count_reports (run_events camera_id st inps) = 0%nat ->
  candidate_frames (run_state camera_id st inps)
  = last_n CANDIDATE_FRAMES_MAXLEN (candidate_frames st ++ flagged_candidates inps).
Proof.
  induction inps as [| inp inps IH]; intros st Hlen Hquiet.
  - unfold run_state, flagged_candidates. simpl. rewrite app_nil_r.
    now rewrite last_n_short.
  - destruct (run_cons camera_id st inp inps) as [Es Ee]. rewrite Es.
    rewrite Ee, count_reports_app in Hquiet.
    change (flagged_candidates (inp :: inps))
      with (match (match decoded inp with
                   | Some img =>
                       if frame_flagged inp then Some (frame_candidate img inp) else None
                   | None => None
                   end) with
            | Some c => c :: flagged_candidates inps
            | None => flagged_candidates inps
            end).
    destruct (decoded inp) as [img |] eqn:Himg.
    + destruct (step_decoded camera_id st inp img Himg) as (Hs & He & _).
      pose proof (on_frame_spec camera_id st img inp) as H. cbv zeta in H.
      rewrite <- Hs, <- He in H. destruct H as (_ & H2 & _ & _ & _ & _ & _ & H8 & _).
      assert (confirms st inp = false) as Hc.
      { destruct (confirms st inp); [rewrite H8 in Hquiet; discriminate | reflexivity]. }
      rewrite Hc in H2. simpl in H2.
      destruct (frame_flagged inp).
      * rewrite IH; [| rewrite H2; now apply deque_append_length | lia].
        rewrite H2, deque_append_last_n by assumption.
        rewrite last_n_app_l, <- app_assoc. reflexivity.
      * rewrite IH; [| rewrite H2; assumption | lia]. now rewrite H2.
    + destruct (step_undecodable camera_id st inp Himg) as (E1 & _ & _).
      rewrite E1 in *. apply IH; [assumption | lia].
Qed.

Lemma step_pool_bounded camera_id st inp :
  (length (candidate_frames st) <= CANDIDATE_FRAMES_MAXLEN)%nat ->
  (length (candidate_frames (step_state camera_id st inp)) <= CANDIDATE_FRAMES_MAXLEN)%nat.
Proof.
  intros Hlen. destruct (decoded inp) as [img |] eqn:Himg.
  - destruct (step_decoded camera_id st inp img Himg) as (-> & _ & _).
    pose proof (on_frame_spec camera_id st img inp) as H. cbv zeta in H.
    destruct H as (_ & -> & _).
    destruct (_ && _); [simpl; lia |].
    destruct (frame_flagged inp); [now apply deque_append_length | assumption].
  - destruct (step_undecodable camera_id st inp Himg) as (-> & _ & _). assumption.
Qed.

Lemma run_pool_bounded camera_id inps : forall st,
  (length (candidate_frames st) <= CANDIDATE_FRAMES_MAXLEN)%nat ->
  (length (candidate_frames (run_state camera_id st inps)) <= CANDIDATE_FRAMES_MAXLEN)%nat.
Proof.
  induction inps as [| inp inps IH]; intros st Hlen; [assumption |].
  destruct (run_cons camera_id st inp inps) as [-> _].
  apply IH. now apply step_pool_bounded.
Qed.

(** C10.  The candidate pool never holds more than 15 entries: the bound
    holds initially and every call keeps it; an append to a full pool drops
    the oldest entry.  So when a call finalizes an incident, the frame it
    reports is the selector's choice among the last 15 entries appended since
    the pool was last emptied, however many flagged frames there were. *)
Theorem candidate_pool_bounded_fifo camera_id :
  CANDIDATE_FRAMES_MAXLEN = 15%nat
  /\ (forall inps,
      (length (candidate_frames (run_state camera_id (@initial_state Image) inps))
       <= CANDIDATE_FRAMES_MAXLEN)%nat)
  /\ (forall st inp,
      (length (candidate_frames st) <= CANDIDATE_FRAMES_MAXLEN)%nat ->
      (length (candidate_frames (step_state camera_id st inp))
       <= CANDIDATE_FRAMES_MAXLEN)%nat)
  /\ (forall (dq : list (Candidate Image)) c,
      (length dq <= CANDIDATE_FRAMES_MAXLEN)%nat ->
      deque_append CANDIDATE_FRAMES_MAXLEN dq c
      = last_n CANDIDATE_FRAMES_MAXLEN (dq ++ [c]))
  /\ (forall st inps inp img,
      (length (candidate_frames st) <= CANDIDATE_FRAMES_MAXLEN)%nat ->
      count_reports (run_events camera_id st inps) = 0%nat ->
      decoded inp = Some img ->
      confirms (run_state camera_id st inps) inp = true ->
      let pool :=
        last_n CANDIDATE_FRAMES_MAXLEN
          (candidate_frames st ++ flagged_candidates (inps ++ [inp])) in
      exists best url,
        max_by_key pool = Some best
        /\ last (step_events camera_id (run_state camera_id st inps) inp)
           = Some (BackendSend camera_id
                     {| best_severity := c_severity best;
                        best_victims := c_victims_estimated best;
                        best_collision := c_collision_detected best;
                        best_person_count := c_person_count best;
                        best_vehicle_type := c_primary_vehicle_type best;
                        annotated_img_final := c_annotated_img best |} url)).
Proof.
  split_and!.
  - reflexivity.
  - intros inps. apply run_pool_bounded. simpl. lia.
  - intros st inp. apply step_pool_bounded.
  - intros dq c. apply deque_append_last_n.
  - intros st inps inp img Hlen Hquiet Himg Hc pool.
    destruct (step_decoded camera_id (run_state camera_id st inps) inp img Himg)
      as (_ & -> & _).
    pose proof (on_frame_spec camera_id (run_state camera_id st inps) img inp) as H.
    cbv zeta in H. destruct H as (_ & _ & _ & _ & _ & _ & _ & _ & _ & _ & H).
    destruct (H Hc) as (url & Hlast & _).
    assert (frame_flagged inp = true) as Hflag.
    { unfold confirms, reaches_threshold in Hc.
      now repeat (apply andb_true_iff in Hc as [Hc _]). }
    assert (deque_append CANDIDATE_FRAMES_MAXLEN
              (candidate_frames (run_state camera_id st inps)) (frame_candidate img inp)
            = pool) as Hpool.
    { rewrite deque_append_last_n by now apply run_pool_bounded.
      rewrite (pool_is_recent camera_id inps st Hlen Hquiet), last_n_app_l.
      subst pool. unfold flagged_candidates. rewrite omap_app, app_assoc. simpl.
      now rewrite Himg, Hflag. }
    unfold reported_best in Hlast. rewrite Hpool in Hlast.
    destruct (max_by_key pool) as [best |] eqn:Hbest.
    + exists best, url. split; [reflexivity |].
      rewrite Hlast. unfold choose_best. now rewrite Hbest.
    + exfalso. rewrite <- Hpool in Hbest. unfold deque_append in Hbest.
      destruct (candidate_frames (run_state camera_id st inps)) as [| c0 [| c1 l]];
        simpl in Hbest; try discriminate.
      destruct (CANDIDATE_FRAMES_MAXLEN <? _)%nat; simpl in Hbest; discriminate.
Qed.

End LiveStep.

(* ===================================================================== *)
(** * The candidate selector *)
(* ===================================================================== *)

Section Selector.

Context {Image : Type}.
Implicit Types (c best : Candidate Image) (pool : list (Candidate Image)).

Lemma lex_le_refl k : lex_le k k.
Proof. right. split; [reflexivity | lra]. Qed.

Lemma lex_lt_le k1 k2 : lex_lt k1 k2 -> lex_le k1 k2.
Proof. unfold lex_lt, lex_le. intros [H | [H1 H2]]; [now left | right; split; [assumption | lra]]. Qed.

Lemma lex_le_lt_trans k1 k2 k3 : lex_le k1 k2 -> lex_lt k2 k3 -> lex_lt k1 k3.
Proof.
  unfold lex_lt, lex_le. intros [H | [H1 H2]] [H' | [H1' H2']];
    [left; lia | left; lia | left; lia | right; split; [congruence | lra]].
Qed.

Lemma lex_not_lt_le k1 k2 : ~ lex_lt k1 k2 -> lex_le k2 k1.
Proof.
  unfold lex_lt, lex_le. intros H.
  destruct (Z.lt_trichotomy k1.1 k2.1) as [Hlt | [Heq | Hgt]]; [tauto | | now left].
  right. split; [congruence |].
  destruct (Qlt_le_dec k1.2 k2.2); [tauto | assumption].
Qed.

Lemma key_gt_lex x best :
  rank_stored x -> rank_stored best ->
  key_gt x best = true <-> lex_lt (candidate_key best) (candidate_key x).
Proof.
  unfold rank_stored, key_gt, lex_lt, candidate_key. simpl. intros -> ->.
  destruct (Z.eqb_spec (severity_order (c_severity x)) (severity_order (c_severity best)))
    as [E | E].
  - destruct (Py_gt_spec (c_overlap_ratio x) (c_overlap_ratio best)).
    + split; [right; split; [congruence | assumption] | reflexivity].
    + split; [discriminate | intros [H | [_ H]]; [lia | tauto]].
  - rewrite Z.ltb_lt. split; [now left | intros [H' | [H' _]]; [lia | congruence]].
Qed.

Lemma max_fold_first_maximum rest : forall seen best,
  Forall rank_stored seen -> Forall rank_stored rest ->
  first_maximum seen best ->
  first_maximum (seen ++ rest)
    (fold_left (fun best x => if key_gt x best then x else best) rest best).
Proof.
  induction rest as [| x rest IH]; intros seen best Hseen Hrest Hinv; simpl.
  - now rewrite app_nil_r.
  - replace (seen ++ x :: rest) with ((seen ++ [x]) ++ rest)
      by now rewrite <- app_assoc.
    apply Forall_cons in Hrest as [Hx Hrest].
    destruct Hinv as (i & Hi & Hle & Hlt).
    assert (rank_stored best) as Hb.
    { eapply Forall_forall in Hseen; [eassumption |].
      apply list_elem_of_lookup. eauto. }
    apply IH; [apply Forall_app; split; [assumption | now constructor] | assumption |].
    pose proof (key_gt_lex x best Hx Hb) as Hkey.
    destruct (key_gt x best);
      [assert (lex_lt (candidate_key best) (candidate_key x)) as Hgt by now apply Hkey
      |assert (~ lex_lt (candidate_key best) (candidate_key x)) as Hngt
         by (intros H; apply Hkey in H; discriminate)]; clear Hkey.
    + exists (length seen). split; [| split].
      * now rewrite lookup_app_r, Nat.sub_diag by lia.
      * intros j c Hj. apply lookup_app_Some in Hj as [Hj | [Hge Hj]].
        -- apply lex_lt_le. eapply lex_le_lt_trans; eauto.
        -- apply list_lookup_singleton_Some in Hj as [_ <-]. apply lex_le_refl.
      * intros j c Hjl Hj. rewrite lookup_app_l in Hj by assumption.
        eapply lex_le_lt_trans; eauto.
    + exists i. split; [| split].
      * apply lookup_app_l_Some. assumption.
      * intros j c Hj. apply lookup_app_Some in Hj as [Hj | [Hge Hj]].
        -- eauto.
        -- apply list_lookup_singleton_Some in Hj as [_ <-].
           now apply lex_not_lt_le.
      * intros j c Hji Hj.
        apply lookup_lt_Some in Hi.
        rewrite lookup_app_l in Hj by lia. eauto.
Qed.

Lemma frame_candidate_rank_stored img (inp : FrameInput Image) :
  rank_stored (frame_candidate img inp).
Proof. reflexivity. Qed.

Lemma deque_append_Forall {A} (P : A -> Prop) (n : nat) (dq : list A) (x : A) :
  Forall P dq -> P x -> Forall P (deque_append n dq x).
Proof.
  intros Hdq Hx. unfold deque_append.
  assert (Forall P (dq ++ [x])) as H by (apply Forall_app; split; [assumption | now constructor]).
  destruct (n <? length (dq ++ [x]))%nat; [now apply Forall_drop | assumption].
Qed.

(** Every entry a camera's pool ever holds stores the rank of its severity. *)
Lemma run_rank_stored camera_id (inps : list (FrameInput Image)) : forall st,
  Forall rank_stored (candidate_frames st) ->
  Forall rank_stored (candidate_frames (run_state camera_id st inps)).
Proof.
  induction inps as [| inp inps IH]; intros st Hst; [assumption |].
  destruct (run_cons camera_id st inp inps) as [-> _]. apply IH.
  destruct (decoded inp) as [img |] eqn:Himg.
  - destruct (step_decoded camera_id st inp img Himg) as (-> & _ & _).
    pose proof (on_frame_spec camera_id st img inp) as H. cbv zeta in H.
    destruct H as (_ & -> & _).
    destruct (_ && _); [constructor |].
    destruct (frame_flagged inp); [| assumption].
    apply deque_append_Forall; [assumption | apply frame_candidate_rank_stored].
  - destruct (step_undecodable camera_id st inp Himg) as (-> & _ & _). assumption.
Qed.

(** C7.  On a non-empty pool the selector returns an entry of the pool whose
    key (severity rank 1..4 for MINOR < MEDIUM < MAJOR < CRITICAL, then
    overlap ratio) is at least the key of every entry and strictly greater
    than the key of every earlier entry: the first-seen of the entries with
    the greatest key.  [choose_best] reports that entry.  From (MEDIUM, 0.2),
    (CRITICAL, 0.1), (MAJOR, 0.9) the CRITICAL entry is chosen.  The entries
    are taken to store the rank of their severity, as all entries of a
    camera's pool do. *)
Theorem candidate_selector_first_maximum :
  (forall pool,
     Forall rank_stored pool -> pool <> [] ->
     exists best,
       max_by_key pool = Some best
       /\ first_maximum pool best
       /\ forall sc img plotted,
            choose_best pool sc img plotted
            = {| best_severity := c_severity best;
                 best_victims := c_victims_estimated best;
                 best_collision := c_collision_detected best;
                 best_person_count := c_person_count best;
                 best_vehicle_type := c_primary_vehicle_type best;
                 annotated_img_final := c_annotated_img best |})
  /\ (forall e1 e2 e3 : Candidate Image,
     Forall rank_stored [e1; e2; e3] ->
     c_severity e1 = MEDIUM -> c_overlap_ratio e1 == 2 # 10 ->
     c_severity e2 = CRITICAL -> c_overlap_ratio e2 == 1 # 10 ->
     c_severity e3 = MAJOR -> c_overlap_ratio e3 == 9 # 10 ->
     max_by_key [e1; e2; e3] = Some e2)
  /\ (forall camera_id (inps : list (FrameInput Image)),
     Forall rank_stored (candidate_frames (run_state camera_id initial_state inps))).
Proof.
  split; [| split]; [| | intros camera_id inps; apply run_rank_stored; constructor].
  - intros [| c rest] Hwf Hne; [congruence |].
    apply Forall_cons in Hwf as [Hc Hrest].
    exists (fold_left (fun best x => if key_gt x best then x else best) rest c).
    split; [reflexivity | split].
    + apply (max_fold_first_maximum rest [c] c); [now constructor | assumption |].
      exists 0%nat. split; [reflexivity | split].
      * intros [| j] c' Hj; [| discriminate]. injection Hj as <-. apply lex_le_refl.
      * intros; lia.
    + reflexivity.
  - intros e1 e2 e3 Hwf S1 _ S2 _ S3 _.
    apply Forall_cons in Hwf as [H1 Hwf]. apply Forall_cons in Hwf as [H2 Hwf].
    apply Forall_cons in Hwf as [H3 _].
    unfold rank_stored in *. rewrite S1 in H1. rewrite S2 in H2. rewrite S3 in H3.
    unfold max_by_key, key_gt. simpl. rewrite H1, H2. simpl. rewrite H2, H3. reflexivity.
Qed.

End Selector.

(** Two CRITICAL entries of equal ratio (1/4 and 2/8): the earlier one is
    chosen. *)
Lemma candidate_selector_first_maximum_witness :
  let e (s : Severity) (o : Q) (img : nat) :=
    mkCandidate s (severity_order s) o 1 1 true (Some "car") img in
  let pool := [e MAJOR (1 # 2) 10%nat; e CRITICAL (1 # 4) 11%nat;
               e CRITICAL (2 # 8) 12%nat; e MEDIUM (9 # 10) 13%nat] in
  (exists best, max_by_key pool = Some best /\ first_maximum pool best
                /\ c_annotated_img best = 11%nat)
  /\ max_by_key [e MEDIUM (2 # 10) 1%nat; e CRITICAL (1 # 10) 2%nat; e MAJOR (9 # 10) 3%nat]
     = Some (e CRITICAL (1 # 10) 2%nat).
Proof.
  intros e pool. split.
  - destruct (proj1 candidate_selector_first_maximum pool) as (best & Hbest & Hmax & _).
    + repeat constructor.
    + discriminate.
    + exists best. split; [assumption | split; [assumption |]].
      cbv in Hbest. injection Hbest as <-. reflexivity.
  - apply (proj1 (proj2 candidate_selector_first_maximum)); try reflexivity.
    repeat constructor.
Defined.

(* ===================================================================== *)
(** * Cameras do not interfere *)
(* ===================================================================== *)

Section Cameras.

Context {Image : Type}.
Implicit Types (st : CameraState Image) (inp : FrameInput Image) (img : Image).
Implicit Types (camera_states : gmap string (CameraState Image)).
Implicit Types (camera_id other : string).

(** A call of [detect_accident] is a step of the called camera's state and
    leaves every other camera's entry as it is. *)
Lemma detect_accident_step camera_id inp camera_states :
  let result := detect_accident camera_id inp camera_states in
  state_of camera_id result.1.1 = step_state camera_id (state_of camera_id camera_states) inp
  /\ result.1.2 = step_response camera_id (state_of camera_id camera_states) inp
  /\ result.2 = step_events camera_id (state_of camera_id camera_states) inp
  /\ forall other, other <> camera_id -> result.1.1 !! other = camera_states !! other.
Proof.
  unfold detect_accident, step_state, step_response, step_events, live_step.
  destruct (decoded inp) as [img |]; [| simpl; auto].
  unfold get_camera_state, state_of.
  destruct (camera_states !! camera_id) as [st |] eqn:E; simpl;
    destruct (on_frame camera_id _ img inp) as [[st' r] evs]; simpl;
    rewrite lookup_insert_eq; simpl; repeat split;
    intros other Hne; rewrite !lookup_insert_ne by congruence; reflexivity.
Qed.

Lemma events_of_app camera_id (l1 l2 : list (string * Event Image)) :
  events_of camera_id (l1 ++ l2) = events_of camera_id l1 ++ events_of camera_id l2.
Proof. unfold events_of. apply omap_app. Qed.

Lemma events_of_cons camera_id (entry : string * Event Image) log :
  events_of camera_id (entry :: log)
  = if decide (entry.1 = camera_id) then entry.2 :: events_of camera_id log
    else events_of camera_id log.
Proof. unfold events_of. simpl. now destruct (decide _). Qed.

Lemma events_of_same camera_id (evs : list (Event Image)) :
  events_of camera_id (map (pair camera_id) evs) = evs.
Proof.
  induction evs as [| e evs IH]; [reflexivity |].
  simpl map. rewrite events_of_cons. simpl.
  destruct (decide (camera_id = camera_id)); [| congruence]. now rewrite IH.
Qed.

Lemma events_of_other camera_id other (evs : list (Event Image)) :
  other <> camera_id -> events_of camera_id (map (pair other) evs) = [].
Proof.
  intros Hne. induction evs as [| e evs IH]; [reflexivity |].
  simpl map. rewrite events_of_cons. simpl.
  destruct (decide (other = camera_id)); [congruence | exact IH].
Qed.

Lemma calls_of_cons camera_id (call : string * FrameInput Image) calls :
  calls_of camera_id (call :: calls)
  = if decide (call.1 = camera_id) then call.2 :: calls_of camera_id calls
    else calls_of camera_id calls.
Proof. unfold calls_of. simpl. now destruct (decide _). Qed.

(** Whatever the interleaving, a camera's state and events are those of its
    own frames processed in order. *)
Lemma serve_project camera_id calls : forall camera_states,
  state_of camera_id (serve camera_states calls).1
  = run_state camera_id (state_of camera_id camera_states) (calls_of camera_id calls)
  /\ events_of camera_id (serve camera_states calls).2
     = run_events camera_id (state_of camera_id camera_states) (calls_of camera_id calls).
Proof.
  induction calls as [| [cid inp] calls IH]; intros camera_states.
  - split; reflexivity.
  - rewrite calls_of_cons. cbn [fst snd]. cbn [serve].
    pose proof (detect_accident_step cid inp camera_states) as Hstep. cbv zeta in Hstep.
    destruct (detect_accident cid inp camera_states) as [[cs1 r] evs].
    cbn [fst snd] in Hstep. destruct Hstep as (Hs & _ & He & Hother).
    specialize (IH cs1). destruct (serve cs1 calls) as [cs2 log].
    cbn [fst snd] in IH |- *. destruct IH as [IHs IHe]. rewrite events_of_app.
    destruct (decide (cid = camera_id)) as [-> | Hne].
    + destruct (run_cons camera_id (state_of camera_id camera_states) inp
                  (calls_of camera_id calls)) as [-> ->].
      rewrite events_of_same, IHs, IHe, Hs, He. split; reflexivity.
    + rewrite events_of_other by assumption.
      assert (state_of camera_id cs1 = state_of camera_id camera_states) as Hsame.
      { unfold state_of. rewrite Hother by congruence. reflexivity. }
      rewrite IHs, IHe, Hsame. split; reflexivity.
Qed.

(** C1.  For every camera of the service, whatever the other cameras send
    in between: if the camera's streak counter is 0 and its frames are
    [ACCIDENT_CONFIRM_FRAMES - 1] (two) accident-flagged frames followed by a
    frame that is not flagged, nothing is reported for it; if they are
    [ACCIDENT_CONFIRM_FRAMES] (three) accident-flagged frames, the last of
    them outside the cooldown, exactly one incident is reported for it. *)
Theorem confirmation_needs_unbroken_streak camera_id camera_states
    (calls : list (string * FrameInput Image)) :
  accident_counter (state_of camera_id camera_states) = 0%Z ->
  let reports := count_reports (events_of camera_id (serve camera_states calls).2) in
  ACCIDENT_CONFIRM_FRAMES = 3%Z
  /\ (forall inps gap,
      calls_of camera_id calls = inps ++ [gap] ->
      Forall flagged_frame inps ->
      length inps = Z.to_nat (ACCIDENT_CONFIRM_FRAMES - 1) ->
      clear_frame gap ->
      reports = 0%nat)
  /\ (forall inps final,
      calls_of camera_id calls = inps ++ [final] ->
      Forall flagged_frame (inps ++ [final]) ->
      length (inps ++ [final]) = Z.to_nat ACCIDENT_CONFIRM_FRAMES ->
      in_cooldown (last_alert_time (state_of camera_id camera_states)) (now_ts final)
      = false ->
      reports = 1%nat).
Proof.
  intros Hzero reports. subst reports.
  destruct (serve_project camera_id calls camera_states) as [_ ->].
  destruct (streak_confirmation camera_id (state_of camera_id camera_states) Hzero)
    as (Hthree & Hgap & Hfull).
  split; [exact Hthree | split].
  - intros inps gap ->. apply Hgap.
  - intros inps final ->. apply Hfull.
Qed.

End Cameras.

(* ===================================================================== *)
(** * The properties on sample streams *)
(* ===================================================================== *)

Lemma hit_flagged id t : flagged_frame (Sample.hit id t).
Proof. split; [eexists; reflexivity | reflexivity]. Qed.

Lemma miss_clear id t : clear_frame (Sample.miss id t).
Proof. right. reflexivity. Qed.

(** Two cameras interleaved: the first sends two flagged frames and a frame
    with no detection, or three flagged frames; the second sends three
    flagged frames. *)
Lemma confirmation_needs_unbroken_streak_witness :
  let other := "ENTRANCE_CAM_2" in
  let short := [(Sample.cam, Sample.hit 1 1000); (other, Sample.hit 10 1000);
                (Sample.cam, Sample.hit 2 1001); (other, Sample.hit 11 1001);
                (Sample.cam, Sample.miss 3 1002); (other, Sample.hit 12 1002)] in
  let full := [(Sample.cam, Sample.hit 1 1000); (other, Sample.miss 10 1000);
               (Sample.cam, Sample.hit 2 1001); (other, Sample.hit 11 1001);
               (Sample.cam, Sample.hit 3 1002)] in
  count_reports (events_of Sample.cam (serve ∅ short).2) = 0%nat
  /\ count_reports (events_of other (serve ∅ short).2) = 1%nat
  /\ count_reports (events_of Sample.cam (serve ∅ full).2) = 1%nat.
Proof.
  intros other short full.
  assert (forall camera_id,
            accident_counter (state_of (Image := nat) camera_id ∅) = 0%Z) as Hzero
    by reflexivity.
  destruct (confirmation_needs_unbroken_streak Sample.cam ∅ short (Hzero _))
    as (_ & Hgap & _).
  destruct (confirmation_needs_unbroken_streak other ∅ short (Hzero _))
    as (_ & _ & Hother).
  destruct (confirmation_needs_unbroken_streak Sample.cam ∅ full (Hzero _))
    as (_ & _ & Hfull).
  split; [| split].
  - apply (Hgap [Sample.hit 1 1000; Sample.hit 2 1001] (Sample.miss 3 1002));
      [reflexivity | repeat constructor; apply hit_flagged | reflexivity
      | apply miss_clear].
  - apply (Hother [Sample.hit 10 1000; Sample.hit 11 1001] (Sample.hit 12 1002));
      [reflexivity | repeat constructor; apply hit_flagged | reflexivity | reflexivity].
  - apply (Hfull [Sample.hit 1 1000; Sample.hit 2 1001] (Sample.hit 3 1002));
      [reflexivity | repeat constructor; apply hit_flagged | reflexivity | reflexivity].
Defined.

(** C2.  The code at a failing input.  A frame showing two cars on each
    other (CRITICAL) is followed by a frame with no detection, and 25 hours
    later by three frames showing a car on a person (MAJOR).  After the frame
    with no detection the streak counter is 0 but the pool still holds the
    entry of the first frame; the incident the later streak confirms is
    reported as CRITICAL, with the annotated image of the frame from before
    the gap. *)
Theorem stale_candidate_survives_gap :
  let crash :=
    Sample.call 1 [Sample.car; mkDetection "car" (9 # 10) (mkBox 2 2 6 6)] 1000
      (Sample.stored 7) in
  let quiet := Sample.miss 2 1001 in
  let later := Sample.hits 3 3 91000 1 in
  let st := run_state Sample.cam initial_state [crash; quiet] in
  let stale := best_of (frame_candidate 1%nat crash) in
  frame_flagged quiet = false
  /\ accident_counter st = 0%Z
  /\ candidate_frames st = [frame_candidate 1%nat crash]
  /\ map (fun inp => fs_severity (live_score (detections inp))) later
     = [MAJOR; MAJOR; MAJOR]
  /\ reports (run_events Sample.cam st later)
     = [(Sample.cam, stale, Some (mkTag Sample.cam 91002, "0f8fad5b"))]
  /\ best_severity stale = CRITICAL
  /\ annotated_img_final stale = 1001%nat.
Proof. vm_compute. repeat split. Qed.



(** The third flagged frame of a streak, with the backend answering with an
    error status. *)
Lemma reporter_failure_still_resets_witness :
  let st := run_state Sample.cam initial_state (Sample.hits 2 1 1000 1) in
  let inp := Sample.call 3 [Sample.car; Sample.person] 1002 StatusRaised in
  last_alert_time (step_state Sample.cam st inp) = 1002
  /\ accident_counter (step_state Sample.cam st inp) = 0%Z
  /\ candidate_frames (step_state Sample.cam st inp) = []
  /\ accidents_detected (step_response Sample.cam st inp) = 0%Z
  /\ incident_ids (step_response Sample.cam st inp) = []
  /\ count_reports (step_events Sample.cam st inp) = 1%nat.
Proof.
  intros st inp.
  apply (reporter_failure_still_resets Sample.cam st inp 3%nat);
    [reflexivity | reflexivity | right; left; reflexivity].
Defined.

(** C9, as stated, fails: with flagged frames arriving every 30 seconds, the
    incident confirmed at time 1060 gets three post-accident files; the third
    of the following frames confirms a new incident, whose tag the files of
    the 22 frames after it carry. *)
Lemma post_capture_cut_short_counterexample :
  let st := run_state Sample.cam initial_state (Sample.hits 2 1 1000 30) in
  let st1 := step_state Sample.cam st (Sample.hit 3 1060) in
  let later := Sample.hits 3 4 1090 30 ++ Sample.hits 22 7 1151 (1 # 5) in
  confirms st (Sample.hit 3 1060) = true
  /\ current_incident_tag st1 = Some (mkTag Sample.cam 1060)
  /\ length (persistable later) = Z.to_nat POST_CAPTURE_FRAMES
  /\ post_snapshots_of (mkTag Sample.cam 1060) (run_events Sample.cam st1 later)
     = [(0%Z, 4%nat); (1%Z, 5%nat); (2%Z, 6%nat)]
  /\ length (post_snapshots_of (mkTag Sample.cam 1150) (run_events Sample.cam st1 later))
     = 22%nat.
Proof. vm_compute. repeat split. Qed.

(** Thirty frames at five per second after a confirmation: the first 25 are
    saved, numbered from 0, and the countdown ends at 0. *)
Lemma post_capture_after_confirmation_witness :
  let st := run_state Sample.cam initial_state (Sample.hits 2 1 1000 1) in
  let inp := Sample.hit 3 1002 in
  let later := Sample.hits 30 4 1003 (1 # 5) in
  let st1 := step_state Sample.cam st inp in
  let tag := mkTag Sample.cam 1002 in
  post_snapshots (run_events Sample.cam st1 later)
  = imap (fun i img => (tag, Z.of_nat i, img)) (seq 4 25)
  /\ post_capture_remaining (run_state Sample.cam st1 later) = 0%Z.
Proof.
  intros st inp later st1 tag.
  destruct (post_capture_after_confirmation Sample.cam st inp 3%nat later)
    as (_ & _ & _ & Hsaved & Hrem & _); [reflexivity | reflexivity | reflexivity |].
  split; [exact Hsaved | exact Hrem].
Defined.

(** Twenty flagged frames suppressed by the cooldown, then a flagged frame
    past it: of the 21 entries appended, the report is chosen among the last
    15, whose first is the plotted image 1010. *)
Lemma candidate_pool_bounded_fifo_witness :
  let st := run_state Sample.cam initial_state (Sample.hits 3 1 1000 1) in
  let inps := Sample.hits 20 4 1003 1 in
  let inp := Sample.hit 24 1100 in
  length (flagged_candidates (inps ++ [inp])) = 21%nat
  /\ (length (candidate_frames (step_state Sample.cam st (Sample.hit 4 1003))) <= 15)%nat
  /\ exists best url,
       max_by_key
         (last_n CANDIDATE_FRAMES_MAXLEN
            (candidate_frames st ++ flagged_candidates (inps ++ [inp]))) = Some best
       /\ c_annotated_img best = 1010%nat
       /\ last (step_events Sample.cam (run_state Sample.cam st inps) inp)
          = Some (BackendSend Sample.cam
                    {| best_severity := c_severity best;
                       best_victims := c_victims_estimated best;
                       best_collision := c_collision_detected best;
                       best_person_count := c_person_count best;
                       best_vehicle_type := c_primary_vehicle_type best;
                       annotated_img_final := c_annotated_img best |} url).
Proof.
  intros st inps inp.
  destruct (candidate_pool_bounded_fifo (Image := nat) Sample.cam)
    as (_ & _ & Hstep & _ & Hfinal).
  split; [reflexivity | split].
  - apply Hstep. vm_compute. lia.
  - destruct (Hfinal st inps inp 24%nat) as (best & url & Hbest & Hlast);
      [vm_compute; lia | reflexivity | reflexivity | reflexivity |].
    exists best, url. split; [exact Hbest | split; [| exact Hlast]].
    vm_compute in Hbest. injection Hbest as <-. reflexivity.
Defined.

(* ===================================================================== *)
(** * More on the geometry helpers *)
(* ===================================================================== *)

Lemma boxes_overlap_sym a b : boxes_overlap a b = boxes_overlap b a.
Proof.
  unfold boxes_overlap.
  rewrite (orb_comm (Py.lt (x_max a) (x_min b))), (orb_comm (Py.lt (y_max a) (y_min b))).
  reflexivity.
Qed.

(** Two boxes overlap when neither lies strictly beyond the other on an
    axis. *)
Lemma boxes_overlap_iff a b :
  boxes_overlap a b = true
  <-> x_min b <= x_max a /\ x_min a <= x_max b
      /\ y_min b <= y_max a /\ y_min a <= y_max b.
Proof.
  unfold boxes_overlap.
  destruct (Py_lt_spec (x_max a) (x_min b)), (Py_lt_spec (x_max b) (x_min a)),
    (Py_lt_spec (y_max a) (y_min b)), (Py_lt_spec (y_max b) (y_min a)); simpl;
    split; try discriminate; try reflexivity; intros; lra.
Qed.

Lemma positive_inter_overlap a b : 0 < inter_area a b -> boxes_overlap a b = true.
Proof.
  intros H. apply boxes_overlap_iff. unfold inter_area in H.
  set (w := Qmax 0 _) in H. set (h := Qmax 0 _) in H.
  assert (0 <= w) by (subst w; qminmax).
  assert (0 <= h) by (subst h; qminmax).
  assert (0 < w) as Hw by nra. assert (0 < h) as Hh by nra.
  subst w h. clear H. revert Hw Hh. qminmax.
Qed.

Lemma any_pair_overlap_pairs boxes :
  any_pair_overlap boxes = true
  <-> exists a b, In (a, b) (pairs boxes) /\ boxes_overlap a b = true.
Proof.
  induction boxes as [| box1 rest IH]; simpl.
  - split; [discriminate | intros (a & b & [] & _)].
  - destruct (existsb (boxes_overlap box1) rest) eqn:E.
    + split; [intros _ | reflexivity].
      apply existsb_exists in E as (b & Hb & Hov).
      exists box1, b. split; [| assumption].
      apply in_app_iff. left. apply in_map_iff. eauto.
    + rewrite IH. split.
      * intros (a & b & Hin & Hov). exists a, b. split; [| assumption].
        apply in_app_iff. now right.
      * intros (a & b & Hin & Hov). apply in_app_iff in Hin as [Hin | Hin].
        -- apply in_map_iff in Hin as (b' & [= <- <-] & Hb').
           assert (existsb (boxes_overlap box1) rest = true) as E'
               by (apply existsb_exists; eauto).
           congruence.
        -- eauto.
Qed.

(** The positions of two lists that are permutations of each other
    correspond one to one. *)
Lemma distinct_positions_perm {A} (l1 l2 : list A) i j a b :
  l1 ≡ₚ l2 -> i <> j -> l1 !! i = Some a -> l1 !! j = Some b ->
  exists i' j', i' <> j' /\ l2 !! i' = Some a /\ l2 !! j' = Some b.
Proof.
  intros Hp Hij Hi Hj. apply Permutation_inj in Hp as (_ & f & Hf & Hl).
  exists (f i), (f j). rewrite <- !Hl. split; [| split; assumption].
  intros E. apply Hij, Hf, E.
Qed.

(** The collision flag: some two boxes at different positions overlap. *)
Lemma any_pair_overlap_positions boxes :
  any_pair_overlap boxes = true
  <-> exists i j a b, i <> j /\ boxes !! i = Some a /\ boxes !! j = Some b
        /\ boxes_overlap a b = true.
Proof.
  rewrite any_pair_overlap_pairs. split.
  - intros (a & b & Hin & Hov). apply pairs_lookup in Hin as (i & j & Hij & Hi & Hj).
    exists i, j, a, b. repeat split; try assumption. lia.
  - intros (i & j & a & b & Hij & Hi & Hj & Hov).
    destruct (Nat.lt_total i j) as [Hlt | [-> | Hgt]]; [| congruence |].
    + exists a, b. split; [| assumption]. apply pairs_lookup. eauto.
    + exists b, a. split; [| now rewrite boxes_overlap_sym]. apply pairs_lookup. eauto.
Qed.

(** X1.  The collision flag of a frame (the double loop of lines 347-355
    and 669-677) is true exactly when two of the kept boxes, at different
    positions of the list, overlap in the sense of [boxes_overlap]: on
    neither axis does one end before the other begins, so boxes that only
    touch do overlap.  The flag does not depend on the order in which the
    detector lists the boxes. *)
Theorem collision_flag_is_order_independent (boxes boxes' : list Box) :
  (any_pair_overlap boxes = true
   <-> exists i j a b, i <> j /\ boxes !! i = Some a /\ boxes !! j = Some b
         /\ x_min b <= x_max a /\ x_min a <= x_max b
         /\ y_min b <= y_max a /\ y_min a <= y_max b)
  /\ (boxes ≡ₚ boxes' -> any_pair_overlap boxes = any_pair_overlap boxes').
Proof.
  split.
  - rewrite any_pair_overlap_positions. split.
    + intros (i & j & a & b & Hij & Hi & Hj & Hov).
      apply boxes_overlap_iff in Hov. exists i, j, a, b. tauto.
    + intros (i & j & a & b & Hij & Hi & Hj & Hov).
      exists i, j, a, b. rewrite boxes_overlap_iff. tauto.
  - intros Hp. apply eq_true_iff_eq. rewrite !any_pair_overlap_positions. split.
    + intros (i & j & a & b & Hij & Hi & Hj & Hov).
      destruct (distinct_positions_perm boxes boxes' i j a b Hp Hij Hi Hj)
        as (i' & j' & ? & ? & ?). exists i', j', a, b. tauto.
    + intros (i & j & a & b & Hij & Hi & Hj & Hov). symmetry in Hp.
      destruct (distinct_positions_perm boxes' boxes i j a b Hp Hij Hi Hj)
        as (i' & j' & ? & ? & ?). exists i', j', a, b. tauto.
Qed.

Lemma iou_sym a b : iou a b == iou b a.
Proof.
  assert (inter_area a b == inter_area b a) as E.
  { unfold inter_area.
    rewrite (Q.min_comm (x_max a)), (Q.max_comm (x_min a)),
      (Q.min_comm (y_max a)), (Q.max_comm (y_min a)). reflexivity. }
  unfold iou. rewrite E. apply Qmult_comp; [reflexivity |].
  apply Qinv_comp. lra.
Qed.

Lemma max_pairwise_iou_perm_le boxes boxes' :
  boxes ≡ₚ boxes' -> max_pairwise_iou boxes <= max_pairwise_iou boxes'.
Proof.
  intros Hp. unfold max_pairwise_iou.
  destruct (qmax_list_attained (pair_ratios boxes)) as [H | (x & Hx & H)].
  - rewrite H. apply qmax_list_nonneg.
  - rewrite H. apply pair_ratios_In in Hx as (i & j & a & b & Hij & Hi & Hj & Ha & Hb & ->).
    destruct (distinct_positions_perm boxes boxes' i j a b Hp) as (i' & j' & Hne & Hi' & Hj');
      [lia | assumption | assumption |].
    destruct (Nat.lt_total i' j') as [Hlt | [-> | Hgt]]; [| congruence |].
    + apply qmax_list_upper, pair_ratios_In. exists i', j', a, b. auto 10.
    + rewrite iou_sym. apply qmax_list_upper, pair_ratios_In.
      exists j', i', b, a. auto 10.
Qed.

(** X2.  [compute_max_overlap_ratio] does not depend on the order of the
    boxes: on a permutation of the list it returns an equal rational. *)
Theorem overlap_ratio_is_order_independent (boxes boxes' : list Box) :
  boxes ≡ₚ boxes' ->
  compute_max_overlap_ratio boxes == compute_max_overlap_ratio boxes'.
Proof.
  intros Hp. rewrite !compute_max_overlap_ratio_spec.
  apply Qle_antisym; apply max_pairwise_iou_perm_le; [assumption | now symmetry].
Qed.

Lemma positive_ratio_collision boxes :
  0 < compute_max_overlap_ratio boxes -> any_pair_overlap boxes = true.
Proof.
  rewrite compute_max_overlap_ratio_spec. unfold max_pairwise_iou. intros Hpos.
  destruct (qmax_list_attained (pair_ratios boxes)) as [H | (x & Hx & H)]; [lra |].
  apply pair_ratios_In in Hx as (i & j & a & b & Hij & Hi & Hj & Ha & Hb & ->).
  apply any_pair_overlap_positions. exists i, j, a, b.
  repeat split; try assumption; [lia |].
  apply positive_inter_overlap.
  pose proof (inter_area_nonneg a b) as Hn.
  destruct (Qlt_le_dec 0 (inter_area a b)) as [? | Hle]; [assumption |].
  rewrite (iou_zero a b) in H by lra. lra.
Qed.

Lemma compute_max_overlap_ratio_bounds boxes :
  0 <= compute_max_overlap_ratio boxes <= 1.
Proof.
  rewrite compute_max_overlap_ratio_spec. unfold max_pairwise_iou.
  destruct (qmax_list_attained (pair_ratios boxes)) as [H | (x & Hx & H)]; [lra |].
  apply pair_ratios_In in Hx as (i & j & a & b & _ & _ & _ & _ & _ & ->).
  pose proof (iou_bounds a b). lra.
Qed.

(** X3.  The two overlap measures of a frame agree in one direction: a
    positive overlap ratio implies the collision flag, so a frame without
    the collision flag has overlap ratio 0. *)
Theorem positive_overlap_ratio_means_collision (boxes : list Box) :
  (0 < compute_max_overlap_ratio boxes -> any_pair_overlap boxes = true)
  /\ (any_pair_overlap boxes = false -> compute_max_overlap_ratio boxes == 0).
Proof.
  split; [apply positive_ratio_collision |].
  intros Hno. pose proof (compute_max_overlap_ratio_bounds boxes) as Hb.
  destruct (Qlt_le_dec 0 (compute_max_overlap_ratio boxes)) as [Hpos | Hle]; [| lra].
  apply positive_ratio_collision in Hpos. congruence.
Qed.

(* ===================================================================== *)
(** * The counting loop *)
(* ===================================================================== *)

Lemma count_of_app {A} (test : A -> bool) (l1 l2 : list A) :
  count_of test (l1 ++ l2) = (count_of test l1 + count_of test l2)%Z.
Proof. unfold count_of. rewrite List.filter_app, length_app. lia. Qed.

Lemma kept_sub boxes : incl (kept boxes) boxes /\ (length (kept boxes) <= length boxes)%nat.
Proof.
  unfold kept. split; [apply List.incl_filter | apply List.filter_length_le].
Qed.

Lemma kept_idemp boxes : kept (kept boxes) = kept boxes.
Proof.
  unfold kept. induction boxes as [| d l IHl]; [reflexivity |]. simpl.
  destruct (negb (Py.lt (score d) CONF_THRESH)) eqn:E; [| assumption].
  simpl. rewrite E. now f_equal.
Qed.

Lemma count_of_cons {A} (test : A -> bool) (x : A) (l : list A) :
  count_of test (x :: l) = ((if test x then 1 else 0) + count_of test l)%Z.
Proof. unfold count_of. simpl. destruct (test x); simpl length; lia. Qed.

Lemma count_of_nonneg {A} (test : A -> bool) (l : list A) : (0 <= count_of test l)%Z.
Proof. unfold count_of. lia. Qed.

Lemma danger_is_vehicle_or_person d :
  is_danger d = is_vehicle d || is_person d.
Proof.
  unfold is_danger, is_vehicle, is_person, danger_class_names, vehicle_classes,
    person_classes.
  apply eq_true_iff_eq. rewrite orb_true_iff, !bool_decide_eq_true.
  rewrite !elem_of_union, !elem_of_singleton. tauto.
Qed.

Lemma vehicle_not_person d : is_vehicle d = true -> is_person d = false.
Proof.
  unfold is_vehicle, is_person, vehicle_classes, person_classes.
  rewrite bool_decide_eq_true, bool_decide_eq_false.
  rewrite !elem_of_union, !elem_of_singleton.
  intros Hv Hp. rewrite Hp in Hv. intuition discriminate.
Qed.

Lemma count_danger l :
  count_of is_danger l = (count_of is_vehicle l + count_of is_person l)%Z.
Proof.
  induction l as [| d l IH]; [reflexivity |].
  rewrite !count_of_cons, IH, danger_is_vehicle_or_person.
  destruct (is_vehicle d) eqn:Ev.
  - rewrite (vehicle_not_person d Ev). simpl. lia.
  - destruct (is_person d); simpl; lia.
Qed.

(** The counting loop, from any values of its variables. *)
Lemma tally_fold boxes : forall t,
  let t' := fold_left tally_step boxes t in
  filtered_boxes_xyxy t' = filtered_boxes_xyxy t ++ map box_xyxy (kept boxes)
  /\ vehicle_count t' = (vehicle_count t + count_of is_vehicle (kept boxes))%Z
  /\ person_count t' = (person_count t + count_of is_person (kept boxes))%Z
  /\ total_danger_detections t'
     = (total_danger_detections t + count_of is_danger (kept boxes))%Z
  /\ primary_vehicle_type t'
     = match primary_vehicle_type t with
       | Some v => Some v
       | None => cls_name <$> head (List.filter is_vehicle (kept boxes))
       end.
Proof.
  induction boxes as [| d boxes IH]; intros t.
  - simpl. unfold count_of. simpl. rewrite app_nil_r, !Z.add_0_r.
    repeat split. now destruct (primary_vehicle_type t).
  - simpl fold_left. specialize (IH (tally_step t d)). cbv zeta in IH |- *.
    destruct IH as (I1 & I2 & I3 & I4 & I5).
    rewrite I1, I2, I3, I4, I5. unfold kept. simpl List.filter. fold (kept boxes).
    unfold tally_step.
    destruct (Py.lt (score d) CONF_THRESH); simpl negb; cbv iota.
    + repeat split.
    + fold (is_vehicle d) (is_person d) (is_danger d). cbn [filtered_boxes_xyxy
        vehicle_count person_count total_danger_detections primary_vehicle_type].
      rewrite !count_of_cons. simpl map. simpl List.filter.
      destruct (is_vehicle d), (is_person d), (is_danger d); simpl;
        rewrite <- ?app_assoc; repeat split; try lia;
        destruct (primary_vehicle_type t); reflexivity.
Qed.

(** The counting loop in terms of the detections it keeps. *)
Lemma tally_kept boxes :
  filtered_boxes_xyxy (tally boxes) = map box_xyxy (kept boxes)
  /\ vehicle_count (tally boxes) = count_of is_vehicle (kept boxes)
  /\ person_count (tally boxes) = count_of is_person (kept boxes)
  /\ total_danger_detections (tally boxes) = count_of is_danger (kept boxes)
  /\ primary_vehicle_type (tally boxes)
     = cls_name <$> head (List.filter is_vehicle (kept boxes)).
Proof.
  pose proof (tally_fold boxes tally0) as H. cbv zeta in H.
  unfold tally. destruct H as (H1 & H2 & H3 & H4 & H5).
  rewrite H1, H2, H3, H4, H5. unfold tally0.
  cbn [filtered_boxes_xyxy vehicle_count person_count total_danger_detections
       primary_vehicle_type app].
  rewrite !Z.add_0_l. repeat split.
Qed.

(** X4.  The counting loop (lines 327-345 and 649-667) looks only at the
    detections whose confidence is not below [CONF_THRESH]: the boxes it
    keeps are theirs, in order; the vehicle, person and danger counts are
    the numbers of kept detections of a vehicle class, of the class
    "person" and of a danger class; the primary vehicle type is the class of
    the first kept vehicle; and dropping the other detections beforehand
    changes nothing. *)
Theorem tally_counts_kept_detections (boxes : list Detection) :
  let t := tally boxes in
  filtered_boxes_xyxy t = map box_xyxy (kept boxes)
  /\ vehicle_count t = count_of is_vehicle (kept boxes)
  /\ person_count t = count_of is_person (kept boxes)
  /\ total_danger_detections t = count_of is_danger (kept boxes)
  /\ primary_vehicle_type t = cls_name <$> head (List.filter is_vehicle (kept boxes))
  /\ tally boxes = tally (kept boxes).
Proof.
  intros t. subst t. destruct (tally_kept boxes) as (H1 & H2 & H3 & H4 & H5).
  split_and!; try assumption.
  destruct (tally_kept (kept boxes)) as (K1 & K2 & K3 & K4 & K5).
  rewrite kept_idemp in *.
  destruct (tally boxes), (tally (kept boxes)). simpl in *. congruence.
Qed.

(** X5.  After the counting loop the danger count is the vehicle count
    plus the person count (the danger classes are the vehicle classes and
    "person", and no class is both); the counts are not negative and the
    danger count is at most the number of kept boxes, which is at most the
    number of detections; the primary vehicle type is missing exactly when
    no vehicle was counted, and otherwise is one of the vehicle classes. *)
Theorem tally_counts_are_consistent (boxes : list Detection) :
  let t := tally boxes in
  total_danger_detections t = (vehicle_count t + person_count t)%Z
  /\ (0 <= vehicle_count t)%Z /\ (0 <= person_count t)%Z
  /\ (total_danger_detections t <= Z.of_nat (length (filtered_boxes_xyxy t)))%Z
  /\ (length (filtered_boxes_xyxy t) <= length boxes)%nat
  /\ (primary_vehicle_type t = None <-> vehicle_count t = 0%Z)
  /\ (forall v, primary_vehicle_type t = Some v -> v ∈ vehicle_classes).
Proof.
  intros t. subst t.
  destruct (tally_kept boxes) as (H1 & H2 & H3 & H4 & H5).
  rewrite H1, H2, H3, H4, H5. clear.
  pose proof (proj2 (kept_sub boxes)) as Hsub. revert Hsub.
  generalize (kept boxes). intros l Hsub.
  split_and!.
  - apply count_danger.
  - apply count_of_nonneg.
  - apply count_of_nonneg.
  - unfold count_of. rewrite length_map. pose proof (List.filter_length_le is_danger l). lia.
  - rewrite length_map. exact Hsub.
  - unfold count_of. destruct (List.filter is_vehicle l); simpl; split;
      intros; (discriminate || lia || reflexivity).
  - intros v Hv.
    destruct (List.filter is_vehicle l) as [| d l'] eqn:E; [discriminate |].
    injection Hv as <-.
    assert (In d (List.filter is_vehicle l)) as Hin by (rewrite E; now left).
    apply List.filter_In in Hin as [_ Hin]. unfold is_vehicle in Hin.
    now apply bool_decide_eq_true in Hin.
Qed.

(* ===================================================================== *)
(** * What the score of a frame always satisfies *)
(* ===================================================================== *)

Lemma any_pair_overlap_two boxes :
  any_pair_overlap boxes = true -> (2 <= length boxes)%nat.
Proof.
  intros H. apply any_pair_overlap_positions in H as (i & j & a & b & Hij & Hi & Hj & _).
  apply lookup_lt_Some in Hi, Hj. lia.
Qed.

(** X6.  The score of a frame.  A frame that is not accident-flagged has
    severity MINOR, so every other severity occurs on flagged frames only;
    a flagged frame has at least two kept detections; severity CRITICAL or
    MAJOR implies the collision flag; the victim estimate is the person
    count, or 1 if that is 0; the severity score is between 1 and 4; the
    overlap ratio is between 0 and 1 and is positive only with the collision
    flag. *)
Theorem frame_score_facts (boxes : list Detection) :
  let sc := live_score boxes in
  (fs_accident_detected_frame sc = false -> fs_severity sc = MINOR)
  /\ (fs_accident_detected_frame sc = true -> (2 <= length (kept boxes))%nat)
  /\ (fs_severity sc = CRITICAL \/ fs_severity sc = MAJOR ->
      fs_collision_detected sc = true)
  /\ fs_victims_estimated sc = Z.max 1 (person_count (fs_tally sc))
  /\ (1 <= fs_severity_score sc <= 4)%Z
  /\ 0 <= fs_max_overlap_ratio sc <= 1
  /\ (0 < fs_max_overlap_ratio sc -> fs_collision_detected sc = true).
Proof.
  intros sc. subst sc. unfold live_score. cbv zeta.
  cbn [fs_accident_detected_frame fs_severity fs_collision_detected fs_victims_estimated
       fs_tally fs_severity_score fs_max_overlap_ratio].
  destruct (tally_kept boxes) as (H1 & H2 & H3 & H4 & _).
  pose proof (count_danger (kept boxes)) as Hd.
  pose proof (count_of_nonneg is_vehicle (kept boxes)) as Hv.
  pose proof (count_of_nonneg is_person (kept boxes)) as Hp.
  assert (count_of is_danger (kept boxes) <= Z.of_nat (length (kept boxes)))%Z as Hlen.
  { unfold count_of. pose proof (List.filter_length_le is_danger (kept boxes)). lia. }
  assert (any_pair_overlap (filtered_boxes_xyxy (tally boxes)) = true ->
          (2 <= length (kept boxes))%nat) as Hcol.
  { intros H. apply any_pair_overlap_two in H. rewrite H1, length_map in H. exact H. }
  pose proof (compute_max_overlap_ratio_bounds (filtered_boxes_xyxy (tally boxes))) as Hb.
  pose proof (positive_ratio_collision (filtered_boxes_xyxy (tally boxes))) as Hpos.
  rewrite <- H2, <- H3, <- H4 in *. clear H1 H2 H3 H4.
  revert Hd Hv Hp Hlen Hcol Hb Hpos.
  generalize (compute_max_overlap_ratio (filtered_boxes_xyxy (tally boxes))).
  generalize (any_pair_overlap (filtered_boxes_xyxy (tally boxes))).
  generalize (vehicle_count (tally boxes)) (person_count (tally boxes))
    (total_danger_detections (tally boxes)).
  intros v p d collision ratio Hd Hv Hp Hlen Hcol Hb Hpos.
  unfold live_accident_detected_frame, live_severity, live_victims_estimated.
  split_and!.
  - destruct collision; simpl;
      destruct (Z.leb_spec 2 v), (Z.leb_spec 1 p), (Z.leb_spec 1 v), (Z.leb_spec 2 p),
        (Z.leb_spec 3 d); simpl; try reflexivity; try discriminate; lia.
  - destruct collision; simpl; [intros _; now apply Hcol |].
    destruct (Z.leb_spec 1 v), (Z.leb_spec 1 p), (Z.leb_spec 3 d); simpl;
      try discriminate. intros _. lia.
  - destruct collision; [reflexivity |]. simpl.
    destruct ((1 <=? v)%Z && (2 <=? p)%Z); intros [? | ?]; discriminate.
  - destruct (Z.ltb_spec 0 p); lia.
  - destruct (if collision && (2 <=? v)%Z then CRITICAL
              else if collision && (1 <=? p)%Z then MAJOR
              else if (1 <=? v)%Z && (2 <=? p)%Z then MEDIUM else MINOR); simpl; lia.
  - destruct (if collision && (2 <=? v)%Z then CRITICAL
              else if collision && (1 <=? p)%Z then MAJOR
              else if (1 <=? v)%Z && (2 <=? p)%Z then MEDIUM else MINOR); simpl; lia.
  - apply Hb.
  - apply Hb.
  - exact Hpos.
Qed.

(* ===================================================================== *)
(** * The injury report *)
(* ===================================================================== *)

Lemma prefix_app (s t : string) : String.prefix s (s +:+ t) = true.
Proof.
  induction s as [| c s IH]; simpl; [now destruct t |].
  destruct (Ascii.ascii_dec c c); [assumption | congruence].
Qed.

Lemma join_prefix sep part rest : String.prefix part (join sep (part :: rest)) = true.
Proof.
  destruct rest as [| p rest]; simpl join.
  - rewrite <- (prefix_app part ""). f_equal. unfold String.app.
    induction part as [| c s IH]; simpl; [reflexivity | now rewrite <- IH].
  - apply prefix_app.
Qed.

Lemma str_or_nonempty c s fallback : str_or (String c s) fallback = String c s.
Proof. reflexivity. Qed.

Lemma join_nonempty sep c s rest :
  exists c' s', join sep (String c s :: rest) = String c' s'.
Proof. destruct rest; simpl; eauto. Qed.

(** The names [detect_accident] and [analyze_video] can pass. *)
Lemma severity_name_cases s :
  priority_of (severity_name s)
  = match s with
    | CRITICAL => "CRITICAL" | MAJOR => "HIGH" | MEDIUM => "MODERATE" | MINOR => "LOW"
    end.
Proof. now destruct s. Qed.

(** X7.  The shape of the injury report.  Three preparation steps are
    recommended for the severities MAJOR and CRITICAL and one for any other;
    three injury regions are listed for MAJOR and CRITICAL and two for any
    other, plus Pelvis/Spine exactly when the victim count is at least 2;
    the report repeats the victim count it was given; no region is at
    increased risk exactly when the severity is none of MAJOR, CRITICAL,
    MEDIUM and there are fewer than two victims; and a severity string that
    is none of CRITICAL, MAJOR, MEDIUM gives the report of MINOR. *)
Theorem injury_report_shape severity vehicle_type victim_count collision person_count :
  let r := build_expected_injury_report severity vehicle_type victim_count collision
             person_count in
  let grave := bool_decide (severity = "MAJOR" \/ severity = "CRITICAL") in
  length (recommendedPreparation r) = (if grave then 3 else 1)%nat
  /\ length (estimatedInjuries r)
     = ((if grave then 3 else 2) + (if (2 <=? victim_count)%Z then 1 else 0))%nat
  /\ (mkInjury "Pelvis/Spine" "MEDIUM" ∈ estimatedInjuries r <-> (2 <= victim_count)%Z)
  /\ estimatedVictims (victimInfo r) = victim_count
  /\ (at_risk_regions (estimatedInjuries r) = []
      <-> severity <> "MAJOR" /\ severity <> "CRITICAL" /\ severity <> "MEDIUM"
          /\ (victim_count < 2)%Z)
  /\ (severity <> "CRITICAL" -> severity <> "MAJOR" -> severity <> "MEDIUM" ->
      r = build_expected_injury_report "MINOR" vehicle_type victim_count collision
            person_count).
Proof.
  intros r grave. subst r grave. unfold build_expected_injury_report. cbv zeta.
  cbn [recommendedPreparation estimatedInjuries victimInfo estimatedVictims].
  unfold priority_of, injuries_of, preparation_of.
  destruct (String.eqb_spec severity "CRITICAL") as [-> | Hc];
    [| destruct (String.eqb_spec severity "MAJOR") as [-> | Hm];
       [| destruct (String.eqb_spec severity "MEDIUM") as [-> | Hmed]]];
    (destruct (bool_decide _) eqn:Eg;
     [apply bool_decide_eq_true in Eg | apply bool_decide_eq_false in Eg]);
    try (exfalso; intuition congruence);
    destruct (Z.leb_spec 2 victim_count); cbn;
    split_and!; try reflexivity; try lia; try congruence;
    try (split; [intros; lia | intros; apply list_elem_of_In; simpl; tauto]);
    try (split; [intros Hin; apply list_elem_of_In in Hin; simpl in Hin; exfalso;
                 intuition discriminate
                | intros; lia]);
    try (split; intros; intuition (congruence || lia || discriminate)).
Qed.

Lemma mechanism_from_first_part vehicle_type collision person_count part rest :
  mech_parts vehicle_type collision person_count = part :: rest ->
  part <> "" ->
  let mechanism :=
    str_or (join ", " (mech_parts vehicle_type collision person_count))
      "Road traffic accident" in
  mechanism = join ", " (part :: rest) /\ String.prefix part mechanism = true.
Proof.
  intros -> Hne mechanism. subst mechanism.
  destruct part as [| c s]; [congruence |].
  destruct (join_nonempty ", " c s rest) as (c' & s' & E).
  rewrite E. simpl str_or. rewrite <- E. split; [reflexivity | apply join_prefix].
Qed.

(** X8.  The mechanism text of the injury report.  It is the fallback
    "Road traffic accident" when there is no collision, no vehicle type
    ([None] or the empty string) and no person; it begins with "collision
    detected" when there is a collision, and otherwise with "involving a"
    and the vehicle type when there is one; with persons only it is their
    number followed by " person(s) in scene".  The summary for doctors
    begins with the mechanism text. *)
Theorem injury_mechanism_text severity vehicle_type victim_count collision person_count :
  let r := build_expected_injury_report severity vehicle_type victim_count collision
             person_count in
  let no_vehicle := vehicle_type = None \/ vehicle_type = Some "" in
  (collision = false -> no_vehicle -> (person_count <= 0)%Z ->
   mechanismOfInjury r = "Road traffic accident")
  /\ (collision = true -> String.prefix "collision detected" (mechanismOfInjury r) = true)
  /\ (forall v, collision = false -> vehicle_type = Some v -> v <> "" ->
      String.prefix ("involving a " +:+ v) (mechanismOfInjury r) = true)
  /\ (collision = false -> no_vehicle -> (0 < person_count)%Z ->
      mechanismOfInjury r = py_str person_count +:+ " person(s) in scene")
  /\ String.prefix (mechanismOfInjury r) (summaryForDoctors r) = true.
Proof.
  intros r no_vehicle. subst r no_vehicle. unfold build_expected_injury_report. cbv zeta.
  cbn [mechanismOfInjury summaryForDoctors]. split_and!.
  - intros -> Hv Hp. unfold mech_parts.
    destruct (Z.ltb_spec 0 person_count); [lia |].
    destruct Hv as [-> | ->]; reflexivity.
  - intros ->.
    apply (mechanism_from_first_part vehicle_type true person_count "collision detected"
             (match vehicle_type with
              | Some EmptyString | None => []
              | Some v => ["involving a " +:+ v]
              end ++ (if (0 <? person_count)%Z
                      then [py_str person_count +:+ " person(s) in scene"] else [])));
      [reflexivity | discriminate].
  - intros v -> -> Hv. destruct v as [| c v]; [congruence |].
    apply (mechanism_from_first_part (Some (String c v)) false person_count
             ("involving a " +:+ String c v)
             (if (0 <? person_count)%Z
              then [py_str person_count +:+ " person(s) in scene"] else []));
      [reflexivity | discriminate].
  - intros -> Hv Hp. unfold mech_parts.
    destruct (Z.ltb_spec 0 person_count); [| lia].
    assert (match vehicle_type with
            | Some EmptyString | None => []
            | Some v => ["involving a " +:+ v]
            end = @nil string) as -> by (destruct Hv as [-> | ->]; reflexivity).
    simpl. destruct (py_str person_count); reflexivity.
  - apply prefix_app.
Qed.

(* ===================================================================== *)
(** * Live mode: what a call writes and sends, in order *)
(* ===================================================================== *)

Section LiveEvents.

Context {Image : Type}.
Implicit Types (st : CameraState Image) (inp : FrameInput Image) (img : Image).
Implicit Types (evs : list (Event Image)) (camera_id : string).

(** The events of a call on a decoded frame: the post-accident file of the
    previous incident, then, if the call confirms, the pre-accident files,
    the main snapshot and the request. *)
Lemma on_frame_events camera_id st img inp :
  let tag := mkTag camera_id (Py.int (now_ts inp)) in
  (on_frame camera_id st img inp).2
  = (if saves_post st inp
     then match current_incident_tag st with
          | Some t => [PostSnapshot t (post_capture_counter st) img]
          | None => []
          end
     else [])
    ++ (if confirms st inp
        then pre_snapshots tag (deque_append FRAME_BUFFER_SIZE (frame_buffer st) img)
               (pre_write_raises inp)
             ++ (if main_write_ok inp
                 then [MainSnapshot tag (main_uuid inp)
                         (annotated_img_final (reported_best st img inp))]
                 else [])
             ++ [BackendSend camera_id (reported_best st img inp)
                   (if main_write_ok inp then Some (tag, main_uuid inp) else None)]
        else []).
Proof.
  unfold on_frame, reported_best, confirms, reaches_threshold,
    saves_post, frame_flagged, frame_candidate.
  generalize (live_score (detections inp)). intros sc.
  match goal with
  | |- context [post_capture ?s img (post_write_ok inp)] =>
      pose proof (post_capture_spec s img (post_write_ok inp)) as Hpc;
      destruct (post_capture s img (post_write_ok inp)) as [st2 pe]
  end.
  cbn [fst snd accident_counter candidate_frames last_alert_time frame_buffer
       post_capture_remaining post_capture_counter current_incident_tag] in Hpc.
  destruct Hpc as (E1 & E2 & E3 & E4 & E5 & E6 & E7 & E8).
  rewrite <- E8. clear E8.
  unfold accumulate.
  destruct (fs_accident_detected_frame sc) eqn:Eflag;
    cbn [accident_counter last_alert_time andb negb]; rewrite ?E1, ?E4.
  - destruct (ACCIDENT_CONFIRM_FRAMES <=? accident_counter st + 1)%Z eqn:Ethr;
      cbn [andb negb fst snd]; [| now rewrite app_nil_r].
    destruct (in_cooldown (last_alert_time st) (now_ts inp)) eqn:Ecd;
      cbn [andb negb fst snd]; [now rewrite app_nil_r |].
    unfold finalize.
    cbn [fst snd accident_counter candidate_frames last_alert_time
         frame_buffer post_capture_remaining post_capture_counter
         current_incident_tag].
    rewrite ?E2, ?E3. reflexivity.
  - change (ACCIDENT_CONFIRM_FRAMES <=? 0)%Z with false.
    cbn [andb negb fst snd]. now rewrite app_nil_r.
Qed.

Lemma reports_app evs1 evs2 : reports (evs1 ++ evs2) = reports evs1 ++ reports evs2.
Proof. unfold reports. apply omap_app. Qed.

Lemma pre_snapshot_files_app evs1 evs2 :
  pre_snapshot_files (evs1 ++ evs2) = pre_snapshot_files evs1 ++ pre_snapshot_files evs2.
Proof. unfold pre_snapshot_files. apply omap_app. Qed.

Lemma imap_pre_snapshots tag (l : list Image) : forall (f : nat -> nat),
  reports (imap (fun idx pre_img => PreSnapshot tag (f idx) pre_img) l) = []
  /\ pre_snapshot_files (imap (fun idx pre_img => PreSnapshot tag (f idx) pre_img) l)
     = imap (fun idx pre_img => (tag, f idx, pre_img)) l.
Proof.
  induction l as [| x l IH]; intros f; [split; reflexivity |].
  destruct (IH (f ∘ S)) as [IH1 IH2]. split.
  - exact IH1.
  - cbn [imap]. unfold pre_snapshot_files in *. cbn [omap]. simpl. f_equal. exact IH2.
Qed.

Lemma pre_snapshots_files tag (buf : list Image) raises :
  reports (pre_snapshots tag buf raises) = []
  /\ pre_snapshot_files (pre_snapshots tag buf raises)
     = imap (fun idx pre_img => (tag, idx, pre_img))
         (let pre_frames := last_n PRE_SNAPSHOT_COUNT buf in
          match raises with
          | Some k => take k pre_frames
          | None => pre_frames
          end).
Proof. unfold pre_snapshots. cbv zeta. apply (imap_pre_snapshots tag _ id). Qed.

(** The requests and the pre-accident files of a call on a decoded frame. *)
Lemma on_frame_reports camera_id st img inp :
  let tag := mkTag camera_id (Py.int (now_ts inp)) in
  let evs := (on_frame camera_id st img inp).2 in
  reports evs
  = (if confirms st inp
     then [(camera_id, reported_best st img inp,
            if main_write_ok inp then Some (tag, main_uuid inp) else None)]
     else [])
  /\ pre_snapshot_files evs
     = (if confirms st inp
        then imap (fun idx pre_img => (tag, idx, pre_img))
               (let pre_frames :=
                  last_n PRE_SNAPSHOT_COUNT
                    (deque_append FRAME_BUFFER_SIZE (frame_buffer st) img) in
                match pre_write_raises inp with
                | Some k => take k pre_frames
                | None => pre_frames
                end)
        else []).
Proof.
  intros tag evs. subst evs. rewrite on_frame_events. cbv zeta.
  rewrite reports_app, pre_snapshot_files_app.
  assert (forall X : list (Event Image),
            (X = [] \/ exists t i, X = [PostSnapshot t i img]) ->
            reports X = [] /\ pre_snapshot_files X = []) as Hpost.
  { intros X [-> | (t & i & ->)]; split; reflexivity. }
  match goal with
  | |- context [reports ?X ++ _] =>
      destruct (Hpost X) as [-> ->];
        [destruct (saves_post st inp); [destruct (current_incident_tag st) |]; eauto |]
  end.
  cbn [app]. destruct (confirms st inp); [| split; reflexivity].
  rewrite !reports_app, !pre_snapshot_files_app.
  destruct (pre_snapshots_files (mkTag camera_id (Py.int (now_ts inp)))
              (deque_append FRAME_BUFFER_SIZE (frame_buffer st) img)
              (pre_write_raises inp)) as [-> ->].
  destruct (main_write_ok inp); cbn [app]; split; try reflexivity;
    unfold pre_snapshot_files; cbn [omap]; now rewrite app_nil_r.
Qed.

(* ===================================================================== *)
(** * Live mode: what holds in every state *)
(* ===================================================================== *)

Lemma deque_append_In {A} (n : nat) (dq : list A) (x c : A) :
  In c (deque_append n dq x) -> In c dq \/ c = x.
Proof.
  unfold deque_append. intros H.
  assert (In c (dq ++ [x])) as H'.
  { destruct (n <? length (dq ++ [x]))%nat; [| assumption].
    apply list_elem_of_In. apply list_elem_of_In in H.
    eapply (subseteq_drop 1); eassumption. }
  apply in_app_iff in H' as [? | [? | []]]; auto.
Qed.

Lemma deque_append_nonempty {A} (n : nat) (dq : list A) (x : A) :
  (1 <= n)%nat -> deque_append n dq x <> [].
Proof.
  intros Hn. unfold deque_append.
  destruct (Nat.ltb_spec n (length (dq ++ [x]))) as [Hlt | Hge].
  - intros H. apply (f_equal length) in H. rewrite length_drop in H. simpl in H. lia.
  - destruct dq; discriminate.
Qed.

Lemma step_state_ok camera_id st inp :
  state_ok camera_id st ->
  state_ok camera_id (step_state camera_id st inp)
  /\ Forall (fun x : IncidentTag * Z * Image =>
               tag_camera_id x.1.1 = camera_id /\ (0 <= x.1.2 < POST_CAPTURE_FRAMES)%Z)
       (post_snapshots (step_events camera_id st inp)).
Proof.
  intros (Hc & Hbuf & Hpool & Htag).
  destruct (decoded inp) as [img |] eqn:Himg.
  2: { destruct (step_undecodable camera_id st inp Himg) as (-> & -> & _).
       split; [now repeat split | constructor]. }
  destruct (step_decoded camera_id st inp img Himg) as (-> & -> & _).
  pose proof (on_frame_spec camera_id st img inp) as H. cbv zeta in H.
  destruct H as (H1 & H2 & _ & H4 & H5 & H6 & H7 & _ & H9 & _).
  pose proof POST_CAPTURE_FRAMES_value as H25.
  assert (saves_post st inp = true ->
          exists t, current_incident_tag st = Some t
                    /\ (0 < post_capture_remaining st)%Z) as Hsp.
  { unfold saves_post. intros Hs.
    apply andb_true_iff in Hs as [Hs _]. apply andb_true_iff in Hs as [Ht Hr].
    apply bool_decide_eq_true in Ht as [t Ht]. apply Z.ltb_lt in Hr. eauto. }
  split; [unfold state_ok; rewrite H1, H2, H4, H5, H6, H7; split_and! |].
  - destruct (_ && _); [lia |]. destruct (frame_flagged inp); lia.
  - now apply deque_append_length.
  - destruct (_ && _); [lia |]. destruct (frame_flagged inp); [| lia].
    intros _. apply deque_append_nonempty. unfold CANDIDATE_FRAMES_MAXLEN. lia.
  - destruct (confirms st inp); [split_and!; [reflexivity | lia | lia | lia] |].
    destruct (saves_post st inp).
    + destruct Hsp as (t & Ht & Hr); [reflexivity |]. rewrite Ht in *.
      destruct Htag as (? & ? & ? & ?). split_and!; [assumption | lia | lia | lia].
    + exact Htag.
  - rewrite H9. destruct (saves_post st inp); [| constructor].
    destruct Hsp as (t & Ht & Hr); [reflexivity |]. rewrite Ht in *.
    destruct Htag as (? & ? & ? & ?). constructor; [| constructor]. simpl.
    split; [assumption | lia].
Qed.

Lemma run_state_ok camera_id inps : forall st,
  state_ok camera_id st ->
  state_ok camera_id (run_state camera_id st inps)
  /\ Forall (fun x : IncidentTag * Z * Image =>
               tag_camera_id x.1.1 = camera_id /\ (0 <= x.1.2 < POST_CAPTURE_FRAMES)%Z)
       (post_snapshots (run_events camera_id st inps)).
Proof.
  induction inps as [| inp inps IH]; intros st Hst; [split; [assumption | constructor] |].
  destruct (run_cons camera_id st inp inps) as [-> ->].
  destruct (step_state_ok camera_id st inp Hst) as [Hst' Hev].
  destruct (IH _ Hst') as [Hfinal Hevs]. split; [assumption |].
  rewrite post_snapshots_app. apply Forall_app. now split.
Qed.

Lemma initial_state_ok camera_id : state_ok camera_id (@initial_state Image).
Proof.
  unfold state_ok. simpl. split_and!; try lia; try reflexivity.
Qed.

(** X9.  In every state a camera reaches from its initial state the streak
    counter is not negative, a running streak has an entry in the candidate
    pool, the raw-frame buffer holds at most [FRAME_BUFFER_SIZE] (30) frames,
    and the post-capture countdown and numbering are both 0 before the first
    confirmation and afterwards are not negative and add up to
    [POST_CAPTURE_FRAMES] (25), under a tag of this camera.  Every
    post-accident file written carries a tag of this camera and a number
    from 0 to 24. *)
Theorem camera_state_invariant camera_id (inps : list (FrameInput Image)) :
  let st := run_state camera_id initial_state inps in
  state_ok camera_id st
  /\ (forall inp, state_ok camera_id (step_state camera_id st inp))
  /\ Forall (fun x : IncidentTag * Z * Image =>
               tag_camera_id x.1.1 = camera_id /\ (0 <= x.1.2 < 25)%Z)
       (post_snapshots (run_events camera_id initial_state inps)).
Proof.
  intros st. subst st.
  destruct (run_state_ok camera_id inps initial_state (initial_state_ok camera_id))
    as [Hst Hevs].
  split_and!.
  - exact Hst.
  - intros inp. now apply step_state_ok.
  - rewrite <- POST_CAPTURE_FRAMES_value. exact Hevs.
Qed.

(* ===================================================================== *)
(** * Live mode: the frame a report is built from *)
(* ===================================================================== *)

Lemma max_by_key_In (pool : list (Candidate Image)) best :
  max_by_key pool = Some best -> In best pool.
Proof.
  destruct pool as [| c rest]; [discriminate |]. simpl. intros [= <-].
  assert (forall rest' c', In c' (c :: rest) -> incl rest' (c :: rest) ->
            In (fold_left (fun best x => if key_gt x best then x else best) rest' c')
               (c :: rest)) as H.
  { induction rest' as [| x rest' IH]; intros c' Hc' Hincl; [assumption |].
    simpl. apply IH.
    - destruct (key_gt x c'); [apply Hincl; now left | assumption].
    - intros y Hy. apply Hincl. now right. }
  apply H; [now left | intros y Hy; now right].
Qed.

(** The fallback of lines 444-454 is never taken: the pool a confirming call
    chooses from holds at least the entry of the call's own frame. *)
Lemma reported_best_in_pool st img inp :
  exists c,
    max_by_key (deque_append CANDIDATE_FRAMES_MAXLEN (candidate_frames st)
                  (frame_candidate img inp)) = Some c
    /\ (In c (candidate_frames st) \/ c = frame_candidate img inp)
    /\ reported_best st img inp = best_of c.
Proof.
  unfold reported_best, choose_best.
  destruct (max_by_key _) as [c |] eqn:E.
  - exists c. split; [reflexivity | split; [| reflexivity]].
    apply max_by_key_In in E. now apply deque_append_In in E.
  - exfalso. unfold max_by_key in E.
    destruct (deque_append _ _ _) eqn:E'; [| discriminate].
    revert E'. apply deque_append_nonempty. unfold CANDIDATE_FRAMES_MAXLEN. lia.
Qed.

Lemma from_stream_incl (l1 l2 : list (FrameInput Image)) c :
  incl l1 l2 -> from_stream l1 c -> from_stream l2 c.
Proof.
  intros Hincl (inp & img & Hin & H). exists inp, img. split; [now apply Hincl | exact H].
Qed.

Lemma step_from_stream camera_id st inp (seen : list (FrameInput Image)) :
  Forall (from_stream seen) (candidate_frames st) ->
  Forall (from_stream (seen ++ [inp])) (candidate_frames (step_state camera_id st inp))
  /\ Forall (fun x : string * BestFrame Image * option (IncidentTag * string) =>
               x.1.1 = camera_id
               /\ exists c, from_stream (seen ++ [inp]) c /\ x.1.2 = best_of c)
       (reports (step_events camera_id st inp)).
Proof.
  intros Hpool.
  assert (Forall (from_stream (seen ++ [inp])) (candidate_frames st)) as Hpool'.
  { eapply Forall_impl; [exact Hpool |]. intros c. apply from_stream_incl.
    intros x Hx. apply in_app_iff. now left. }
  destruct (decoded inp) as [img |] eqn:Himg.
  2: { destruct (step_undecodable camera_id st inp Himg) as (-> & -> & _).
       split; [assumption | constructor]. }
  destruct (step_decoded camera_id st inp img Himg) as (-> & -> & _).
  pose proof (on_frame_spec camera_id st img inp) as H. cbv zeta in H.
  destruct H as (_ & H2 & _).
  destruct (on_frame_reports camera_id st img inp) as [Hr _]. rewrite Hr, H2.
  assert (frame_flagged inp = true -> from_stream (seen ++ [inp]) (frame_candidate img inp))
    as Hnew.
  { intros Hflag. exists inp, img. split_and!; try reflexivity; try assumption.
    apply in_app_iff. right. now left. }
  split.
  - destruct (_ && _); [constructor |].
    destruct (frame_flagged inp); [| assumption].
    apply deque_append_Forall; [assumption | now apply Hnew].
  - destruct (confirms st inp) eqn:Hc; [| constructor].
    constructor; [| constructor]. simpl. split; [reflexivity |].
    destruct (reported_best_in_pool st img inp) as (c & _ & Hin & ->).
    exists c. split; [| reflexivity].
    destruct Hin as [Hin | ->].
    + rewrite Forall_forall in Hpool'. apply Hpool'. now apply list_elem_of_In.
    + apply Hnew. unfold confirms, reaches_threshold in Hc.
      now repeat (apply andb_true_iff in Hc as [Hc _]).
Qed.

Lemma run_from_stream camera_id inps : forall st (seen : list (FrameInput Image)),
  Forall (from_stream seen) (candidate_frames st) ->
  Forall (from_stream (seen ++ inps)) (candidate_frames (run_state camera_id st inps))
  /\ Forall (fun x : string * BestFrame Image * option (IncidentTag * string) =>
               x.1.1 = camera_id
               /\ exists c, from_stream (seen ++ inps) c /\ x.1.2 = best_of c)
       (reports (run_events camera_id st inps)).
Proof.
  induction inps as [| inp inps IH]; intros st seen Hpool.
  - rewrite app_nil_r. split; [assumption | constructor].
  - destruct (run_cons camera_id st inp inps) as [-> ->].
    destruct (step_from_stream camera_id st inp seen Hpool) as [Hst Hev].
    destruct (IH _ _ Hst) as [Hfinal Hevs].
    rewrite <- app_assoc in Hfinal, Hevs. simpl in Hfinal, Hevs.
    split; [assumption |]. rewrite reports_app. apply Forall_app. split; [| assumption].
    eapply Forall_impl; [exact Hev |]. intros x [Hx (c & Hc & Hb)].
    split; [assumption |]. exists c. split; [| assumption].
    revert Hc. apply from_stream_incl. intros y Hy.
    apply in_app_iff in Hy as [Hy | [<- | []]]; apply in_app_iff; [now left | right; now left].
Qed.

Lemma mechanism_uses_facts vehicle_type collision person_count :
  collision = true \/ (0 < person_count)%Z ->
  mech_parts vehicle_type collision person_count <> []
  /\ str_or (join ", " (mech_parts vehicle_type collision person_count))
       "Road traffic accident"
     = join ", " (mech_parts vehicle_type collision person_count).
Proof.
  intros H.
  assert (exists part rest,
            mech_parts vehicle_type collision person_count = part :: rest
            /\ part <> "") as (part & rest & E & Hne).
  { unfold mech_parts. destruct collision; [eexists _, _; split; [reflexivity | discriminate] |].
    destruct H as [? | Hp]; [discriminate |].
    destruct (Z.ltb_spec 0 person_count); [| lia].
    destruct vehicle_type as [[| c v] |]; simpl;
      (eexists _, _; split; [reflexivity |]); try discriminate;
      destruct (py_str person_count); discriminate. }
  split; [rewrite E; discriminate |].
  destruct (mechanism_from_first_part vehicle_type collision person_count part rest E Hne)
    as [-> _].
  now rewrite E.
Qed.

Lemma flagged_candidate_facts img inp :
  frame_flagged inp = true ->
  let c := frame_candidate img inp in
  (c_collision_detected c = true \/ (1 <= c_person_count c)%Z)
  /\ c_victims_estimated c = Z.max 1 (c_person_count c).
Proof.
  unfold frame_flagged, frame_candidate, candidate_of, live_score. cbv zeta.
  cbn [fs_accident_detected_frame c_collision_detected c_person_count
       c_victims_estimated fs_collision_detected fs_tally fs_victims_estimated].
  generalize (any_pair_overlap (filtered_boxes_xyxy (tally (detections inp)))).
  generalize (tally (detections inp)). intros t collision Hflag.
  split.
  - unfold live_accident_detected_frame in Hflag.
    destruct collision; [now left | right]. simpl in Hflag.
    destruct (Z.leb_spec 1 (person_count t)); [assumption |].
    rewrite andb_false_r in Hflag. discriminate.
  - unfold live_victims_estimated. destruct (Z.ltb_spec 0 (person_count t)); lia.
Qed.

Lemma priority_of_severity_name (s : Severity) :
  priority_of (severity_name s)
  = match s with
    | CRITICAL => "CRITICAL"
    | MAJOR => "HIGH"
    | MEDIUM => "MODERATE"
    | MINOR => "LOW"
    end.
Proof. destruct s; reflexivity. Qed.

Lemma deque_append_last {A} (n : nat) (dq : list A) (x : A) :
  (1 <= n)%nat -> In x (deque_append n dq x).
Proof.
  intros Hn. unfold deque_append.
  destruct (Nat.ltb_spec n (length (dq ++ [x]))) as [Hlt | Hge].
  - destruct dq as [| a dq]; [simpl in Hlt; lia |].
    simpl. rewrite drop_0. apply in_app_iff. right. now left.
  - apply in_app_iff. right. now left.
Qed.

Lemma on_frame_at_decision camera_id (st : CameraState Image) img inp :
  on_frame camera_id st img inp
  = (let st3 := state_at_decision st img inp in
     if negb (final_decision st img inp) then
       (st3,
        {| message := "No accident detected (temporal-smoothed).";
           accidents_detected := 0; incident_ids := [] |},
        post_events_of st img inp)
     else if in_cooldown (last_alert_time st3) (now_ts inp) then
       (st3,
        {| message := "Accident already reported recently (cooldown active).";
           accidents_detected := 0; incident_ids := [] |},
        post_events_of st img inp)
     else
       let '(st4, response, events) :=
         finalize camera_id st3 (live_score (detections inp)) img inp in
       (st4, response, post_events_of st img inp ++ events)).
Proof.
  unfold on_frame, final_decision, state_at_decision, post_events_of, frame_buffered.
  destruct (post_capture _ img (post_write_ok inp)) as [st2 post_events].
  reflexivity.
Qed.

Lemma state_at_decision_pool (st : CameraState Image) img inp :
  accident_counter (state_at_decision st img inp)
  = (if frame_flagged inp then accident_counter st + 1 else 0)%Z
  /\ candidate_frames (state_at_decision st img inp)
     = (if frame_flagged inp
        then deque_append CANDIDATE_FRAMES_MAXLEN (candidate_frames st)
               (frame_candidate img inp)
        else candidate_frames st)
  /\ last_alert_time (state_at_decision st img inp) = last_alert_time st.
Proof.
  unfold state_at_decision, accumulate, frame_flagged, frame_candidate, post_capture,
    frame_buffered.
  cbn [current_incident_tag post_capture_remaining].
  destruct (current_incident_tag st) as [tag |];
    [destruct (_ && _) |];
    destruct (fs_accident_detected_frame _); repeat split.
Qed.

Lemma final_decision_confirms (st : CameraState Image) img inp :
  final_decision st img inp = reaches_threshold st inp
  /\ (final_decision st img inp
      && negb (in_cooldown (last_alert_time (state_at_decision st img inp)) (now_ts inp))
      = confirms st inp).
Proof.
  destruct (state_at_decision_pool st img inp) as (Hc & _ & Hl).
  assert (final_decision st img inp = reaches_threshold st inp) as E.
  { unfold final_decision, reaches_threshold. rewrite Hc.
    destruct (frame_flagged inp); reflexivity. }
  split; [exact E |]. unfold confirms. now rewrite E, Hl.
Qed.

Lemma decision_pool_nonempty (st : CameraState Image) img inp :
  final_decision st img inp = true ->
  exists c,
    max_by_key (candidate_frames (state_at_decision st img inp)) = Some c
    /\ In c (candidate_frames (state_at_decision st img inp))
    /\ (forall sc img' plotted',
          choose_best (candidate_frames (state_at_decision st img inp)) sc img' plotted'
          = best_of c)
    /\ reported_best st img inp = best_of c.
Proof.
  intros Hd. destruct (final_decision_confirms st img inp) as [E _].
  rewrite E in Hd. unfold reaches_threshold in Hd.
  apply andb_true_iff in Hd as [Hflag _].
  destruct (state_at_decision_pool st img inp) as (_ & Hp & _).
  rewrite Hflag in Hp. rewrite Hp.
  destruct (reported_best_in_pool st img inp) as (c & Hmax & _ & Hbest).
  exists c. split_and!.
  - exact Hmax.
  - now apply max_by_key_In.
  - intros sc img' plotted'. unfold choose_best. now rewrite Hmax.
  - exact Hbest.
Qed.
(** X10.  The frame a report is built from.  A call on a decoded frame is
    [on_frame]; at line 414 its state dict is [state_at_decision].  The
    fallback of lines 444-454 is never taken: whenever [final_decision]
    holds, the frame of the call is flagged and its own entry is in
    ["candidate_frames"], so [max] is called (line 439), returns an entry [c]
    of the pool, and line 456-461 read the reported values off [c], whatever
    the values of the current frame are; every request the call makes
    carries them.  And every request a camera makes to the backend, from its
    initial state on, is for this camera and is built from the entry of an
    accident-flagged frame the camera sent.  So the reported victim count is
    the frame's person count, or 1 if that is 0; the frame shows a collision
    or at least one person, so the mechanism text of the injury report lists
    at least one observed fact and is never the fallback text; and the
    report's priority level is the one that goes with the reported
    severity. *)
Theorem reported_frame_was_flagged camera_id :
  (forall (st : CameraState Image) img inp,
     let st3 := state_at_decision st img inp in
     on_frame camera_id st img inp
     = (if negb (final_decision st img inp) then
          (st3,
           {| message := "No accident detected (temporal-smoothed).";
              accidents_detected := 0; incident_ids := [] |},
           post_events_of st img inp)
        else if in_cooldown (last_alert_time st3) (now_ts inp) then
          (st3,
           {| message := "Accident already reported recently (cooldown active).";
              accidents_detected := 0; incident_ids := [] |},
           post_events_of st img inp)
        else
          let '(st4, response, events) :=
            finalize camera_id st3 (live_score (detections inp)) img inp in
          (st4, response, post_events_of st img inp ++ events))
     /\ takes_fallback st img inp = false
     /\ (final_decision st img inp = true ->
         frame_flagged inp = true
         /\ In (frame_candidate img inp) (candidate_frames st3)
         /\ exists c,
              max_by_key (candidate_frames st3) = Some c
              /\ In c (candidate_frames st3)
              /\ (forall sc img' plotted',
                    choose_best (candidate_frames st3) sc img' plotted' = best_of c)
              /\ forall cid best url,
                   In (cid, best, url) (reports (on_frame camera_id st img inp).2) ->
                   best = best_of c))
  /\ (forall (inps : list (FrameInput Image)) cid best url,
     In (cid, best, url) (reports (run_events camera_id initial_state inps)) ->
     cid = camera_id
     /\ (exists inp img,
           In inp inps /\ decoded inp = Some img /\ frame_flagged inp = true
           /\ best = best_of (frame_candidate img inp))
     /\ best_victims best = Z.max 1 (best_person_count best)
     /\ (best_collision best = true \/ (1 <= best_person_count best)%Z)
     /\ (let parts := mech_parts (best_vehicle_type best) (best_collision best)
                        (best_person_count best) in
         parts <> [] /\ mechanismOfInjury (injury_report_of best) = join ", " parts)
     /\ estimatedVictims (victimInfo (injury_report_of best)) = best_victims best
     /\ priorityLevel (injury_report_of best)
        = match best_severity best with
          | CRITICAL => "CRITICAL"
          | MAJOR => "HIGH"
          | MEDIUM => "MODERATE"
          | MINOR => "LOW"
          end).
Proof.
  split.
  - intros st img inp st3. subst st3. split; [apply on_frame_at_decision |].
    split.
    + unfold takes_fallback.
      destruct (final_decision st img inp) eqn:Hd; [| reflexivity].
      destruct (decision_pool_nonempty st img inp Hd) as (c & -> & _).
      apply andb_false_r.
    + intros Hd.
      destruct (decision_pool_nonempty st img inp Hd) as (c & Hmax & Hin & Hbest & Hrep).
      destruct (final_decision_confirms st img inp) as [E _].
      assert (frame_flagged inp = true) as Hflag.
      { rewrite E in Hd. unfold reaches_threshold in Hd.
        now apply andb_true_iff in Hd as [Hflag _]. }
      split; [exact Hflag |]. split.
      { destruct (state_at_decision_pool st img inp) as (_ & -> & _). rewrite Hflag.
        apply deque_append_last. unfold CANDIDATE_FRAMES_MAXLEN. lia. }
      exists c. split_and!; try assumption.
      intros cid best url Hr.
      destruct (on_frame_reports camera_id st img inp) as [Hreports _].
      rewrite Hreports in Hr.
      destruct (confirms st inp); [| destruct Hr].
      destruct Hr as [[= _ <- _] | []]. exact Hrep.
  - intros inps cid best url Hin.
    destruct (run_from_stream camera_id inps initial_state []) as [_ Hall]; [constructor |].
    rewrite Forall_forall in Hall. apply list_elem_of_In in Hin.
    destruct (Hall _ Hin) as [Hcid (c & (inp & img & Hinp & Himg & Hflag & ->) & Hbest)].
    simpl in Hcid, Hbest, Hinp. subst cid best.
    destruct (flagged_candidate_facts img inp Hflag) as (Hfact & Hvict).
    split_and!.
    + reflexivity.
    + exists inp, img. now split_and!.
    + exact Hvict.
    + exact Hfact.
    + cbv zeta. unfold injury_report_of, build_expected_injury_report. cbv zeta.
      cbn [mechanismOfInjury]. apply mechanism_uses_facts.
      destruct Hfact as [? | ?]; [now left | right].
      cbn [best_of best_person_count]. lia.
    + reflexivity.
    + unfold injury_report_of, build_expected_injury_report. cbv zeta.
      cbn [priorityLevel]. apply priority_of_severity_name.
Qed.

(* ===================================================================== *)
(** * Live mode: the response *)
(* ===================================================================== *)

Lemma handle_reply_ids (r : BackendReturn) :
  let out := handle_reply r in
  out_accidents_detected out = Z.of_nat (length (out_incident_ids out))
  /\ (length (out_incident_ids out) <= 1)%nat
  /\ (forall n, out_incident_ids out = [n]
                <-> exists d, r = ReturnedDict d
                              /\ extract_incident_id r = IdConvertible n).
Proof.
  assert (forall n, extract_incident_id r = IdConvertible n ->
            (exists d, r = ReturnedDict d) /\ reply_truthy r = true) as Hdict.
  { intros n. destruct r as [| d | truthy]; try discriminate. simpl. intros H.
    split; [eauto |].
    destruct (reply_id d), (reply_incidentId d), (reply_incident_id d);
      simpl; try reflexivity. discriminate. }
  unfold handle_reply. cbv zeta.
  destruct (reply_truthy r) eqn:T.
  - destruct (extract_incident_id r) as [| m | |] eqn:E;
      cbn [out_accidents_detected out_incident_ids length];
      (split; [reflexivity | split; [lia |]]); intros n.
    + split; [discriminate | intros (d & _ & [=])].
    + split.
      * intros [= <-]. destruct (Hdict m eq_refl) as [[d Hd] _]. eauto.
      * intros (d & _ & [= <-]). reflexivity.
    + split; [discriminate | intros (d & _ & [=])].
    + split; [discriminate | intros (d & _ & [=])].
  - cbn [out_accidents_detected out_incident_ids length].
    split; [reflexivity | split; [lia |]]. intros n.
    split; [discriminate |]. intros (d & _ & E).
    destruct (Hdict n E) as [_ H]. discriminate.
Qed.

(** X11.  The response of every call: [accidents_detected] is the number of
    [incident_ids], which is 0 or 1 and never more than the number of
    requests the call made; it is 1 exactly when the call confirmed an
    incident outside the cooldown and the backend answered a JSON object
    whose first present key among "id", "incidentId", "incident_id" holds a
    value that [int] converts, and that number is then the only id returned.
    A null under "id" hides the other two keys. *)
Theorem response_counts_incident_ids camera_id st inp :
  let r := step_response camera_id st inp in
  let evs := step_events camera_id st inp in
  accidents_detected r = Z.of_nat (length (incident_ids r))
  /\ (length (incident_ids r) <= length (reports evs) <= 1)%nat
  /\ (forall n,
      incident_ids r = [n]
      <-> is_Some (decoded inp) /\ confirms st inp = true
          /\ exists d, http inp = Answered (ReturnedDict d)
                       /\ extract_incident_id (ReturnedDict d) = IdConvertible n)
  /\ (forall d, http inp = Answered (ReturnedDict d) -> reply_id d = Some IdNull ->
      incident_ids r = []).
Proof.
  intros r evs. subst r evs.
  destruct (decoded inp) as [img |] eqn:Himg.
  2: { destruct (step_undecodable camera_id st inp Himg) as (_ & -> & ->). simpl.
       split_and!; try reflexivity; try lia.
       intros n. split; [discriminate | intros [[x [=]] _]]. }
  destruct (step_decoded camera_id st inp img Himg) as (_ & -> & ->).
  pose proof (on_frame_spec camera_id st img inp) as H. cbv zeta in H.
  destruct H as (_ & _ & _ & _ & _ & _ & _ & _ & _ & -> & _).
  destruct (on_frame_reports camera_id st img inp) as [-> _].
  pose proof (handle_reply_ids (backend inp)) as Hh. cbv zeta in Hh.
  destruct Hh as (Hh1 & Hh2 & Hh3).
  unfold response_of.
  destruct (confirms st inp) eqn:Hc; cbn [accidents_detected incident_ids length].
  - split_and!.
    + exact Hh1.
    + lia.
    + lia.
    + intros n. rewrite Hh3. unfold backend. split.
      * intros (d & Hd & He). split; [eauto |]. split; [reflexivity |].
        exists d. destruct (http inp) as [| | | data]; try discriminate.
        simpl in Hd. subst data. split; [reflexivity | exact He].
      * intros (_ & _ & d & -> & He). exists d. split; [reflexivity | exact He].
    + intros d Hd Hnull. unfold backend. rewrite Hd. simpl.
      unfold handle_reply. simpl. rewrite Hnull. simpl. reflexivity.
  - assert ((if reaches_threshold st inp
             then {| message := "Accident already reported recently (cooldown active).";
                     accidents_detected := 0; incident_ids := [] |}
             else {| message := "No accident detected (temporal-smoothed).";
                     accidents_detected := 0; incident_ids := [] |})
            = {| message := if reaches_threshold st inp
                            then "Accident already reported recently (cooldown active)."
                            else "No accident detected (temporal-smoothed).";
                 accidents_detected := 0; incident_ids := [] |}) as ->
      by now destruct (reaches_threshold st inp).
    cbn [accidents_detected incident_ids length]. split_and!; try reflexivity; try lia.
    intros n. split; [discriminate | intros (_ & [=] & _)].
Qed.

(* ===================================================================== *)
(** * Live mode: the raw-frame buffer and the pre-accident snapshots *)
(* ===================================================================== *)

Lemma last_n_last_n {A} (m n : nat) (l : list A) :
  (m <= n)%nat -> last_n m (last_n n l) = last_n m l.
Proof.
  intros Hmn. unfold last_n. rewrite length_drop, drop_drop. f_equal. lia.
Qed.

Lemma last_n_snoc_last {A} (n : nat) (l : list A) (x : A) :
  (1 <= n)%nat -> last (last_n n (l ++ [x])) = Some x.
Proof.
  intros Hn. unfold last_n. rewrite length_app. simpl length.
  rewrite drop_app_le by lia. apply last_snoc.
Qed.

Lemma omap_cons_eq {A B} (f : A -> option B) (x : A) (l : list A) :
  omap f (x :: l) = match f x with Some y => y :: omap f l | None => omap f l end.
Proof. reflexivity. Qed.

Lemma run_frame_buffer camera_id inps : forall st,
  (length (frame_buffer st) <= FRAME_BUFFER_SIZE)%nat ->
  frame_buffer (run_state camera_id st inps)
  = last_n FRAME_BUFFER_SIZE (frame_buffer st ++ omap decoded inps).
Proof.
  induction inps as [| inp inps IH]; intros st Hlen.
  - simpl. rewrite app_nil_r. now rewrite last_n_short.
  - destruct (run_cons camera_id st inp inps) as [-> _].
    destruct (decoded inp) as [img |] eqn:Himg.
    + destruct (step_decoded camera_id st inp img Himg) as (Hs & _ & _).
      pose proof (on_frame_spec camera_id st img inp) as H. cbv zeta in H.
      destruct H as (_ & _ & _ & H4 & _). rewrite <- Hs in H4.
      rewrite IH by (rewrite H4; now apply deque_append_length).
      rewrite H4, deque_append_last_n by assumption.
      rewrite last_n_app_l, <- app_assoc, omap_cons_eq, Himg. reflexivity.
    + destruct (step_undecodable camera_id st inp Himg) as (-> & _ & _).
      rewrite omap_cons_eq, Himg. now apply IH.
Qed.

(** X12.  The raw-frame buffer of a camera is the last [FRAME_BUFFER_SIZE]
    (30) frames that decoded.  When a call confirms an incident, the
    pre-accident files it writes are, numbered from 0 in arrival order, the
    last [PRE_SNAPSHOT_COUNT] (5) decoded frames up to and including the
    confirming frame itself, cut at the first write that raises; whether or
    not a write raises, the call goes on to make its one request. *)
Theorem pre_snapshots_are_latest_frames camera_id (inps : list (FrameInput Image))
    inp img :
  let st := run_state camera_id initial_state inps in
  decoded inp = Some img -> confirms st inp = true ->
  let tag := mkTag camera_id (Py.int (now_ts inp)) in
  let pre_frames := last_n PRE_SNAPSHOT_COUNT (omap decoded (inps ++ [inp])) in
  frame_buffer st = last_n FRAME_BUFFER_SIZE (omap decoded inps)
  /\ pre_snapshot_files (step_events camera_id st inp)
     = imap (fun idx pre_img => (tag, idx, pre_img))
         (match pre_write_raises inp with
          | Some k => take k pre_frames
          | None => pre_frames
          end)
  /\ last pre_frames = Some img
  /\ (length pre_frames <= 5)%nat
  /\ length (reports (step_events camera_id st inp)) = 1%nat.
Proof.
  intros st Himg Hc tag pre_frames.
  assert (frame_buffer st = last_n FRAME_BUFFER_SIZE (omap decoded inps)) as Hbuf.
  { subst st. rewrite run_frame_buffer by (simpl; lia). reflexivity. }
  assert (omap decoded (inps ++ [inp]) = omap decoded inps ++ [img]) as Hsnoc.
  { rewrite omap_app, omap_cons_eq, Himg. reflexivity. }
  assert (last_n PRE_SNAPSHOT_COUNT (deque_append FRAME_BUFFER_SIZE (frame_buffer st) img)
          = pre_frames) as Hpre.
  { rewrite deque_append_last_n by (rewrite Hbuf; apply last_n_length).
    rewrite Hbuf, last_n_app_l, last_n_last_n
      by (unfold PRE_SNAPSHOT_COUNT, FRAME_BUFFER_SIZE; lia).
    subst pre_frames. now rewrite Hsnoc. }
  destruct (step_decoded camera_id st inp img Himg) as (_ & -> & _).
  destruct (on_frame_reports camera_id st img inp) as [-> ->]. rewrite Hc. cbv zeta.
  rewrite Hpre. split_and!.
  - exact Hbuf.
  - reflexivity.
  - subst pre_frames. rewrite Hsnoc. apply last_n_snoc_last.
    unfold PRE_SNAPSHOT_COUNT. lia.
  - apply (last_n_length PRE_SNAPSHOT_COUNT).
  - reflexivity.
Qed.

(** X18.  What a confirming call leaves outside, in order: the frame itself
    as post-accident evidence of the previous incident, under that
    incident's tag, if its countdown is still running and the write does not
    raise; the pre-accident files; the main snapshot, unless its write
    raises; and the request, which is made in every case and carries the
    snapshot URL exactly when the main snapshot was written.  The frame
    reported is an entry of the pool or the entry of the confirming frame,
    and the image stored in an entry is what [r.plot()] returned, or the raw
    frame if it raised. *)
Theorem confirming_call_evidence camera_id st inp img :
  decoded inp = Some img -> confirms st inp = true ->
  let tag := mkTag camera_id (Py.int (now_ts inp)) in
  let best := reported_best st img inp in
  step_events camera_id st inp
  = match current_incident_tag st with
    | Some previous =>
        if (0 <? post_capture_remaining st)%Z && post_write_ok inp
        then [PostSnapshot previous (post_capture_counter st) img] else []
    | None => []
    end
    ++ pre_snapshots tag (deque_append FRAME_BUFFER_SIZE (frame_buffer st) img)
         (pre_write_raises inp)
    ++ (if main_write_ok inp
        then [MainSnapshot tag (main_uuid inp) (annotated_img_final best)] else [])
    ++ [BackendSend camera_id best
          (if main_write_ok inp then Some (tag, main_uuid inp) else None)]
  /\ (exists c, (In c (candidate_frames st) \/ c = frame_candidate img inp)
                /\ best = best_of c)
  /\ c_annotated_img (frame_candidate img inp) = default img (plotted inp).
Proof.
  intros Himg Hc tag best.
  destruct (step_decoded camera_id st inp img Himg) as (_ & -> & _).
  rewrite on_frame_events, Hc. cbv zeta. split_and!.
  - f_equal. unfold saves_post.
    destruct (current_incident_tag st) as [t |].
    + rewrite bool_decide_eq_true_2 by eauto. reflexivity.
    + rewrite bool_decide_eq_false_2 by (intros [? [=]]). reflexivity.
  - destruct (reported_best_in_pool st img inp) as (c & _ & Hin & Hb). eauto.
  - reflexivity.
Qed.

End LiveEvents.

(* ===================================================================== *)
(** * Live mode: the dict of all cameras *)
(* ===================================================================== *)

Section CameraDict.

Context {Image : Type}.
Implicit Types (camera_states : gmap string (CameraState Image)).

Lemma detect_accident_dom camera_id (inp : FrameInput Image) camera_states :
  dom (detect_accident camera_id inp camera_states).1.1
  = match decoded inp with
    | Some _ => dom camera_states ∪ {[camera_id]}
    | None => dom camera_states
    end.
Proof.
  unfold detect_accident. destruct (decoded inp) as [img |]; [| reflexivity].
  unfold get_camera_state.
  destruct (camera_states !! camera_id) as [st |] eqn:E;
    destruct (on_frame camera_id _ img inp) as [[st' r] evs]; cbn [fst snd];
    rewrite ?insert_insert_eq, dom_insert_L; apply union_comm_L.
Qed.

(** X13.  The service never forgets a camera: after any sequence of calls
    the dict holds exactly the cameras it held before and the cameras that
    sent at least one frame that decodes.  A call whose frame does not decode
    leaves the dict as it is, creating no entry; a call whose frame decodes
    leaves the entries of all other cameras as they are. *)
Theorem camera_states_only_grow camera_states
    (calls : list (string * FrameInput Image)) :
  dom (serve camera_states calls).1 = dom camera_states ∪ decodable_cameras calls
  /\ (forall camera_id inp,
      decoded inp = None ->
      (detect_accident camera_id inp camera_states).1.1 = camera_states)
  /\ (forall camera_id inp other,
      other <> camera_id ->
      (detect_accident camera_id inp camera_states).1.1 !! other
      = camera_states !! other).
Proof.
  split_and!.
  - revert camera_states.
    induction calls as [| [cid inp] calls IH]; intros camera_states.
    + unfold decodable_cameras. simpl. now rewrite union_empty_r_L.
    + cbn [serve].
      pose proof (detect_accident_dom cid inp camera_states) as Hdom.
      destruct (detect_accident cid inp camera_states) as [[cs1 r] evs].
      cbn [fst snd] in Hdom. specialize (IH cs1).
      destruct (serve cs1 calls) as [cs2 log]. cbn [fst snd] in IH |- *.
      rewrite IH, Hdom. unfold decodable_cameras. rewrite omap_cons_eq. cbn [fst snd].
      destruct (decoded inp); [| reflexivity].
      rewrite list_to_set_cons. now rewrite union_assoc_L.
  - intros camera_id inp Himg. unfold detect_accident. now rewrite Himg.
  - intros camera_id inp other Hne.
    apply (detect_accident_step camera_id inp camera_states). exact Hne.
Qed.

End CameraDict.

(* ===================================================================== *)
(** * Batch mode: the first pass *)
(* ===================================================================== *)

Section VideoPass1.

Context {Image : Type}.
Implicit Types (frames : list (VideoFrame Image)) (fr : VideoFrame Image).
Implicit Types (p : Pass1 Image).

Lemma pass1_snoc frames fr : pass1 (frames ++ [fr]) = pass1_step (pass1 frames) fr.
Proof. unfold pass1. now rewrite fold_left_app. Qed.

Lemma flagged_at_range frames k :
  flagged_at frames k = true -> (1 <= k <= Z.of_nat (length frames))%Z.
Proof.
  unfold flagged_at. intros H. apply andb_true_iff in H as [H1 H2].
  apply Z.leb_le in H1.
  destruct (frames !! Z.to_nat (k - 1)) as [fr |] eqn:E; [| discriminate].
  apply lookup_lt_Some in E. lia.
Qed.

Lemma flagged_at_snoc_old frames fr k :
  (k <= Z.of_nat (length frames))%Z ->
  flagged_at (frames ++ [fr]) k = flagged_at frames k.
Proof.
  intros Hk. unfold flagged_at. destruct (Z.leb_spec 1 k); [| reflexivity].
  rewrite lookup_app_l by lia. reflexivity.
Qed.

Lemma flagged_at_snoc_new frames fr :
  flagged_at (frames ++ [fr]) (Z.of_nat (length frames) + 1) = video_flagged fr.
Proof.
  unfold flagged_at.
  replace (Z.to_nat (Z.of_nat (length frames) + 1 - 1)) with (length frames) by lia.
  rewrite lookup_app_r, Nat.sub_diag by lia. simpl.
  destruct (Z.leb_spec 1 (Z.of_nat (length frames) + 1)); [reflexivity | lia].
Qed.

Lemma confirmed_at_range frames k :
  confirmed_at frames k = true ->
  (k `mod` 3 = 0 /\ 9 <= k <= Z.of_nat (length frames))%Z.
Proof.
  unfold confirmed_at, FRAME_STEP. intros H.
  apply andb_true_iff in H as [H H3]. apply andb_true_iff in H as [H H2].
  apply andb_true_iff in H as [H0 H1].
  apply Z.eqb_eq in H0. apply flagged_at_range in H1, H3.
  split; [assumption |]. Z.to_euclidean_division_equations. lia.
Qed.

Lemma confirmed_at_snoc_old frames fr k :
  (k <= Z.of_nat (length frames))%Z ->
  confirmed_at (frames ++ [fr]) k = confirmed_at frames k.
Proof.
  intros Hk. unfold confirmed_at, FRAME_STEP.
  rewrite !flagged_at_snoc_old by lia. reflexivity.
Qed.

(** The streak counter decides confirmation: with [c] the length of the row
    of flagged analysed frames that ends at frame [3 * q]. *)
Lemma confirmed_by_counter frames (q c : Z) :
  (0 <= c)%Z ->
  (forall j, (0 <= j < c)%Z -> flagged_at frames (3 * q - 3 * j) = true) ->
  flagged_at frames (3 * q - 3 * c) = false ->
  confirmed_at frames (3 * q) = negb (c <? VIDEO_CONFIRM_FRAMES)%Z.
Proof.
  intros Hc Hrow Hend. unfold confirmed_at, FRAME_STEP, VIDEO_CONFIRM_FRAMES.
  replace ((3 * q) `mod` 3 =? 0)%Z with true
    by (symmetry; apply Z.eqb_eq; Z.to_euclidean_division_equations; lia).
  cbn [andb].
  destruct (Z.ltb_spec c 3) as [Hlt | Hge]; cbn [negb].
  - assert (c = 0 \/ c = 1 \/ c = 2)%Z as [-> | [-> | ->]] by lia.
    + replace (3 * q - 3 * 0)%Z with (3 * q)%Z in Hend by lia. now rewrite Hend.
    + replace (3 * q - 3 * 1)%Z with (3 * q - 3)%Z in Hend by lia.
      rewrite Hend. now rewrite andb_false_r.
    + replace (3 * q - 3 * 2)%Z with (3 * q - 2 * 3)%Z in Hend by lia.
      rewrite Hend. now rewrite andb_false_r.
  - pose proof (Hrow 0%Z ltac:(lia)) as H0. pose proof (Hrow 1%Z ltac:(lia)) as H1.
    pose proof (Hrow 2%Z ltac:(lia)) as H2.
    replace (3 * q - 3 * 0)%Z with (3 * q)%Z in H0 by lia.
    replace (3 * q - 3 * 1)%Z with (3 * q - 3)%Z in H1 by lia.
    replace (3 * q - 3 * 2)%Z with (3 * q - 2 * 3)%Z in H2 by lia.
    now rewrite H0, H1, H2.
Qed.

(** The comparison of lines 717-721. *)
Lemma is_better_lex (s bs : Z) (r br : Q) :
  (if (bs <? s)%Z then true else (s =? bs)%Z && Py.gt r br) = true
  <-> lex_lt (bs, br) (s, r).
Proof.
  unfold lex_lt. simpl.
  destruct (Z.ltb_spec bs s) as [Hlt | Hge]; [split; [intros _; now left | reflexivity] |].
  destruct (Z.eqb_spec s bs) as [-> | Hne]; simpl.
  - destruct (Py_gt_spec r br) as [Hgt | Hngt].
    + split; [intros _; right; now split | reflexivity].
    + split; [discriminate | intros [? | [_ ?]]; [lia | contradiction]].
  - split; [discriminate | intros [? | [? _]]; [lia | congruence]].
Qed.

(** One iteration of the first pass, by what becomes of the streak counter
    and of the best frame. *)
Lemma pass1_step_cases p fr :
  let p' := pass1_step p fr in
  let n' := (frame_index p + 1)%Z in
  let counter' :=
    if video_flagged fr then (video_accident_counter p + 1)%Z else 0%Z in
  let replaced :=
    (n' `mod` 3 =? 0)%Z && negb (counter' <? VIDEO_CONFIRM_FRAMES)%Z
    && (if (v_best_severity_score p <? (video_key fr).1)%Z then true
        else ((video_key fr).1 =? v_best_severity_score p)%Z
             && Py.gt (video_key fr).2 (v_best_overlap_ratio p)) in
  frame_index p' = n'
  /\ video_accident_counter p'
     = (if (n' `mod` 3 =? 0)%Z then counter' else video_accident_counter p)
  /\ v_best_frame_index p' = (if replaced then Some n' else v_best_frame_index p)
  /\ pass1_best p' = (if replaced then frame_best fr else pass1_best p)
  /\ v_best_severity_score p'
     = (if replaced then (video_key fr).1 else v_best_severity_score p).
Proof.
  unfold pass1_step, video_key, video_flagged, pass1_best, frame_best, FRAME_STEP.
  cbv zeta. cbn [fst snd].
  generalize (video_score (vf_detections fr)). intros sc.
  destruct ((frame_index p + 1) `mod` 3 =? 0)%Z; cbn [negb andb];
    [| repeat split].
  destruct (fs_accident_detected_frame sc);
    (match goal with
     | |- context [(?c <? VIDEO_CONFIRM_FRAMES)%Z] =>
         destruct (c <? VIDEO_CONFIRM_FRAMES)%Z
     end; cbn [negb andb]; [repeat split |]);
    (destruct (v_best_severity_score p <? fs_severity_score sc)%Z;
     [repeat split |]);
    (destruct ((fs_severity_score sc =? v_best_severity_score p)%Z
               && Py.gt (fs_max_overlap_ratio sc) (v_best_overlap_ratio p));
     repeat split).
Qed.

Lemma frame_best_key fr (x : Severity * Z * Q * Z * Z * bool * option string * option Image) :
  x = frame_best fr -> (x.1.1.1.1.1.1.2, x.1.1.1.1.1.2) = video_key fr.
Proof. intros ->. reflexivity. Qed.

Lemma video_score_rank (boxes : list Detection) :
  (1 <= fs_severity_score (video_score boxes) <= 4)%Z
  /\ fs_severity_score (video_score boxes) = severity_order (fs_severity (video_score boxes))
  /\ fs_victims_estimated (video_score boxes)
     = Z.max 1 (person_count (fs_tally (video_score boxes))).
Proof.
  unfold video_score. cbv zeta.
  cbn [fs_severity_score fs_severity fs_victims_estimated fs_tally].
  split_and!; try reflexivity.
  - destruct (video_severity _ _ _); simpl; lia.
  - destruct (video_severity _ _ _); simpl; lia.
  - unfold video_victims_estimated.
    destruct (Z.ltb_spec 0 (person_count (tally boxes))); lia.
Qed.

(** What the first pass has established after any number of frames: the
    streak counter is the length of the row of flagged analysed frames ending
    at the last analysed frame, and the best frame is the first of the
    confirmed frames with the greatest key. *)
Lemma pass1_invariant frames :
  let p := pass1 frames in
  let n := Z.of_nat (length frames) in
  frame_index p = n
  /\ (exists q,
        (3 * q <= n < 3 * q + 3)%Z
        /\ (0 <= video_accident_counter p)%Z
        /\ (forall j, (0 <= j < video_accident_counter p)%Z ->
                      flagged_at frames (3 * q - 3 * j) = true)
        /\ flagged_at frames (3 * q - 3 * video_accident_counter p) = false)
  /\ match v_best_frame_index p with
     | None =>
         v_best_severity_score p = 0%Z /\ forall k, confirmed_at frames k = false
     | Some b =>
         confirmed_at frames b = true
         /\ exists fr,
             frames !! Z.to_nat (b - 1) = Some fr
             /\ pass1_best p = frame_best fr
             /\ forall k fr',
                 confirmed_at frames k = true ->
                 frames !! Z.to_nat (k - 1) = Some fr' ->
                 lex_le (video_key fr') (video_key fr)
                 /\ ((k < b)%Z -> lex_lt (video_key fr') (video_key fr))
     end.
Proof.
  induction frames as [| fr frames IH] using rev_ind.
  - cbv zeta. split; [reflexivity | split].
    + exists 0%Z. simpl. split_and!; try lia. reflexivity.
    + simpl. split; [reflexivity |]. intros k. unfold confirmed_at, flagged_at.
      rewrite !lookup_nil, !andb_false_r. reflexivity.
  - cbv zeta in IH |- *. rewrite pass1_snoc.
    destruct IH as (Hidx & (q & Hq & Hc & Hrow & Hend) & Hbest).
    pose proof (pass1_step_cases (pass1 frames) fr) as Hstep. cbv zeta in Hstep.
    destruct Hstep as (S1 & S2 & S3 & S4 & S5).
    rewrite Hidx in S1, S2, S3, S4, S5.
    rewrite length_app. simpl length.
    replace (Z.of_nat (length frames + 1)) with (Z.of_nat (length frames) + 1)%Z by lia.
    set (n := Z.of_nat (length frames)) in *.
    set (p := pass1 frames) in *.
    set (counter' := if video_flagged fr then (video_accident_counter p + 1)%Z else 0%Z)
      in *.
    (* the streak counter *)
    assert (exists q',
               (3 * q' <= n + 1 < 3 * q' + 3)%Z
               /\ ((n + 1) `mod` 3 = 0 -> 3 * q' = n + 1)%Z
               /\ (0 <= video_accident_counter (pass1_step p fr))%Z
               /\ (forall j, (0 <= j < video_accident_counter (pass1_step p fr))%Z ->
                             flagged_at (frames ++ [fr]) (3 * q' - 3 * j) = true)
               /\ flagged_at (frames ++ [fr])
                    (3 * q' - 3 * video_accident_counter (pass1_step p fr)) = false)
      as (q' & Hq' & Hq'n & Hc' & Hrow' & Hend').
    { rewrite S2. destruct (Z.eqb_spec ((n + 1) `mod` 3) 0) as [Hmod | Hmod].
      - assert (n + 1 = 3 * q + 3)%Z as Hn
          by (Z.to_euclidean_division_equations; lia).
        exists (q + 1)%Z. subst counter'.
        destruct (video_flagged fr) eqn:Hflag.
        + split_and!; try lia.
          * intros j Hj. destruct (Z.eq_dec j 0%Z) as [-> | Hj0].
            -- replace (3 * (q + 1) - 3 * 0)%Z with (n + 1)%Z by lia.
               subst n. now rewrite flagged_at_snoc_new.
            -- rewrite flagged_at_snoc_old by lia.
               replace (3 * (q + 1) - 3 * j)%Z with (3 * q - 3 * (j - 1))%Z by lia.
               apply Hrow. lia.
          * rewrite flagged_at_snoc_old by lia.
            replace (3 * (q + 1) - 3 * (video_accident_counter p + 1))%Z
              with (3 * q - 3 * video_accident_counter p)%Z by lia.
            exact Hend.
        + split_and!; try lia.
          replace (3 * (q + 1) - 3 * 0)%Z with (n + 1)%Z by lia.
          subst n. now rewrite flagged_at_snoc_new.
      - exists q. split_and!; try lia.
        + Z.to_euclidean_division_equations; lia.
        + intros j Hj. rewrite flagged_at_snoc_old by lia. now apply Hrow.
        + rewrite flagged_at_snoc_old by lia. exact Hend. }
    split; [exact S1 | split; [exists q'; now split_and! |]].
    (* whether the new frame is a confirmed one *)
    assert (confirmed_at (frames ++ [fr]) (n + 1)
            = ((n + 1) `mod` 3 =? 0)%Z && negb (counter' <? VIDEO_CONFIRM_FRAMES)%Z)
      as Hnew.
    { destruct (Z.eqb_spec ((n + 1) `mod` 3) 0) as [Hmod | Hmod].
      - rewrite <- (Hq'n Hmod). rewrite S2 in Hc', Hrow', Hend'.
        replace ((n + 1) `mod` 3 =? 0)%Z with true in Hc', Hrow', Hend'
          by (symmetry; now apply Z.eqb_eq).
        now apply confirmed_by_counter.
      - unfold confirmed_at, FRAME_STEP.
        replace ((n + 1) `mod` 3 =? 0)%Z with false
          by (symmetry; now apply Z.eqb_neq).
        reflexivity. }
    assert (forall k, confirmed_at (frames ++ [fr]) k = true ->
                      k = (n + 1)%Z \/ confirmed_at frames k = true) as Hsplit.
    { intros k Hk. pose proof (confirmed_at_range _ _ Hk) as [_ Hr].
      rewrite length_app in Hr. simpl in Hr.
      destruct (Z.eq_dec k (n + 1)%Z) as [-> | Hne]; [now left | right].
      rewrite confirmed_at_snoc_old in Hk by lia. exact Hk. }
    assert ((frames ++ [fr]) !! Z.to_nat (n + 1 - 1) = Some fr) as Hlast.
    { replace (Z.to_nat (n + 1 - 1)) with (length frames) by lia.
      rewrite lookup_app_r, Nat.sub_diag by lia. reflexivity. }
    assert (forall k fr', confirmed_at frames k = true ->
                          (frames ++ [fr]) !! Z.to_nat (k - 1) = Some fr' ->
                          frames !! Z.to_nat (k - 1) = Some fr') as Hold.
    { intros k fr' Hk Hl. pose proof (confirmed_at_range _ _ Hk) as [_ Hr].
      rewrite lookup_app_l in Hl by lia. exact Hl. }
    rewrite S3, S4, S5. rewrite <- Hnew.
    destruct (confirmed_at (frames ++ [fr]) (n + 1)) eqn:Hconf; cbn [andb].
    2: { (* not a confirmed frame: nothing changes *)
         destruct (v_best_frame_index p) as [b |].
         - destruct Hbest as (Hb & frb & Hlb & Hfb & Hmax).
           pose proof (confirmed_at_range _ _ Hb) as [_ Hr].
           split; [rewrite confirmed_at_snoc_old by lia; exact Hb |].
           exists frb. split; [rewrite lookup_app_l by lia; exact Hlb |].
           split; [exact Hfb |]. intros k fr' Hk Hl.
           destruct (Hsplit k Hk) as [-> | Hk']; [congruence |].
           apply (Hmax k fr' Hk'). now apply Hold.
         - destruct Hbest as [Hs Hnone]. split; [exact Hs |]. intros k.
           destruct (confirmed_at (frames ++ [fr]) k) eqn:Hk; [| reflexivity].
           destruct (Hsplit k Hk) as [-> | Hk']; [congruence |].
           now rewrite Hnone in Hk'. }
    (* a confirmed frame *)
    pose proof (video_score_rank (vf_detections fr)) as [Hrank _].
    destruct (v_best_frame_index p) as [b |].
    + destruct Hbest as (Hb & frb & Hlb & Hfb & Hmax).
      pose proof (confirmed_at_range _ _ Hb) as [_ Hr].
      pose proof (frame_best_key frb _ Hfb) as Hkey. unfold pass1_best in Hkey.
      cbn [fst snd] in Hkey.
      pose proof (is_better_lex (video_key fr).1 (v_best_severity_score p)
                    (video_key fr).2 (v_best_overlap_ratio p)) as Hlex.
      rewrite Hkey in Hlex. rewrite <- surjective_pairing in Hlex.
      destruct (if (v_best_severity_score p <? (video_key fr).1)%Z then true
                else ((video_key fr).1 =? v_best_severity_score p)%Z
                     && Py.gt (video_key fr).2 (v_best_overlap_ratio p)) eqn:Hbetter.
      * assert (lex_lt (video_key frb) (video_key fr)) as Hlt by now apply Hlex.
        split; [exact Hconf |]. exists fr. split; [exact Hlast |].
        split; [reflexivity |]. intros k fr' Hk Hl.
        destruct (Hsplit k Hk) as [-> | Hk'].
        -- rewrite Hlast in Hl. injection Hl as <-.
           split; [apply lex_le_refl | lia].
        -- destruct (Hmax k fr' Hk' (Hold k fr' Hk' Hl)) as [Hle _].
           assert (lex_lt (video_key fr') (video_key fr)) as Hlt'
             by (eapply lex_le_lt_trans; eassumption).
           split; [now apply lex_lt_le | intros _; exact Hlt'].
      * assert (lex_le (video_key fr) (video_key frb)) as Hle.
        { apply lex_not_lt_le. intros Hlt. apply Hlex in Hlt. congruence. }
        split; [rewrite confirmed_at_snoc_old by lia; exact Hb |].
        exists frb. split; [rewrite lookup_app_l by lia; exact Hlb |].
        split; [exact Hfb |]. intros k fr' Hk Hl.
        destruct (Hsplit k Hk) as [-> | Hk'].
        -- rewrite Hlast in Hl. injection Hl as <-. split; [exact Hle | lia].
        -- apply (Hmax k fr' Hk'). now apply Hold.
    + destruct Hbest as [Hs Hnone]. rewrite Hs.
      replace (0 <? (video_key fr).1)%Z with true
        by (symmetry; apply Z.ltb_lt; unfold video_key; cbn [fst snd]; lia).
      split; [exact Hconf |]. exists fr. split; [exact Hlast |].
      split; [reflexivity |]. intros k fr' Hk Hl.
      destruct (Hsplit k Hk) as [-> | Hk']; [| now rewrite Hnone in Hk'].
      rewrite Hlast in Hl. injection Hl as <-. split; [apply lex_le_refl | lia].
Qed.

(** X14.  After the first pass, [frame_index] is the number of frames read
    and the streak counter is not negative.  The best score is 0 exactly when
    there is no best frame index, so the two tests of line 740 are one.  A
    best frame index is a multiple of [FRAME_STEP] (3), at least 9 (the third
    analysed frame) and at most the number of frames; the best score is then
    the rank of the best severity, between 1 and 4, and the best victim count
    is the best person count, or 1 if that is 0. *)
Theorem first_pass_counters frames :
  let p := pass1 frames in
  frame_index p = Z.of_nat (length frames)
  /\ (0 <= video_accident_counter p)%Z
  /\ (v_best_severity_score p = 0%Z <-> v_best_frame_index p = None)
  /\ (forall b, v_best_frame_index p = Some b ->
      (b `mod` 3 = 0 /\ 9 <= b <= Z.of_nat (length frames))%Z
      /\ (1 <= v_best_severity_score p <= 4)%Z
      /\ v_best_severity_score p = severity_order (v_best_severity p)
      /\ v_best_victims p = Z.max 1 (v_best_person_count p)).
Proof.
  intros p. subst p. pose proof (pass1_invariant frames) as H. cbv zeta in H.
  destruct H as (Hidx & (q & _ & Hc & _) & Hbest).
  assert (forall b, v_best_frame_index (pass1 frames) = Some b ->
            (b `mod` 3 = 0 /\ 9 <= b <= Z.of_nat (length frames))%Z
            /\ (1 <= v_best_severity_score (pass1 frames) <= 4)%Z
            /\ v_best_severity_score (pass1 frames)
               = severity_order (v_best_severity (pass1 frames))
            /\ v_best_victims (pass1 frames)
               = Z.max 1 (v_best_person_count (pass1 frames))) as Hsome.
  { intros b Hb. rewrite Hb in Hbest. destruct Hbest as (Hconf & fr & _ & Hfb & _).
    split; [now apply confirmed_at_range |].
    pose proof (video_score_rank (vf_detections fr)) as (Hr1 & Hr2 & Hr3).
    unfold pass1_best, frame_best in Hfb. cbv zeta in Hfb.
    injection Hfb as -> -> _ -> -> _ _ _. now split_and!. }
  split; [exact Hidx | split; [exact Hc | split; [split |]]].
  - destruct (v_best_frame_index (pass1 frames)) as [b |] eqn:Hb.
    + intros Hs. destruct (Hsome b eq_refl) as (_ & ? & _). lia.
    + reflexivity.
  - intros Hnone. rewrite Hnone in Hbest. apply Hbest.
  - exact Hsome.
Qed.

(** X15.  The first pass finds no accident exactly when no analysed frame
    is the third in a row of flagged analysed frames.  Otherwise the best
    frame is a confirmed frame of the video, the best-frame variables hold
    its score and its annotated image, and its key (severity rank, then
    overlap ratio) is at least that of every confirmed frame and strictly
    greater than that of every earlier confirmed frame: the first of the
    confirmed frames with the greatest key. *)
Theorem first_pass_best_is_first_greatest_confirmed frames :
  let p := pass1 frames in
  (v_best_frame_index p = None <-> forall k, confirmed_at frames k = false)
  /\ (forall b, v_best_frame_index p = Some b ->
      confirmed_at frames b = true
      /\ exists fr,
          frames !! Z.to_nat (b - 1) = Some fr
          /\ pass1_best p = frame_best fr
          /\ forall k fr',
              confirmed_at frames k = true ->
              frames !! Z.to_nat (k - 1) = Some fr' ->
              lex_le (video_key fr') (video_key fr)
              /\ ((k < b)%Z -> lex_lt (video_key fr') (video_key fr))).
Proof.
  intros p. subst p. pose proof (pass1_invariant frames) as H. cbv zeta in H.
  destruct H as (_ & _ & Hbest). split.
  - destruct (v_best_frame_index (pass1 frames)) as [b |].
    + destruct Hbest as [Hconf _]. split; [discriminate |].
      intros Hnone. rewrite Hnone in Hconf. discriminate.
    + split; [intros _; apply Hbest | reflexivity].
  - intros b Hb. rewrite Hb in Hbest. exact Hbest.
Qed.

End VideoPass1.

(* ===================================================================== *)
(** * Batch mode: the second pass *)
(* ===================================================================== *)

Ltac pass2_cases :=
  unfold pass2_step, PRE_SNAPSHOT_COUNT, POST_CAPTURE_FRAMES, POST_CAPTURE_SECONDS,
    POST_CAPTURE_FPS in *;
  change (Z.of_nat 5) with 5%Z in *; change (5 * 5)%Z with 25%Z in *; cbv zeta;
  repeat match goal with
         | |- context [(?a <=? ?b)%Z] => destruct (Z.leb_spec a b)
         | |- context [(?a <? ?b)%Z] => destruct (Z.ltb_spec a b)
         | |- context [(?a =? ?b)%Z] => destruct (Z.eqb_spec a b)
         end;
  try lia; cbn [andb negb app].

Ltac pass2_side :=
  cbn [p2_frame_index pre_saved post_saved main_saved pass2_start length];
  reflexivity || lia.

Section VideoPass2.

Context {Image : Type}.
Variables (tag : IncidentTag) (b : Z) (annotated : option Image).
Variables (main_ok : bool) (uuid : string).
Implicit Types (p : Pass2) (fr : ClipFrame Image) (l : list (ClipFrame Image)).

Abbreviation step := (pass2_step tag b annotated main_ok uuid).
Abbreviation loop := (pass2_loop tag b annotated main_ok uuid).
Abbreviation pre_start := (Z.max 1 (b - 5)).

(** The state with the frame counter advanced by [k]. *)
Abbreviation advanced p k :=
  {| p2_frame_index := p2_frame_index p + k;
     pre_saved := pre_saved p;
     post_saved := post_saved p;
     main_saved := main_saved p;
     snapshot_url := snapshot_url p |}.

Lemma step_quiet p fr :
  (1 <= b)%Z ->
  (p2_frame_index p + 1 < pre_start \/ b + 25 < p2_frame_index p + 1)%Z ->
  step p fr = (advanced p 1%Z, []).
Proof.
  intros Hb Hi. pass2_cases; destruct annotated; reflexivity.
Qed.

Lemma step_pre p fr :
  (pre_start <= p2_frame_index p + 1 <= b - 1)%Z -> (pre_saved p < 5)%Z ->
  step p fr
  = ({| p2_frame_index := p2_frame_index p + 1;
        pre_saved := if cf_write_ok fr then pre_saved p + 1 else pre_saved p;
        post_saved := post_saved p;
        main_saved := main_saved p;
        snapshot_url := snapshot_url p |},
     if cf_write_ok fr then [VideoPre tag (pre_saved p) (cf_image fr)] else []).
Proof.
  intros Hi Hs. pass2_cases; destruct (cf_write_ok fr); reflexivity.
Qed.

Lemma step_main p fr :
  (p2_frame_index p + 1 = b)%Z -> main_saved p = false ->
  step p fr
  = ({| p2_frame_index := b;
        pre_saved := pre_saved p;
        post_saved := post_saved p;
        main_saved := match annotated with Some _ => main_ok | None => false end;
        snapshot_url := match annotated with
                        | Some _ => if main_ok then Some (tag, uuid) else snapshot_url p
                        | None => snapshot_url p
                        end |},
     match annotated with
     | Some img => if main_ok then [VideoMain tag uuid img] else []
     | None => []
     end).
Proof.
  intros Hi Hs. pass2_cases; rewrite Hs; cbn [negb andb]; rewrite ?Hi;
    destruct main_ok, annotated; reflexivity.
Qed.

Lemma step_post p fr :
  (b < p2_frame_index p + 1 <= b + 25)%Z -> (post_saved p < 25)%Z ->
  step p fr
  = ({| p2_frame_index := p2_frame_index p + 1;
        pre_saved := pre_saved p;
        post_saved := if cf_write_ok fr then post_saved p + 1 else post_saved p;
        main_saved := main_saved p;
        snapshot_url := snapshot_url p |},
     if cf_write_ok fr then [VideoPost tag (post_saved p) (cf_image fr)] else []).
Proof.
  intros Hi Hs. pass2_cases; destruct (cf_write_ok fr); reflexivity.
Qed.

Lemma advanced_0 p : advanced p 0%Z = p.
Proof. destruct p. simpl. f_equal. lia. Qed.

Lemma loop_cons p fr l :
  loop p (fr :: l)
  = if (b + 25 <? p2_frame_index (step p fr).1)%Z then step p fr
    else ((loop (step p fr).1 l).1, (step p fr).2 ++ (loop (step p fr).1 l).2).
Proof.
  cbn [pass2_loop]. destruct (step p fr) as [p1 ev]. cbn [fst snd].
  change (b + POST_CAPTURE_FRAMES)%Z with (b + 25)%Z.
  destruct (b + 25 <? p2_frame_index p1)%Z; [reflexivity |].
  now destruct (loop p1 l).
Qed.

Lemma step_index p fr : p2_frame_index (step p fr).1 = (p2_frame_index p + 1)%Z.
Proof. reflexivity. Qed.

(** While the frame counter stays within [post_end_index] the loop does not
    break. *)
Lemma loop_app l1 : forall p l2,
  (p2_frame_index p + Z.of_nat (length l1) <= b + 25)%Z ->
  (loop p (l1 ++ l2)).1 = (loop (loop p l1).1 l2).1
  /\ (loop p (l1 ++ l2)).2 = (loop p l1).2 ++ (loop (loop p l1).1 l2).2.
Proof.
  induction l1 as [| fr l1 IH]; intros p l2 Hlen; [split; reflexivity |].
  rewrite <- app_comm_cons, !loop_cons, step_index. simpl length in Hlen.
  destruct (Z.ltb_spec (b + 25) (p2_frame_index p + 1)); [lia |].
  cbn [fst snd].
  destruct (IH (step p fr).1 l2) as [-> ->]; [rewrite step_index; lia |].
  split; [reflexivity | now rewrite app_assoc].
Qed.

Lemma loop_app_state l1 l2 p :
  (p2_frame_index p + Z.of_nat (length l1) <= b + 25)%Z ->
  (loop p (l1 ++ l2)).1 = (loop (loop p l1).1 l2).1.
Proof. intros H. now apply loop_app. Qed.

Lemma loop_app_events l1 l2 p :
  (p2_frame_index p + Z.of_nat (length l1) <= b + 25)%Z ->
  (loop p (l1 ++ l2)).2 = (loop p l1).2 ++ (loop (loop p l1).1 l2).2.
Proof. intros H. now apply loop_app. Qed.

Lemma loop_quiet l : forall p,
  (1 <= b)%Z -> (p2_frame_index p + Z.of_nat (length l) < pre_start)%Z ->
  loop p l = (advanced p (Z.of_nat (length l)), []).
Proof.
  induction l as [| fr l IH]; intros p Hb Hlen.
  - simpl. now rewrite advanced_0.
  - cbn [length] in Hlen. rewrite loop_cons, step_quiet by lia. cbn [fst snd p2_frame_index].
    destruct (Z.ltb_spec (b + 25) (p2_frame_index p + 1)); [lia |].
    rewrite IH by (cbn [p2_frame_index]; lia).
    cbn [fst snd app p2_frame_index pre_saved post_saved main_saved snapshot_url length].
    f_equal. f_equal. lia.
Qed.

Lemma imap_shift {A B} (f : Z -> A -> B) (s : Z) (l : list A) :
  imap (fun k x => f (s + 1 + Z.of_nat k)%Z x) l
  = imap ((fun k x => f (s + Z.of_nat k)%Z x) ∘ S) l.
Proof. apply imap_ext. intros k x _. simpl. f_equal. lia. Qed.

Lemma loop_pre l : forall p,
  (pre_start <= p2_frame_index p + 1)%Z ->
  (p2_frame_index p + Z.of_nat (length l) <= b - 1)%Z ->
  (pre_saved p + Z.of_nat (length l) <= 5)%Z ->
  loop p l
  = ({| p2_frame_index := p2_frame_index p + Z.of_nat (length l);
        pre_saved := pre_saved p + Z.of_nat (length (writable l));
        post_saved := post_saved p;
        main_saved := main_saved p;
        snapshot_url := snapshot_url p |},
     imap (fun k img => VideoPre tag (pre_saved p + Z.of_nat k) img) (writable l)).
Proof.
  induction l as [| fr l IH]; intros p Hi Hlen Hs.
  - simpl. f_equal. destruct p. simpl. f_equal; lia.
  - cbn [length] in Hlen, Hs. rewrite loop_cons, step_pre by lia. cbn [fst snd p2_frame_index].
    destruct (Z.ltb_spec (b + 25) (p2_frame_index p + 1)); [lia |].
    rewrite IH by (cbn [p2_frame_index pre_saved]; destruct (cf_write_ok fr); lia).
    cbn [fst snd p2_frame_index pre_saved post_saved main_saved snapshot_url].
    unfold writable. cbn [List.filter].
    destruct (cf_write_ok fr); cbn [map length imap app].
    + f_equal; [f_equal; lia |]. f_equal; [f_equal; lia |]. apply imap_shift.
    + f_equal. f_equal. lia.
Qed.

Lemma loop_post l : forall p,
  (b <= p2_frame_index p)%Z ->
  (p2_frame_index p + Z.of_nat (length l) <= b + 25)%Z ->
  (post_saved p + Z.of_nat (length l) <= 25)%Z ->
  loop p l
  = ({| p2_frame_index := p2_frame_index p + Z.of_nat (length l);
        pre_saved := pre_saved p;
        post_saved := post_saved p + Z.of_nat (length (writable l));
        main_saved := main_saved p;
        snapshot_url := snapshot_url p |},
     imap (fun k img => VideoPost tag (post_saved p + Z.of_nat k) img) (writable l)).
Proof.
  induction l as [| fr l IH]; intros p Hi Hlen Hs.
  - simpl. f_equal. destruct p. simpl. f_equal; lia.
  - cbn [length] in Hlen, Hs. rewrite loop_cons, step_post by lia. cbn [fst snd p2_frame_index].
    destruct (Z.ltb_spec (b + 25) (p2_frame_index p + 1)); [lia |].
    rewrite IH by (cbn [p2_frame_index post_saved]; destruct (cf_write_ok fr); lia).
    cbn [fst snd p2_frame_index pre_saved post_saved main_saved snapshot_url].
    unfold writable. cbn [List.filter].
    destruct (cf_write_ok fr); cbn [map length imap app].
    + f_equal; [f_equal; lia |]. f_equal; [f_equal; lia |]. apply imap_shift.
    + f_equal. f_equal. lia.
Qed.

(** The frame after the post-accident window ends the loop. *)
Lemma loop_break p fr l :
  (1 <= b)%Z -> (p2_frame_index p = b + 25)%Z ->
  loop p (fr :: l) = (advanced p 1%Z, []).
Proof.
  intros Hb Hi. rewrite loop_cons, step_quiet by lia. cbn [fst snd p2_frame_index].
  destruct (Z.ltb_spec (b + 25) (p2_frame_index p + 1)); [reflexivity | lia].
Qed.

Lemma clip_windows l fb :
  (1 <= b)%Z -> l !! Z.to_nat (b - 1) = Some fb ->
  l = take (Z.to_nat (pre_start - 1)) l
      ++ pre_window b l ++ [fb] ++ post_window b l ++ drop (Z.to_nat b + 25) l.
Proof.
  intros Hb Hfb. unfold pre_window, post_window, PRE_SNAPSHOT_COUNT.
  change (Z.of_nat 5) with 5%Z. change (Z.to_nat POST_CAPTURE_FRAMES) with 25%nat.
  cbv zeta.
  rewrite app_assoc, take_take_drop.
  replace (Z.to_nat (pre_start - 1) + Z.to_nat (b - pre_start))%nat
    with (Z.to_nat (b - 1)) by lia.
  rewrite <- (take_drop (Z.to_nat (b - 1)) l) at 1. f_equal.
  rewrite (drop_S l fb (Z.to_nat (b - 1)) Hfb).
  replace (S (Z.to_nat (b - 1))) with (Z.to_nat b) by lia.
  cbn [app]. f_equal.
  rewrite <- (take_drop 25 (drop (Z.to_nat b) l)) at 1. f_equal.
  rewrite drop_drop. reflexivity.
Qed.

(** The whole second pass on a clip that has the best frame. *)
Lemma pass2_loop_clip l fb :
  (1 <= b)%Z -> l !! Z.to_nat (b - 1) = Some fb ->
  loop pass2_start l
  = ({| p2_frame_index := Z.min (Z.of_nat (length l)) (b + 26);
        pre_saved := Z.of_nat (length (writable (pre_window b l)));
        post_saved := Z.of_nat (length (writable (post_window b l)));
        main_saved := match annotated with Some _ => main_ok | None => false end;
        snapshot_url := match annotated with
                        | Some _ => if main_ok then Some (tag, uuid) else None
                        | None => None
                        end |},
     imap (fun k img => VideoPre tag (Z.of_nat k) img) (writable (pre_window b l))
     ++ match annotated with
        | Some img => if main_ok then [VideoMain tag uuid img] else []
        | None => []
        end
     ++ imap (fun k img => VideoPost tag (Z.of_nat k) img) (writable (post_window b l))).
Proof.
  intros Hb Hfb. pose proof (lookup_lt_Some _ _ _ Hfb) as Hlt.
  assert (length (take (Z.to_nat (pre_start - 1)) l) = Z.to_nat (pre_start - 1)) as LA
    by (rewrite length_take; lia).
  assert (length (pre_window b l) = Z.to_nat (b - pre_start)) as LB.
  { unfold pre_window, PRE_SNAPSHOT_COUNT. change (Z.of_nat 5) with 5%Z. cbv zeta.
    rewrite length_take, length_drop. lia. }
  assert (length (post_window b l) = Nat.min 25 (length l - Z.to_nat b)) as LD.
  { unfold post_window. change (Z.to_nat POST_CAPTURE_FRAMES) with 25%nat.
    rewrite length_take, length_drop. reflexivity. }
  assert (length (drop (Z.to_nat b + 25) l) = (length l - (Z.to_nat b + 25))%nat) as LE
    by apply length_drop.
  rewrite (clip_windows l fb Hb Hfb) at 1.
  generalize dependent (take (Z.to_nat (pre_start - 1)) l). intros A LA.
  generalize dependent (drop (Z.to_nat b + 25) l). intros E LE.
  generalize dependent (pre_window b l). intros B LB.
  generalize dependent (post_window b l). intros D LD.
  apply injective_projections.
  - (* the final state *)
    rewrite (loop_app_state A) by pass2_side.
    rewrite (loop_quiet A) by pass2_side. cbn [fst].
    rewrite (loop_app_state B) by pass2_side.
    rewrite (loop_pre B) by pass2_side. cbn [fst].
    rewrite (loop_app_state [fb]) by pass2_side.
    rewrite loop_cons, step_main by pass2_side.
    cbn [fst snd p2_frame_index pass2_loop].
    destruct (Z.ltb_spec (b + 25) b); [lia |]. cbn [fst].
    rewrite (loop_app_state D) by pass2_side.
    rewrite (loop_post D) by pass2_side. cbn [fst].
    destruct E as [| fr E].
    + cbn [pass2_loop fst]. simpl length in LE.
      cbn [p2_frame_index pre_saved post_saved main_saved snapshot_url pass2_start].
      f_equal; lia.
    + simpl length in LE.
      rewrite loop_break by pass2_side.
      cbn [fst p2_frame_index pre_saved post_saved main_saved snapshot_url pass2_start].
      f_equal; lia.
  - (* the files written *)
    rewrite (loop_app_events A) by pass2_side.
    rewrite (loop_quiet A) by pass2_side. cbn [fst snd]. rewrite app_nil_l.
    rewrite (loop_app_events B) by pass2_side.
    rewrite (loop_pre B) by pass2_side. cbn [fst snd].
    rewrite (loop_app_events [fb]) by pass2_side.
    rewrite loop_cons, step_main by pass2_side.
    cbn [fst snd p2_frame_index pass2_loop].
    destruct (Z.ltb_spec (b + 25) b); [lia |]. cbn [fst snd]. rewrite app_nil_r.
    rewrite (loop_app_events D) by pass2_side.
    rewrite (loop_post D) by pass2_side.
    cbn [fst snd pre_saved post_saved pass2_start].
    match goal with
    | |- context [(pass2_loop _ _ _ _ _ ?s E).2] =>
        assert ((loop s E).2 = []) as ->
    end.
    { destruct E as [| fr E]; [reflexivity |]. simpl length in LE.
      rewrite loop_break by pass2_side. reflexivity. }
    rewrite app_nil_r. reflexivity.
Qed.

Lemma window_lengths l fb :
  (1 <= b)%Z -> l !! Z.to_nat (b - 1) = Some fb ->
  length (pre_window b l) = Z.to_nat (Z.min 5 (b - 1))
  /\ length (post_window b l) = Nat.min 25 (length l - Z.to_nat b).
Proof.
  intros Hb Hfb. pose proof (lookup_lt_Some _ _ _ Hfb) as Hlt.
  unfold pre_window, post_window, PRE_SNAPSHOT_COUNT. change (Z.of_nat 5) with 5%Z.
  change (Z.to_nat POST_CAPTURE_FRAMES) with 25%nat. cbv zeta.
  rewrite !length_take, !length_drop. split; lia.
Qed.

(** X16.  The second pass, on a clip that has the best frame [b]: it writes
    the frames numbered [max(1, b - 5)] to [b - 1] as pre-accident files,
    then the annotated best frame as the main snapshot if the first pass
    could plot it and the write does not raise, then the frames numbered
    [b + 1] to [b + 25] as post-accident files; a frame whose write raises
    is left out and the files of each kind are numbered from 0 without gaps.
    The snapshot URL is set exactly when the main snapshot is written.  The
    loop reads one frame past the post-accident window and no more.  The
    tests [pre_saved < PRE_SNAPSHOT_COUNT] and [post_saved <
    POST_CAPTURE_FRAMES] never fail inside the windows. *)
Theorem second_pass_windows l fb :
  (1 <= b)%Z -> l !! Z.to_nat (b - 1) = Some fb ->
  let result := loop pass2_start l in
  let main := match annotated with
              | Some img => if main_ok then [VideoMain tag uuid img] else []
              | None => []
              end in
  result.2
  = imap (fun k img => VideoPre tag (Z.of_nat k) img) (writable (pre_window b l))
    ++ main
    ++ imap (fun k img => VideoPost tag (Z.of_nat k) img) (writable (post_window b l))
  /\ snapshot_url result.1 = match main with [] => None | _ => Some (tag, uuid) end
  /\ main_saved result.1 = match main with [] => false | _ => true end
  /\ p2_frame_index result.1 = Z.min (Z.of_nat (length l)) (b + 26)
  /\ pre_saved result.1 = Z.of_nat (length (writable (pre_window b l)))
  /\ post_saved result.1 = Z.of_nat (length (writable (post_window b l)))
  /\ length (pre_window b l) = Z.to_nat (Z.min 5 (b - 1))
  /\ length (post_window b l) = Nat.min 25 (length l - Z.to_nat b).
Proof.
  intros Hb Hfb result main. subst result main.
  rewrite (pass2_loop_clip l fb Hb Hfb). cbn [fst snd p2_frame_index pre_saved
    post_saved main_saved snapshot_url].
  destruct (window_lengths l fb Hb Hfb) as [Hpre Hpost].
  split_and!; try reflexivity; try assumption.
  - destruct annotated, main_ok; reflexivity.
  - destruct annotated, main_ok; reflexivity.
Qed.

End VideoPass2.

(* ===================================================================== *)
(** * Batch mode: [analyze_video] from upload to response *)
(* ===================================================================== *)

Section AnalyzeVideo.

Context {Image : Type}.
Implicit Types (u : Upload Image).

Lemma pass1_best_fields (p : Pass1 Image) (fr : VideoFrame Image) :
  pass1_best p = frame_best fr ->
  let sc := video_score (vf_detections fr) in
  v_best_severity p = fs_severity sc
  /\ v_best_severity_score p = fs_severity_score sc
  /\ v_best_victims p = fs_victims_estimated sc
  /\ v_best_person_count p = person_count (fs_tally sc)
  /\ v_best_collision p = fs_collision_detected sc
  /\ v_best_vehicle_type p = primary_vehicle_type (fs_tally sc)
  /\ v_best_annotated_frame p = vf_plotted fr.
Proof.
  unfold pass1_best, frame_best. cbv zeta. intros H.
  injection H as E1 E2 E3 E4 E5 E6 E7 E8. split_and!; assumption.
Qed.

(** The best frame of the first pass on a clip, when there is a confirmed
    frame. *)
Lemma pass1_clip_best (frames : list (ClipFrame Image)) k :
  confirmed_at (map cf_frame frames) k = true ->
  exists b fb,
    v_best_frame_index (pass1 (map cf_frame frames)) = Some b
    /\ frames !! Z.to_nat (b - 1) = Some fb
    /\ confirmed_at (map cf_frame frames) b = true
    /\ pass1_best (pass1 (map cf_frame frames)) = frame_best (cf_frame fb)
    /\ (9 <= b <= Z.of_nat (length frames))%Z.
Proof.
  intros Hk. pose proof (pass1_invariant (map cf_frame frames)) as H. cbv zeta in H.
  destruct H as (_ & _ & Hbest).
  destruct (v_best_frame_index (pass1 (map cf_frame frames))) as [b |].
  - destruct Hbest as (Hconf & fr & Hl & Hfb & _).
    rewrite list_lookup_fmap in Hl.
    destruct (frames !! Z.to_nat (b - 1)) as [fb |] eqn:E; [| discriminate].
    injection Hl as <-. exists b, fb. split_and!; try reflexivity; try assumption.
    + apply confirmed_at_range in Hconf. lia.
    + apply confirmed_at_range in Hconf. rewrite length_map in Hconf. lia.
  - destruct Hbest as [_ Hnone]. rewrite Hnone in Hk. discriminate.
Qed.

(** X17.  [analyze_video] from upload to response.  If the upload cannot
    be saved or the saved file cannot be opened, the call ends with an
    [HTTPException] of status 500 and nothing is written or sent.  If no
    analysed frame is the third in a row of flagged analysed frames, the
    response is "No accident detected in video." with no incident, and
    nothing is written or sent.  Otherwise, if the file cannot be opened
    again, the call ends with status 500 and nothing is written or sent;
    else it writes those of the five frames before the best frame, and of up
    to 25 frames after it, whose write does not raise, with the main
    snapshot in between if there is one, and then makes exactly one request,
    for the best frame: its severity, its victim estimate (at least 1), the
    injury report built from it, and the snapshot URL, which is missing
    exactly when the best frame could not be plotted or the main write
    raised.  The response names the best severity and carries the backend's
    incident id, if any. *)
Theorem analyze_video_outcomes u :
  let frames := map cf_frame (clip u) in
  let result := analyze_video u in
  (save_ok u = false -> result = (HTTPException 500 "Could not save video", []))
  /\ (save_ok u = true -> opened u = false ->
      result = (HTTPException 500 "Could not open video", []))
  /\ (save_ok u = true -> opened u = true ->
      (forall k, confirmed_at frames k = false) ->
      result = (Returned no_accident_in_video, []))
  /\ (forall k,
      save_ok u = true -> opened u = true -> confirmed_at frames k = true ->
      (reopened u = false ->
       result = (HTTPException 500 "Could not open video for snapshots", []))
      /\ (reopened u = true ->
          exists b fb,
            v_best_frame_index (pass1 frames) = Some b
            /\ clip u !! Z.to_nat (b - 1) = Some fb
            /\ let sc := video_score (vf_detections (cf_frame fb)) in
               let tag := mkTag "VIDEO_CAM_1" (Py.int (video_now_ts u)) in
               let main :=
                 match vf_plotted (cf_frame fb) with
                 | Some img =>
                     if video_main_write_ok u
                     then [VideoMain tag (video_main_uuid u) img] else []
                 | None => []
                 end in
               let out := handle_reply (send_incident_to_backend (video_http u)) in
               result
               = (Returned
                    {| message := "Video analyzed. Max severity detected = "
                                  +:+ severity_name (fs_severity sc) +:+ ".";
                       accidents_detected := out_accidents_detected out;
                       incident_ids := out_incident_ids out |},
                  imap (fun k img => VideoPre tag (Z.of_nat k) img)
                    (writable (pre_window b (clip u)))
                  ++ main
                  ++ imap (fun k img => VideoPost tag (Z.of_nat k) img)
                       (writable (post_window b (clip u)))
                  ++ [VideoSend (fs_severity sc) (fs_victims_estimated sc)
                        (build_expected_injury_report (severity_name (fs_severity sc))
                           (primary_vehicle_type (fs_tally sc))
                           (fs_victims_estimated sc) (fs_collision_detected sc)
                           (person_count (fs_tally sc)))
                        (match main with
                         | [] => None
                         | _ => Some (tag, video_main_uuid u)
                         end)])
               /\ length (pre_window b (clip u)) = 5%nat
               /\ (1 <= fs_victims_estimated sc)%Z
               /\ out_accidents_detected out = Z.of_nat (length (out_incident_ids out))
               /\ (length (out_incident_ids out) <= 1)%nat)).
Proof.
  intros frames result. subst frames result. unfold analyze_video.
  split_and!.
  - intros ->. reflexivity.
  - intros -> ->. reflexivity.
  - intros -> -> Hnone. cbn [negb].
    pose proof (pass1_invariant (map cf_frame (clip u))) as H. cbv zeta in H.
    destruct H as (_ & _ & Hbest).
    destruct (v_best_frame_index (pass1 (map cf_frame (clip u)))) as [b |];
      [| reflexivity].
    destruct Hbest as [Hconf _]. rewrite Hnone in Hconf. discriminate.
  - intros k -> -> Hk. cbn [negb].
    destruct (pass1_clip_best (clip u) k Hk) as (b & fb & Hb & Hfb & Hconf & Hbest & Hr).
    rewrite Hb.
    pose proof (video_score_rank (vf_detections (cf_frame fb))) as (Hr1 & _ & Hr3).
    apply pass1_best_fields in Hbest. cbv zeta in Hbest.
    destruct Hbest as (E1 & E2 & E4 & E5 & E6 & E7 & E8).
    rewrite E1, E2, E4, E5, E6, E7, E8.
    destruct (Z.eqb_spec (fs_severity_score (video_score (vf_detections (cf_frame fb)))) 0)
      as [Hz | _]; [lia |].
    split; [intros ->; reflexivity |]. intros ->. cbn [negb].
    exists b, fb. split; [reflexivity | split; [exact Hfb |]]. cbv zeta.
    rewrite (pass2_loop_clip _ b _ _ _ (clip u) fb) by (assumption || lia).
    cbn [fst snd snapshot_url].
    pose proof (handle_reply_ids (send_incident_to_backend (video_http u))) as Hh.
    cbv zeta in Hh. destruct Hh as (Hh1 & Hh2 & _).
    split_and!.
    + f_equal. rewrite <- !app_assoc. do 3 f_equal.
      destruct (vf_plotted (cf_frame fb)), (video_main_write_ok u); reflexivity.
    + destruct (window_lengths b (clip u) fb) as [-> _]; [lia | assumption | lia].
    + lia.
    + exact Hh1.
    + exact Hh2.
Qed.

End AnalyzeVideo.

(* ===================================================================== *)
(** * The further properties on sample inputs *)
(* ===================================================================== *)

(** Two boxes that share a corner region, in either order. *)
Lemma collision_flag_is_order_independent_witness :
  any_pair_overlap [mkBox 0 0 4 4; mkBox 2 2 6 6; mkBox 9 9 10 10]
  = any_pair_overlap [mkBox 2 2 6 6; mkBox 0 0 4 4; mkBox 9 9 10 10].
Proof.
  apply (proj2 (collision_flag_is_order_independent
                  [mkBox 0 0 4 4; mkBox 2 2 6 6; mkBox 9 9 10 10]
                  [mkBox 2 2 6 6; mkBox 0 0 4 4; mkBox 9 9 10 10])).
  apply perm_swap.
Defined.

(** Three boxes, rotated. *)
Lemma overlap_ratio_is_order_independent_witness :
  compute_max_overlap_ratio [mkBox 0 0 4 4; mkBox 2 2 6 6; mkBox 3 3 5 5]
  == compute_max_overlap_ratio [mkBox 2 2 6 6; mkBox 3 3 5 5; mkBox 0 0 4 4].
Proof.
  apply overlap_ratio_is_order_independent.
  apply (Permutation_cons_append [mkBox 2 2 6 6; mkBox 3 3 5 5] (mkBox 0 0 4 4)).
Defined.

(** Two boxes with a ratio of 1/7; two boxes apart. *)
Lemma positive_overlap_ratio_means_collision_witness :
  any_pair_overlap [mkBox 0 0 4 4; mkBox 2 2 6 6] = true
  /\ compute_max_overlap_ratio [mkBox 0 0 1 1; mkBox 2 2 3 3] == 0.
Proof.
  split.
  - apply (proj1 (positive_overlap_ratio_means_collision [mkBox 0 0 4 4; mkBox 2 2 6 6])).
    reflexivity.
  - apply (proj2 (positive_overlap_ratio_means_collision [mkBox 0 0 1 1; mkBox 2 2 3 3])).
    reflexivity.
Defined.

(** A person, then a truck, then a car: the first vehicle is the truck. *)
Lemma tally_counts_are_consistent_witness :
  let boxes := [Sample.person; mkDetection "truck" (1 # 2) (mkBox 0 0 1 1); Sample.car] in
  primary_vehicle_type (tally boxes) = Some "truck" /\ "truck" ∈ vehicle_classes.
Proof.
  intros boxes. split; [reflexivity |].
  apply (proj2 (proj2 (proj2 (proj2 (proj2 (proj2
           (tally_counts_are_consistent boxes))))))).
  reflexivity.
Defined.

(** A car on a person is MAJOR, so a collision; a lone car is not flagged,
    so MINOR. *)
Lemma frame_score_facts_witness :
  fs_collision_detected (live_score [Sample.car; Sample.person]) = true
  /\ fs_severity (live_score [Sample.car]) = MINOR.
Proof.
  split.
  - apply (proj1 (proj2 (proj2 (frame_score_facts [Sample.car; Sample.person])))).
    right. reflexivity.
  - apply (proj1 (frame_score_facts [Sample.car])). reflexivity.
Defined.

(** A severity the builder does not know is treated as MINOR. *)
Lemma injury_report_shape_witness :
  build_expected_injury_report "SEVERE" (Some "bus") 3 true 3
  = build_expected_injury_report "MINOR" (Some "bus") 3 true 3.
Proof.
  apply (proj2 (proj2 (proj2 (proj2 (proj2
           (injury_report_shape "SEVERE" (Some "bus") 3 true 3))))));
    discriminate.
Defined.

(** A collision with no vehicle type and nobody in the scene; and nothing
    observed at all. *)
Lemma injury_mechanism_text_witness :
  String.prefix "collision detected"
    (mechanismOfInjury (build_expected_injury_report "CRITICAL" None 1 true 0)) = true
  /\ mechanismOfInjury (build_expected_injury_report "MINOR" (Some "") 1 false 0)
     = "Road traffic accident".
Proof.
  split.
  - apply (proj1 (proj2 (injury_mechanism_text "CRITICAL" None 1 true 0))). reflexivity.
  - apply (proj1 (injury_mechanism_text "MINOR" (Some "") 1 false 0));
      [reflexivity | right; reflexivity | lia].
Defined.

(** The report of a streak of three: the pool at line 438 holds the three
    entries, and the report is built from the first of the three, of equal
    key, not from the values of the confirming frame's fallback. *)
Lemma reported_frame_was_flagged_witness :
  let inps := Sample.hits 3 1 1000 1 in
  let st := run_state Sample.cam initial_state (Sample.hits 2 1 1000 1) in
  let best := best_of (frame_candidate 1%nat (Sample.hit 1 1000)) in
  let url := Some (mkTag Sample.cam 1002, "0f8fad5b") in
  final_decision st 3%nat (Sample.hit 3 1002) = true
  /\ takes_fallback st 3%nat (Sample.hit 3 1002) = false
  /\ In (frame_candidate 3%nat (Sample.hit 3 1002))
        (candidate_frames (state_at_decision st 3%nat (Sample.hit 3 1002)))
  /\ In (Sample.cam, best, url) (reports (run_events Sample.cam initial_state inps))
  /\ best_victims best = Z.max 1 (best_person_count best)
  /\ priorityLevel (injury_report_of best) = "HIGH".
Proof.
  intros inps st best url.
  destruct (reported_frame_was_flagged (Image := nat) Sample.cam) as [Hcall Hrun].
  assert (final_decision st 3%nat (Sample.hit 3 1002) = true) as Hd by reflexivity.
  destruct (Hcall st 3%nat (Sample.hit 3 1002)) as (_ & Hfb & Hsel).
  destruct (Hsel Hd) as (_ & Hown & _).
  assert (In (Sample.cam, best, url) (reports (run_events Sample.cam initial_state inps)))
    as Hin by (vm_compute; left; reflexivity).
  destruct (Hrun inps Sample.cam best url Hin) as (_ & _ & Hvictims & _ & _ & _ & Hpriority).
  split_and!; assumption.
Defined.

(** The backend answers with a null "id" and an "incidentId" of 5: no id is
    returned. *)
Lemma response_counts_incident_ids_witness :
  let st := run_state Sample.cam initial_state (Sample.hits 2 1 1000 1) in
  let d := mkReplyDict (Some IdNull) (Some (IdConvertible 5)) None false in
  let inp := Sample.call 3 [Sample.car; Sample.person] 1002 (Answered (ReturnedDict d)) in
  incident_ids (step_response Sample.cam st inp) = [].
Proof.
  intros st d inp.
  apply (proj2 (proj2 (proj2 (response_counts_incident_ids Sample.cam st inp))) d);
    reflexivity.
Defined.

(** Four quiet frames, then a streak of three: the files are the frames 3 to
    7, the last being the confirming one. *)
Lemma pre_snapshots_are_latest_frames_witness :
  let quiet := [Sample.miss 1 996; Sample.miss 2 997; Sample.miss 3 998;
                Sample.miss 4 999] in
  let inps := quiet ++ Sample.hits 2 5 1000 1 in
  let st := run_state Sample.cam initial_state inps in
  let tag := mkTag Sample.cam 1002 in
  pre_snapshot_files (step_events Sample.cam st (Sample.hit 7 1002))
  = [(tag, 0, 3); (tag, 1, 4); (tag, 2, 5); (tag, 3, 6); (tag, 4, 7)]%nat.
Proof.
  intros quiet inps st tag.
  destruct (pre_snapshots_are_latest_frames Sample.cam inps (Sample.hit 7 1002) 7%nat)
    as (_ & Hfiles & _); [reflexivity | reflexivity |].
  exact Hfiles.
Defined.

(** A frame that does not decode, sent by a camera the service has not
    seen: no entry is created. *)
Lemma camera_states_only_grow_witness :
  let inp := mkFrameInput None [] None 1000 true None true "0f8fad5b" PostRaised in
  (detect_accident (Image := nat) "LIVE_CAM_2" inp ∅).1.1 = ∅.
Proof.
  intros inp.
  apply (proj1 (proj2 (camera_states_only_grow (Image := nat) ∅ [])) "LIVE_CAM_2" inp).
  reflexivity.
Defined.

(** The sample clip: the best frame is frame 15, the third analysed frame of
    the crash. *)
Lemma first_pass_counters_witness :
  let p := pass1 (map cf_frame SampleVideo.crash) in
  v_best_frame_index p = Some 15%Z
  /\ (1 <= v_best_severity_score p <= 4)%Z
  /\ v_best_victims p = Z.max 1 (v_best_person_count p).
Proof.
  intros p.
  destruct (first_pass_counters (map cf_frame SampleVideo.crash)) as (_ & _ & _ & H).
  destruct (H 15%Z eq_refl) as (_ & Hscore & _ & Hvictims).
  split; [reflexivity | split; [exact Hscore | exact Hvictims]].
Defined.

Lemma first_pass_best_is_first_greatest_confirmed_witness :
  let frames := map cf_frame SampleVideo.crash in
  v_best_frame_index (pass1 frames) = Some 15%Z
  /\ confirmed_at frames 15 = true.
Proof.
  intros frames. split; [reflexivity |].
  apply (proj2 (first_pass_best_is_first_greatest_confirmed frames) 15%Z). reflexivity.
Defined.

(** The second pass on the sample clip around frame 15: five files before,
    the main snapshot, the five frames that are left after. *)
Lemma second_pass_windows_witness :
  let tag := mkTag "VIDEO_CAM_1" 2000 in
  let result :=
    pass2_loop tag 15 (Some 1015%nat) true "0f8fad5b" pass2_start SampleVideo.crash in
  result.2
  = [VideoPre tag 0 10%nat; VideoPre tag 1 11%nat; VideoPre tag 2 12%nat;
     VideoPre tag 3 13%nat; VideoPre tag 4 14%nat;
     VideoMain tag "0f8fad5b" 1015%nat;
     VideoPost tag 0 16%nat; VideoPost tag 1 17%nat; VideoPost tag 2 18%nat;
     VideoPost tag 3 19%nat; VideoPost tag 4 20%nat]
  /\ p2_frame_index result.1 = 20%Z.
Proof.
  intros tag result.
  destruct (second_pass_windows tag 15 (Some 1015%nat) true "0f8fad5b" SampleVideo.crash
              (SampleVideo.frame 15 [Sample.car; Sample.person]))
    as (Hevents & _ & _ & Hindex & _); [lia | reflexivity |].
  split; [exact Hevents | exact Hindex].
Defined.

(** The sample upload when the file cannot be opened again: nothing is
    written or sent. *)
Lemma analyze_video_outcomes_witness :
  let u := SampleVideo.upload SampleVideo.crash in
  let u' := mkUpload true true (clip u) false (video_now_ts u) true "0f8fad5b"
              (video_http u) in
  analyze_video u' = (HTTPException 500 "Could not open video for snapshots", [])
  /\ analyze_video (SampleVideo.upload (SampleVideo.shots 8 1 []))
     = (Returned no_accident_in_video, []).
Proof.
  intros u u'. split.
  - apply (proj2 (proj2 (proj2 (analyze_video_outcomes u'))) 15%Z); reflexivity.
  - apply (proj1 (proj2 (proj2 (analyze_video_outcomes
                                  (SampleVideo.upload (SampleVideo.shots 8 1 []))))));
      try reflexivity.
    intros k. unfold confirmed_at.
    destruct (flagged_at (map cf_frame (clip (SampleVideo.upload (SampleVideo.shots 8 1 []))))
                k) eqn:E; [| now rewrite andb_false_r].
    exfalso. unfold flagged_at in E. apply andb_true_iff in E as [E1 E2].
    apply Z.leb_le in E1.
    destruct (Z.to_nat (k - 1)) as [| [| [| [| [| [| [| [| n]]]]]]]]; discriminate.
Defined.

(** The third frame of a streak, while the countdown of an earlier incident
    is still running. *)
Lemma confirming_call_evidence_witness :
  let st := run_state Sample.cam initial_state
              (Sample.hits 3 1 1000 1 ++ Sample.hits 2 4 1100 1) in
  let inp := Sample.hit 6 1102 in
  let old := mkTag Sample.cam 1002 in
  let tag := mkTag Sample.cam 1102 in
  step_events Sample.cam st inp
  = [PostSnapshot old 2 6%nat;
     PreSnapshot tag 0 2%nat; PreSnapshot tag 1 3%nat; PreSnapshot tag 2 4%nat;
     PreSnapshot tag 3 5%nat; PreSnapshot tag 4 6%nat;
     MainSnapshot tag "0f8fad5b" 1004%nat;
     BackendSend Sample.cam (best_of (frame_candidate 4%nat (Sample.hit 4 1100)))
       (Some (tag, "0f8fad5b"))].
Proof.
  intros st inp old tag.
  destruct (confirming_call_evidence Sample.cam st inp 6%nat) as (Hevents & _);
    [reflexivity | reflexivity |].
  exact Hevents.
Defined.
